(** * GameTime Hero RSVP service: model and verification

    A shallow embedding of the TypeScript RSVP service
    ([services/rsvp.service.ts], [utils/validators.ts], [utils/storage.ts],
    [types/rsvp.types.ts]) together with the properties its specification
    states about it.

    Modelling conventions.
    - A JavaScript [Map<string, V>] iterates in insertion order; it is modelled
      as an association list in that order ([JsMap]), with [set] replacing in
      place and appending fresh keys.
    - A [Date] is its [getTime()] value, an integer number of milliseconds.
      The [Date]s that callers pass in are valid dates. A [Date] that the
      code builds from a number is kept as that number, and is an Invalid
      Date when the number is out of range ([validDate]); comparisons with
      it are false ([dateLt], [dateLe]). Every [new Date()] / [Date.now()]
      of the source is an explicit clock reading passed to the operation.
    - Integer-valued [number] fields ([maxPlayers], [reminderInterval],
      [maxAge], counts) are integers. The two rates of [getRsvpStats] are
      doubles: a finite double is the rational number it denotes, and the
      division and the multiplication round to the nearest double
      ([Float64]).
    - Strings are sequences of 8-bit code units; an absent optional field is
      [None].
    - The service methods run in a state-and-exception monad over the four
      collections. [ensureInitialized] loads the snapshot once, on the first
      call; on an empty storage directory it loads four empty collections,
      which is what the constructor made. [saveData] writes a file that the
      instance never reads again. So neither shows in the in-memory state,
      and the methods are modelled on an initialised service whose writes
      succeed. The gateway itself is modelled in [FileStorage], over
      JavaScript values. *)

From Stdlib Require Import ZArith List String Ascii Bool Lia QArith.
From Stdlib Require Import Qround Qabs Qpower Qreduction Lqa.
From Stdlib Require Import Permutation Sorted.
Import ListNotations.

Local Open Scope string_scope.
Local Open Scope Z_scope.

(* ===================================================================== *)
(** ** Strings *)
(* ===================================================================== *)

Module Str.

(** [\s] of a JavaScript regular expression and of [trim], on 8-bit units. *)
Definition is_space (c : ascii) : bool :=
  let n := nat_of_ascii c in
  ((9 <=? n) && (n <=? 13) || (n =? 32) || (n =? 160))%nat.

(** [String.prototype.toLowerCase] on one code unit. *)
Definition lower_char (c : ascii) : ascii :=
  let n := nat_of_ascii c in
  if ((65 <=? n) && (n <=? 90))%nat then ascii_of_nat (n + 32)
  else if ((192 <=? n) && (n <=? 222) && negb (n =? 215))%nat
       then ascii_of_nat (n + 32)
  else c.

Fixpoint toLowerCase (s : string) : string :=
  match s with
  | EmptyString => EmptyString
  | String c s' => String (lower_char c) (toLowerCase s')
  end.

Fixpoint startsWith (needle hay : string) : bool :=
  match needle, hay with
  | EmptyString, _ => true
  | String _ _, EmptyString => false
  | String a n', String b h' => Ascii.eqb a b && startsWith n' h'
  end.

(** [hay.includes(needle)] *)
Fixpoint includes (hay needle : string) : bool :=
  startsWith needle hay ||
  match hay with
  | EmptyString => false
  | String _ h' => includes h' needle
  end.

Fixpoint all_chars (p : ascii -> bool) (s : string) : bool :=
  match s with
  | EmptyString => true
  | String c s' => p c && all_chars p s'
  end.

(** [s.trim().length === 0] *)
Definition blank (s : string) : bool := all_chars is_space s.

(** JavaScript truthiness of a string value. *)
Definition truthy (s : string) : bool :=
  match s with EmptyString => false | _ => true end.

(** Splits at the first occurrence of [c]. *)
Fixpoint split_first (c : ascii) (s : string) : option (string * string) :=
  match s with
  | EmptyString => None
  | String a s' =>
      if Ascii.eqb a c then Some (EmptyString, s')
      else match split_first c s' with
           | Some (l, r) => Some (String a l, r)
           | None => None
           end
  end.

(** Does [s] contain a ["."] that is followed by at least one character? *)
Fixpoint dot_then_more (s : string) : bool :=
  match s with
  | EmptyString => false
  | String a s' => (Ascii.eqb a "."%char && truthy s') || dot_then_more s'
  end.

End Str.

(* ===================================================================== *)
(** ** JavaScript [Map] with string keys *)
(* ===================================================================== *)

Module JsMap.

Definition t (V : Type) : Type := list (string * V).

Definition empty {V} : t V := [].

Fixpoint get {V} (k : string) (m : t V) : option V :=
  match m with
  | [] => None
  | (k', v) :: m' => if String.eqb k k' then Some v else get k m'
  end.

Definition has {V} (k : string) (m : t V) : bool :=
  match get k m with Some _ => true | None => false end.

(** [m.set(k, v)]: an existing key keeps its position. *)
Fixpoint set {V} (k : string) (v : V) (m : t V) : t V :=
  match m with
  | [] => [(k, v)]
  | (k', v') :: m' =>
      if String.eqb k k' then (k, v) :: m' else (k', v') :: set k v m'
  end.

Definition delete {V} (k : string) (m : t V) : t V :=
  filter (fun kv => negb (String.eqb k (fst kv))) m.

Definition keys {V} (m : t V) : list string := map fst m.
Definition values {V} (m : t V) : list V := map snd m.
Definition entries {V} (m : t V) : list (string * V) := m.

(** Representation invariant of a [Map]: no key occurs twice. *)
Definition wf {V} (m : t V) : Prop := NoDup (keys m).

End JsMap.

(* ===================================================================== *)
(** ** Data model ([types/rsvp.types.ts]) *)
(* ===================================================================== *)

Definition Date := Z.

(** [new Date(t)] is an Invalid Date when [t] lies more than 8.64e15 ms
    from the epoch on either side. The two [Date]s that the service
    computes itself, the cutoff of [cleanupData] and the [nextSendAt] of a
    reminder, are kept as the number they were built from, and are invalid
    when that number is out of this range. *)
Definition validDate (t : Date) : bool :=
  (-8640000000000000 <=? t) && (t <=? 8640000000000000).

(** [a < b] and [a <= b] on two [Date]s compare their time values; with an
    Invalid Date on either side, whose time value is [NaN], both are
    false. *)
Definition dateLt (a b : Date) : bool := validDate a && validDate b && (a <? b).
Definition dateLe (a b : Date) : bool := validDate a && validDate b && (a <=? b).
Definition RsvpStatus := string.

Record Player := mkPlayer {
  player_id : string;
  player_name : string;
  player_email : string
}.

Record Event := mkEvent {
  event_id : string;
  event_name : string;
  event_description : string;
  event_date : Date;
  event_location : string;
  maxPlayers : Z;
  archived : option bool
}.

Record RsvpEntry := mkRsvpEntry {
  e_eventId : string;
  e_player : Player;
  e_status : RsvpStatus;
  e_updatedAt : Date;
  e_notes : option string
}.

Record RsvpStats := mkRsvpStats {
  total : Z;
  confirmed : Z;
  declined : Z;
  maybe : Z;
  attendanceRate : Q;
  responseRate : Q
}.

Record SearchOptions := mkSearchOptions {
  so_eventId : option string;
  so_playerName : option string;
  so_status : option RsvpStatus;
  so_startDate : option Date
}.

Record BatchRsvpUpdate := mkBatchRsvpUpdate {
  bu_eventId : string;
  bu_playerId : string;
  bu_status : RsvpStatus;
  bu_notes : option string
}.

Record EventUpdate := mkEventUpdate {
  eu_name : option string;
  eu_description : option string;
  eu_date : option Date;
  eu_location : option string;
  eu_maxPlayers : option Z
}.

Record PlayerUpdate := mkPlayerUpdate {
  pu_name : option string;
  pu_email : option string
}.

Record WaitlistEntry := mkWaitlistEntry {
  wl_eventId : string;
  wl_player : Player;
  joinedAt : Date;
  notifiedAt : option Date
}.

Record EventReminder := mkEventReminder {
  rem_eventId : string;
  lastSentAt : Date;
  nextSendAt : Date;
  reminderInterval : Z
}.

Record CleanupOptions := mkCleanupOptions {
  co_maxAge : option Z;
  co_archive : option bool;
  co_includeRSVPs : option bool
}.

Record StorageData := mkStorageData {
  sd_rsvpEntries : JsMap.t RsvpEntry;
  sd_events : JsMap.t Event;
  sd_waitlist : JsMap.t (list WaitlistEntry);
  sd_reminders : JsMap.t EventReminder
}.

(* ===================================================================== *)
(** ** Errors and the validator ([utils/validators.ts]) *)
(* ===================================================================== *)

Inductive Error :=
| ValidationError (message : string)
| RsvpError (message : string).

(** The [typeof] tests of the validator hold by typing, and so do the
    tests that a date is a valid [Date] and [maxPlayers] an integer. *)
Module RsvpValidator.

(** [/^[^\s@]+@[^\s@]+\.[^\s@]+$/.test(email)] *)
Definition isValidEmail (email : string) : bool :=
  match Str.split_first "@"%char email with
  | None => false
  | Some (loc, dom) =>
      Str.truthy loc &&
      Str.all_chars (fun c => negb (Str.is_space c)) loc &&
      Str.all_chars (fun c => negb (Str.is_space c || Ascii.eqb c "@"%char)) dom &&
      match dom with
      | EmptyString => false
      | String _ rest => Str.dot_then_more rest
      end
  end.

Definition validatePlayer (p : Player) : Error + unit :=
  if negb (Str.truthy (player_id p)) then
    inl (ValidationError "Player ID is required and must be a string")
  else if negb (Str.truthy (player_name p)) || Str.blank (player_name p) then
    inl (ValidationError "Player name is required and must be a non-empty string")
  else if negb (Str.truthy (player_email p)) || negb (isValidEmail (player_email p)) then
    inl (ValidationError "Valid email is required")
  else inr tt.

Definition validStatuses : list RsvpStatus := ["Yes"; "No"; "Maybe"].

Definition validateRsvpStatus (s : RsvpStatus) : Error + unit :=
  if negb (existsb (String.eqb s) validStatuses) then
    inl (ValidationError "Invalid RSVP status. Must be one of: Yes, No, Maybe")
  else inr tt.

(** [now] is the [new Date()] read by the past-date check. *)
Definition validateEvent (now : Date) (e : Event) : Error + unit :=
  if negb (Str.truthy (event_id e)) then
    inl (ValidationError "Event ID is required and must be a string")
  else if negb (Str.truthy (event_name e)) || Str.blank (event_name e) then
    inl (ValidationError "Event name is required and must be a non-empty string")
  else if negb (Str.truthy (event_description e)) || Str.blank (event_description e) then
    inl (ValidationError "Event description is required and must be a non-empty string")
  else if event_date e <? now then
    inl (ValidationError "Event date cannot be in the past")
  else if negb (Str.truthy (event_location e)) || Str.blank (event_location e) then
    inl (ValidationError "Event location is required and must be a non-empty string")
  else if maxPlayers e <? 1 then
    inl (ValidationError "maxPlayers must be a positive integer")
  else inr tt.

End RsvpValidator.

(* ===================================================================== *)
(** ** Sorting by a timestamp

    [Array.prototype.sort] with the comparator
    [(a, b) => key(a) - key(b)] is a stable sort on the key; it is modelled
    by a stable insertion sort. *)
(* ===================================================================== *)

Section SortBy.
Context {A : Type} (key : A -> Z).

Fixpoint insert_by (x : A) (l : list A) : list A :=
  match l with
  | [] => [x]
  | y :: l' => if key x <=? key y then x :: y :: l' else y :: insert_by x l'
  end.

Fixpoint sort_by (l : list A) : list A :=
  match l with
  | [] => []
  | x :: l' => insert_by x (sort_by l')
  end.

Definition ascending (a b : A) : Prop := key a <= key b.
End SortBy.

(* ===================================================================== *)
(** ** The service state and its monad ([services/rsvp.service.ts]) *)
(* ===================================================================== *)

Record RsvpService := mkRsvpService {
  rsvpEntries : JsMap.t RsvpEntry;
  events : JsMap.t Event;
  waitlist : JsMap.t (list WaitlistEntry);
  reminders : JsMap.t EventReminder
}.

(** The state after construction with an empty storage directory. *)
Definition newService : RsvpService :=
  mkRsvpService JsMap.empty JsMap.empty JsMap.empty JsMap.empty.

Definition with_rsvpEntries (f : JsMap.t RsvpEntry -> JsMap.t RsvpEntry)
    (this : RsvpService) : RsvpService :=
  mkRsvpService (f (rsvpEntries this)) (events this) (waitlist this) (reminders this).

Definition with_events (f : JsMap.t Event -> JsMap.t Event)
    (this : RsvpService) : RsvpService :=
  mkRsvpService (rsvpEntries this) (f (events this)) (waitlist this) (reminders this).

Definition with_waitlist
    (f : JsMap.t (list WaitlistEntry) -> JsMap.t (list WaitlistEntry))
    (this : RsvpService) : RsvpService :=
  mkRsvpService (rsvpEntries this) (events this) (f (waitlist this)) (reminders this).

Definition with_reminders (f : JsMap.t EventReminder -> JsMap.t EventReminder)
    (this : RsvpService) : RsvpService :=
  mkRsvpService (rsvpEntries this) (events this) (waitlist this) (f (reminders this)).

(** A method body: it reads and writes [this] and may throw. The state is
    returned in both outcomes, since a throw does not undo earlier writes. *)
Definition M (A : Type) : Type := RsvpService -> (Error + A) * RsvpService.

Definition ret {A} (a : A) : M A := fun this => (inr a, this).

Definition bind {A B} (c : M A) (k : A -> M B) : M B :=
  fun this =>
    match c this with
    | (inl e, this') => (inl e, this')
    | (inr a, this') => k a this'
    end.

Definition throw {A} (e : Error) : M A := fun this => (inl e, this).
Definition gets {A} (f : RsvpService -> A) : M A := fun this => (inr (f this), this).
Definition modify (f : RsvpService -> RsvpService) : M unit :=
  fun this => (inr tt, f this).
Definition lift {A} (r : Error + A) : M A := fun this => (r, this).

Declare Scope svc_scope.
Delimit Scope svc_scope with svc.
Notation "x <- c ;; k" := (bind c (fun x => k))
  (at level 61, c at next level, right associativity) : svc_scope.
Notation "c ;;; k" := (bind c (fun _ => k))
  (at level 61, right associativity) : svc_scope.
Local Open Scope svc_scope.

(** [try { body } catch (error) { if (error instanceof ValidationError) throw
    error; throw new RsvpError(msg) }] *)
Definition rethrowing {A} (msg : string) (body : M A) : M A :=
  fun this =>
    match body this with
    | (inl (ValidationError m), this') => (inl (ValidationError m), this')
    | (inl (RsvpError _), this') => (inl (RsvpError msg), this')
    | (inr a, this') => (inr a, this')
    end.

(** [try { body } catch (error) { throw new RsvpError(msg) }] *)
Definition wrapping {A} (msg : string) (body : M A) : M A :=
  fun this =>
    match body this with
    | (inl _, this') => (inl (RsvpError msg), this')
    | (inr a, this') => (inr a, this')
    end.

(** [for (const x of xs) { acc = body(acc, x) }] over a list fixed at loop
    entry. The loops of the service iterate a live [Map] while deleting or
    overwriting the current key only, which visits exactly the entries
    present at loop entry, in order. *)
Fixpoint forOf {A B} (xs : list A) (body : B -> A -> M B) (acc : B) : M B :=
  match xs with
  | [] => ret acc
  | x :: xs' => acc' <- body acc x ;; forOf xs' body acc'
  end.

Definition day_ms : Z := 24 * 60 * 60 * 1000.

Definition rsvpKey (eventId playerId : string) : string :=
  eventId ++ "-" ++ playerId.

Definition isYes (entry : RsvpEntry) : bool := String.eqb (e_status entry) "Yes".

(* --------------------------------------------------------------------- *)
(** *** Double-precision arithmetic *)

(** A JavaScript [number] is an IEEE 754 double. A finite double is
    modelled as the rational number it denotes, and an arithmetic operation
    as IEEE 754 defines it: the exact result, rounded to the nearest double
    (53 significant bits, spacing [2^-1074] for subnormal results), ties to
    the even significand. Overflow to [Infinity] and division by zero are
    not part of the model; [getRsvpStats] divides a count by a larger,
    positive one. *)
Module Float64.

(** The exponent [e] with [2^e <= x < 2^(e+1)], for [x > 0]. *)
Definition mag (x : Q) : Z :=
  let e := Z.log2 (Qnum x) - Z.log2 (Zpos (Qden x)) in
  if Qle_bool (2 ^ e) x then e else e - 1.

(** The exponent of the last place of the double nearest to [x]: 53
    significant bits, and no finer than the subnormal spacing. *)
Definition ulp_exp (x : Q) : Z := Z.max (mag (Qabs x) - 52) (-1074).

(** Round to the nearest integer, ties to the even one. *)
Definition nearest_even (q : Q) : Z :=
  let f := Qfloor q in
  match (q - inject_Z f ?= 1 # 2)%Q with
  | Lt => f
  | Gt => f + 1
  | Eq => if Z.even f then f else f + 1
  end.

(** The double nearest to [x], ties to the even significand. *)
Definition round (x : Q) : Q :=
  let x := Qred x in
  if Qeq_bool x 0 then 0%Q
  else (inject_Z (nearest_even (x / 2 ^ ulp_exp x)) * 2 ^ ulp_exp x)%Q.

(** [x / y] and [x * y] on doubles: the exact result, rounded. *)
Definition div (x y : Q) : Q := round (x / y).
Definition mul (x y : Q) : Q := round (x * y).

(** A number that a double holds exactly. *)
Definition representable (x : Q) : Prop :=
  exists k : Z, (x == inject_Z k * 2 ^ ulp_exp x)%Q.

End Float64.

(* --------------------------------------------------------------------- *)
(** *** Synchronous queries *)

Definition getConfirmedAttendees (this : RsvpService) : list RsvpEntry :=
  sort_by e_updatedAt (filter isYes (JsMap.values (rsvpEntries this))).

Definition count_where (p : RsvpEntry -> bool) (l : list RsvpEntry) : Z :=
  Z.of_nat (List.length (filter p l)).

Definition getRsvpStats (this : RsvpService) : RsvpStats :=
  let entries := JsMap.values (rsvpEntries this) in
  let total := Z.of_nat (List.length entries) in
  let confirmed := count_where (fun entry => String.eqb (e_status entry) "Yes") entries in
  let declined := count_where (fun entry => String.eqb (e_status entry) "No") entries in
  let maybe := count_where (fun entry => String.eqb (e_status entry) "Maybe") entries in
  let attendanceRate :=
    if 0 <? total
    then Float64.mul (Float64.div (inject_Z confirmed) (inject_Z total)) 100
    else 0%Q in
  let responseRate :=
    if 0 <? total
    then Float64.mul (Float64.div (inject_Z (confirmed + declined + maybe))
                                  (inject_Z total)) 100
    else 0%Q in
  mkRsvpStats total confirmed declined maybe attendanceRate responseRate.

Definition searchRsvps (options : SearchOptions) (this : RsvpService)
    : list RsvpEntry :=
  let results := JsMap.values (rsvpEntries this) in
  let results :=
    match so_eventId options with
    | Some id => if Str.truthy id
                 then filter (fun entry => String.eqb (e_eventId entry) id) results
                 else results
    | None => results
    end in
  let results :=
    match so_playerName options with
    | Some name =>
        if Str.truthy name
        then filter (fun entry =>
                 Str.includes (Str.toLowerCase (player_name (e_player entry)))
                              (Str.toLowerCase name)) results
        else results
    | None => results
    end in
  let results :=
    match so_status options with
    | Some st => if Str.truthy st
                 then filter (fun entry => String.eqb (e_status entry) st) results
                 else results
    | None => results
    end in
  let results :=
    match so_startDate options with
    | Some startDate =>
        match (match so_eventId options with
               | Some id => JsMap.get id (events this)
               | None => None
               end) with
        | Some event => filter (fun _ => startDate <=? event_date event) results
        | None => results
        end
    | None => results
    end in
  sort_by e_updatedAt results.

Definition getPlayerById (playerId : string) (this : RsvpService) : option Player :=
  match find (fun e => String.eqb (player_id (e_player e)) playerId)
             (JsMap.values (rsvpEntries this)) with
  | Some entry => Some (e_player entry)
  | None => None
  end.

(* --------------------------------------------------------------------- *)
(** *** Events *)

Definition createEvent (now : Date) (event : Event) : M Event :=
  rethrowing "Failed to create event" (
    lift (RsvpValidator.validateEvent now event) ;;;
    (if maxPlayers event <=? 0
     then throw (ValidationError "maxPlayers must be a positive number")
     else ret tt) ;;;
    modify (with_events (JsMap.set (event_id event) event)) ;;;
    ret event).

Definition getEvent (eventId : string) : M (option Event) :=
  wrapping "Failed to get event" (gets (fun this => JsMap.get eventId (events this))).

(** [{ ...event, ...update }] *)
Definition mergeEvent (event : Event) (update : EventUpdate) : Event :=
  let pick {T} (o : option T) (d : T) := match o with Some v => v | None => d end in
  mkEvent (event_id event)
          (pick (eu_name update) (event_name event))
          (pick (eu_description update) (event_description event))
          (pick (eu_date update) (event_date event))
          (pick (eu_location update) (event_location event))
          (pick (eu_maxPlayers update) (maxPlayers event))
          (archived event).

Definition updateEvent (now : Date) (eventId : string) (update : EventUpdate)
    : M Event :=
  rethrowing "Failed to update event" (
    found <- gets (fun this => JsMap.get eventId (events this)) ;;
    match found with
    | None => throw (ValidationError "Event not found")
    | Some event =>
        let updatedEvent := mergeEvent event update in
        lift (RsvpValidator.validateEvent now updatedEvent) ;;;
        modify (with_events (JsMap.set eventId updatedEvent)) ;;;
        ret updatedEvent
    end).

Definition deleteEvent (eventId : string) : M unit :=
  rethrowing "Failed to delete event" (
    known <- gets (fun this => JsMap.has eventId (events this)) ;;
    (if negb known then throw (ValidationError "Event not found") else ret tt) ;;;
    snapshot <- gets (fun this => JsMap.entries (rsvpEntries this)) ;;
    forOf snapshot (fun _ '(key, entry) =>
      if String.eqb (e_eventId entry) eventId
      then modify (with_rsvpEntries (JsMap.delete key))
      else ret tt) tt ;;;
    modify (with_events (JsMap.delete eventId))).

Definition listEvents : M (list Event) :=
  wrapping "Failed to list events" (
    gets (fun this => sort_by event_date (JsMap.values (events this)))).

(* --------------------------------------------------------------------- *)
(** *** RSVPs *)

Definition updateRsvp (now : Date) (eventId : string) (player : Player)
    (status : RsvpStatus) (notes : option string) : M RsvpEntry :=
  rethrowing "Failed to update RSVP" (
    found <- gets (fun this => JsMap.get eventId (events this)) ;;
    match found with
    | None => throw (ValidationError "Event not found")
    | Some event =>
        lift (RsvpValidator.validatePlayer player) ;;;
        lift (RsvpValidator.validateRsvpStatus status) ;;;
        (if String.eqb status "Yes" then
           currentPlayers <-
             gets (fun this => Z.of_nat (List.length (getConfirmedAttendees this))) ;;
           if maxPlayers event <=? currentPlayers
           then throw (ValidationError "Event is at maximum capacity")
           else ret tt
         else ret tt) ;;;
        let entry := mkRsvpEntry eventId player status now notes in
        modify (with_rsvpEntries (JsMap.set (rsvpKey eventId (player_id player)) entry)) ;;;
        ret entry
    end).

(** The body of the [for (const update of updates)] loop. [clock i] is the
    time at which the [i]-th item's [updateRsvp] runs; the loop index is the
    number of results pushed so far. The item's [notes] are not passed on. *)
Definition batchItem (clock : nat -> Date) (results : list RsvpEntry)
    (update : BatchRsvpUpdate) : M (list RsvpEntry) :=
  found <- gets (fun this => JsMap.get (bu_eventId update) (events this)) ;;
  match found with
  | None => throw (ValidationError ("Event not found: " ++ bu_eventId update))
  | Some _ =>
      who <- gets (getPlayerById (bu_playerId update)) ;;
      match who with
      | None => throw (ValidationError ("Player not found: " ++ bu_playerId update))
      | Some player =>
          entry <- updateRsvp (clock (List.length results)) (bu_eventId update)
                              player (bu_status update) None ;;
          ret (results ++ [entry])%list
      end
  end.

Definition batchUpdateRsvps (clock : nat -> Date) (updates : list BatchRsvpUpdate)
    : M (list RsvpEntry) :=
  rethrowing "Failed to batch update RSVPs" (forOf updates (batchItem clock) []).

Definition cancelRsvp (eventId playerId : string) : M unit :=
  rethrowing "Failed to cancel RSVP" (
    let key := rsvpKey eventId playerId in
    known <- gets (fun this => JsMap.has key (rsvpEntries this)) ;;
    (if negb known then throw (ValidationError "RSVP not found") else ret tt) ;;;
    modify (with_rsvpEntries (JsMap.delete key))).

Definition getEventRsvps (eventId : string) : M (list RsvpEntry) :=
  rethrowing "Failed to get event RSVPs" (
    known <- gets (fun this => JsMap.has eventId (events this)) ;;
    (if negb known then throw (ValidationError "Event not found") else ret tt) ;;;
    gets (fun this =>
      sort_by e_updatedAt
        (filter (fun entry => String.eqb (e_eventId entry) eventId)
                (JsMap.values (rsvpEntries this))))).

(* --------------------------------------------------------------------- *)
(** *** Players *)

(** [{ ...player, ...update }] *)
Definition mergePlayer (player : Player) (update : PlayerUpdate) : Player :=
  mkPlayer (player_id player)
           (match pu_name update with Some v => v | None => player_name player end)
           (match pu_email update with Some v => v | None => player_email player end).

(** [{ ...entry, player: updatedPlayer }] *)
Definition withPlayer (entry : RsvpEntry) (updatedPlayer : Player) : RsvpEntry :=
  mkRsvpEntry (e_eventId entry) updatedPlayer (e_status entry)
              (e_updatedAt entry) (e_notes entry).

Definition updatePlayer (playerId : string) (update : PlayerUpdate) : M unit :=
  rethrowing "Failed to update player" (
    who <- gets (getPlayerById playerId) ;;
    match who with
    | None => throw (ValidationError "Player not found")
    | Some player =>
        let updatedPlayer := mergePlayer player update in
        lift (RsvpValidator.validatePlayer updatedPlayer) ;;;
        snapshot <- gets (fun this => JsMap.entries (rsvpEntries this)) ;;
        forOf snapshot (fun _ '(key, entry) =>
          if String.eqb (player_id (e_player entry)) playerId
          then modify (with_rsvpEntries (JsMap.set key (withPlayer entry updatedPlayer)))
          else ret tt) tt
    end).

Definition removePlayer (playerId : string) : M unit :=
  rethrowing "Failed to remove player" (
    who <- gets (getPlayerById playerId) ;;
    match who with
    | None => throw (ValidationError "Player not found")
    | Some _ =>
        snapshot <- gets (fun this => JsMap.entries (rsvpEntries this)) ;;
        forOf snapshot (fun _ '(key, entry) =>
          if String.eqb (player_id (e_player entry)) playerId
          then modify (with_rsvpEntries (JsMap.delete key))
          else ret tt) tt
    end).

(* --------------------------------------------------------------------- *)
(** *** Waitlist and reminders *)

Definition addToWaitlist (now : Date) (eventId : string) (player : Player)
    : M WaitlistEntry :=
  rethrowing "Failed to add to waitlist" (
    found <- gets (fun this => JsMap.get eventId (events this)) ;;
    match found with
    | None => throw (ValidationError "Event not found")
    | Some _ =>
        existingRsvp <-
          gets (fun this => JsMap.get (rsvpKey eventId (player_id player))
                                      (rsvpEntries this)) ;;
        match existingRsvp with
        | Some _ => throw (ValidationError "Player already has an RSVP for this event")
        | None =>
            let entry := mkWaitlistEntry eventId player now None in
            modify (with_waitlist (fun w =>
              if JsMap.has eventId w then w else JsMap.set eventId [] w)) ;;;
            modify (with_waitlist (fun w =>
              match JsMap.get eventId w with
              | Some queue => JsMap.set eventId (queue ++ [entry])%list w
              | None => w
              end)) ;;;
            ret entry
        end
    end).

(** [entry.notifiedAt = new Date()] *)
Definition stamp (now : Date) (entry : WaitlistEntry) : WaitlistEntry :=
  mkWaitlistEntry (wl_eventId entry) (wl_player entry) (joinedAt entry) (Some now).

(** Every stamped entry reads the clock anew; [clock i] is the reading for
    the [i]-th entry of the slice. *)
Definition notifyWaitlist (clock : nat -> Date) (eventId : string)
    : M (list Player) :=
  rethrowing "Failed to notify waitlist" (
    found <- gets (fun this => JsMap.get eventId (events this)) ;;
    match found with
    | None => throw (ValidationError "Event not found")
    | Some event =>
        currentPlayers <-
          gets (fun this => Z.of_nat (List.length (getConfirmedAttendees this))) ;;
        let availableSpots := maxPlayers event - currentPlayers in
        if availableSpots <=? 0 then ret []
        else
          queue <- gets (fun this => JsMap.get eventId (waitlist this)) ;;
          match queue with
          | None => ret []
          | Some queue =>
              let n := Z.to_nat availableSpots in
              let head := firstn n queue in
              let stamped :=
                map (fun ie => stamp (clock (fst ie)) (snd ie))
                    (combine (seq 0 (List.length head)) head) in
              modify (with_waitlist (JsMap.set eventId (stamped ++ skipn n queue)%list)) ;;;
              ret (map wl_player head)
          end
    end).

Definition setupReminders (now now' : Date) (eventId : string) (interval : Z)
    : M unit :=
  rethrowing "Failed to setup reminders" (
    found <- gets (fun this => JsMap.get eventId (events this)) ;;
    match found with
    | None => throw (ValidationError "Event not found")
    | Some _ =>
        let reminder := mkEventReminder eventId now (now' + interval * day_ms) interval in
        modify (with_reminders (JsMap.set eventId reminder))
    end).

Definition sendReminders (now : Date) : M (list Event) :=
  wrapping "Failed to send reminders" (
    snapshot <- gets (fun this => JsMap.entries (reminders this)) ;;
    forOf snapshot (fun eventsToRemind '(eventId, reminder) =>
      if dateLe (nextSendAt reminder) now then
        found <- gets (fun this => JsMap.get eventId (events this)) ;;
        match found with
        | Some event =>
            modify (with_reminders (JsMap.set eventId
              (mkEventReminder (rem_eventId reminder) now
                 (now + reminderInterval reminder * day_ms)
                 (reminderInterval reminder)))) ;;;
            ret (eventsToRemind ++ [event])%list
        | None => ret eventsToRemind
        end
      else ret eventsToRemind) []).

(* --------------------------------------------------------------------- *)
(** *** Cleanup *)

(** [x || d] on an optional number: [undefined] and [0] are falsy. *)
Definition or_default (x : option Z) (d : Z) : Z :=
  match x with
  | Some v => if v =? 0 then d else v
  | None => d
  end.

Definition flag (x : option bool) : bool :=
  match x with Some b => b | None => false end.

(** [event.archived = true] *)
Definition archive (event : Event) : Event :=
  mkEvent (event_id event) (event_name event) (event_description event)
          (event_date event) (event_location event) (maxPlayers event) (Some true).

(** The body of the loop over the events: one event, with the two
    counters so far. *)
Definition cleanupEvent (options : CleanupOptions) (cutoffDate : Date)
    (counts : Z * Z) (item : string * Event) : M (Z * Z) :=
  let '(eventsCleaned, rsvpsCleaned) := counts in
  let '(eventId, event) := item in
  if dateLt (event_date event) cutoffDate then
    eventsCleaned' <-
      (if flag (co_archive options)
       then modify (with_events (JsMap.set eventId (archive event))) ;;;
            ret eventsCleaned
       else modify (with_events (JsMap.delete eventId)) ;;;
            ret (eventsCleaned + 1)) ;;
    if flag (co_includeRSVPs options) then
      entries <- gets (fun this => JsMap.entries (rsvpEntries this)) ;;
      rsvpsCleaned' <-
        forOf entries (fun cleaned '(key, entry) =>
          if String.eqb (e_eventId entry) eventId
          then modify (with_rsvpEntries (JsMap.delete key)) ;;; ret (cleaned + 1)
          else ret cleaned) rsvpsCleaned ;;
      ret (eventsCleaned', rsvpsCleaned')
    else ret (eventsCleaned', rsvpsCleaned)
  else ret (eventsCleaned, rsvpsCleaned).

Definition cleanupData (now : Date) (options : CleanupOptions) : M (Z * Z) :=
  wrapping "Failed to cleanup data" (
    let maxAge := or_default (co_maxAge options) 30 in
    let cutoffDate := now - maxAge * day_ms in
    snapshot <- gets (fun this => JsMap.entries (events this)) ;;
    forOf snapshot (cleanupEvent options cutoffDate) (0, 0)).

(* ===================================================================== *)
(** ** JavaScript values and JSON ([JSON.stringify], [JSON.parse]) *)
(* ===================================================================== *)

Module Js.

(** The run-time values that occur in the stored collections. *)
#[warnings="-register-all"]
Inductive value :=
| Undefined
| Null
| Bool (b : bool)
| Num (n : Z)
| Str (s : string)
| DateObj (time : Z)
| Arr (items : list value)
| Obj (props : list (string * value)).

(** The contents of a JSON text. *)
#[warnings="-register-all"]
Inductive json :=
| JNull
| JBool (b : bool)
| JNum (n : Z)
| JStr (s : string)
| JArr (items : list json)
| JObj (props : list (string * json)).

Fixpoint digits (width : nat) (n : Z) : string :=
  match width with
  | O => ""
  | S w => digits w (n / 10) ++ String (ascii_of_nat (48 + Z.to_nat (n mod 10))) ""
  end.

(** Year, month and day of the proleptic Gregorian calendar for a day
    number counted from 1970-01-01. *)
Definition civil_from_days (z : Z) : Z * Z * Z :=
  let z := z + 719468 in
  let era := z / 146097 in
  let doe := z - era * 146097 in
  let yoe := (doe - doe / 1460 + doe / 36524 - doe / 146096) / 365 in
  let doy := doe - (365 * yoe + yoe / 4 - yoe / 100) in
  let mp := (5 * doy + 2) / 153 in
  let d := doy - (153 * mp + 2) / 5 + 1 in
  let m := if mp <? 10 then mp + 3 else mp - 9 in
  let y := yoe + era * 400 + (if m <=? 2 then 1 else 0) in
  (y, m, d).

(** [Date.prototype.toISOString] *)
Definition toISOString (time : Z) : string :=
  let '(y, m, d) := civil_from_days (time / 86400000) in
  let r := time mod 86400000 in
  let year :=
    if (0 <=? y) && (y <=? 9999) then digits 4 y
    else if y <? 0 then "-" ++ digits 6 (- y)
    else "+" ++ digits 6 y in
  year ++ "-" ++ digits 2 m ++ "-" ++ digits 2 d ++ "T" ++
  digits 2 (r / 3600000) ++ ":" ++ digits 2 (r / 60000 mod 60) ++ ":" ++
  digits 2 (r / 1000 mod 60) ++ "." ++ digits 3 (r mod 1000) ++ "Z".

(** A [Date] holds a time value of at most 8.64e15 ms in magnitude. *)
Definition validTime (time : Z) : bool :=
  (-8640000000000000 <=? time) && (time <=? 8640000000000000).

(** What [JSON.stringify] writes for a value; [None] where it writes
    nothing ([undefined]). A [Date] is written through its [toJSON], the ISO
    string; an [undefined] property is left out and an [undefined] array
    item becomes [null]. *)
Fixpoint stringify (v : value) : option json :=
  match v with
  | Undefined => None
  | Null => Some JNull
  | Bool b => Some (JBool b)
  | Num n => Some (JNum n)
  | Str s => Some (JStr s)
  | DateObj time => Some (if validTime time then JStr (toISOString time) else JNull)
  | Arr items =>
      Some (JArr (map (fun item =>
                         match stringify item with Some j => j | None => JNull end)
                      items))
  | Obj props =>
      Some (JObj ((fix go (ps : list (string * value)) : list (string * json) :=
                     match ps with
                     | [] => []
                     | (k, x) :: ps' =>
                         match stringify x with
                         | Some j => (k, j) :: go ps'
                         | None => go ps'
                         end
                     end) props))
  end.

(** What [JSON.parse] (called without a reviver) builds from a JSON text. *)
Fixpoint parse (j : json) : value :=
  match j with
  | JNull => Null
  | JBool b => Bool b
  | JNum n => Num n
  | JStr s => Str s
  | JArr items => Arr (map parse items)
  | JObj props => Obj (map (fun kv => (fst kv, parse (snd kv))) props)
  end.

(** The JSON written for a value that sits in an array. *)
Definition toJSON (v : value) : json :=
  match stringify v with Some j => j | None => JNull end.

(** What a value has become after [JSON.parse(JSON.stringify(v))]. *)
Definition reparsed (v : value) : value := parse (toJSON v).

(** Property read [o.k]. *)
Definition prop (k : string) (v : value) : value :=
  match v with
  | Obj props => match JsMap.get k props with Some x => x | None => Undefined end
  | _ => Undefined
  end.

End Js.

(* ===================================================================== *)
(** ** The persistence gateway ([utils/storage.ts]) *)
(* ===================================================================== *)

Module FileStorage.

Import Js.

(** *** Run-time representation of the typed records *)

Definition optional {T} (k : string) (f : T -> value) (o : option T)
    : list (string * value) :=
  match o with Some x => [(k, f x)] | None => [] end.

Definition ofPlayer (p : Player) : value :=
  Obj [("id", Str (player_id p)); ("name", Str (player_name p));
       ("email", Str (player_email p))].

Definition ofEvent (e : Event) : value :=
  Obj ([("id", Str (event_id e)); ("name", Str (event_name e));
        ("description", Str (event_description e));
        ("date", DateObj (event_date e));
        ("location", Str (event_location e));
        ("maxPlayers", Num (maxPlayers e))]
       ++ optional "archived" Bool (archived e))%list.

Definition ofRsvpEntry (e : RsvpEntry) : value :=
  Obj ([("eventId", Str (e_eventId e)); ("player", ofPlayer (e_player e));
        ("status", Str (e_status e)); ("updatedAt", DateObj (e_updatedAt e));
        ("notes", match e_notes e with Some s => Str s | None => Undefined end)]).

Definition ofWaitlistEntry (w : WaitlistEntry) : value :=
  Obj ([("eventId", Str (wl_eventId w)); ("player", ofPlayer (wl_player w));
        ("joinedAt", DateObj (joinedAt w))]
       ++ optional "notifiedAt" DateObj (notifiedAt w))%list.

Definition ofEventReminder (r : EventReminder) : value :=
  Obj [("eventId", Str (rem_eventId r)); ("lastSentAt", DateObj (lastSentAt r));
       ("nextSendAt", DateObj (nextSendAt r));
       ("reminderInterval", Num (reminderInterval r))].

Definition mapValues {V W} (f : V -> W) (m : JsMap.t V) : JsMap.t W :=
  map (fun kv => (fst kv, f (snd kv))) m.

(** The four collections as the values a caller can inspect. *)
Record Collections := mkCollections {
  c_rsvpEntries : JsMap.t value;
  c_events : JsMap.t value;
  c_waitlist : JsMap.t value;
  c_reminders : JsMap.t value
}.

Definition ofStorageData (data : StorageData) : Collections :=
  mkCollections
    (mapValues ofRsvpEntry (sd_rsvpEntries data))
    (mapValues ofEvent (sd_events data))
    (mapValues (fun q => Arr (map ofWaitlistEntry q)) (sd_waitlist data))
    (mapValues ofEventReminder (sd_reminders data)).

(** *** The gateway *)

Inductive StorageError := mkStorageError (message : string).

(** The data file: absent, or holding a JSON text. *)
Definition File := option json.

(** [Array.from(map.entries())] *)
Definition arrayFromEntries (m : JsMap.t value) : value :=
  Arr (map (fun kv => Arr [Str (fst kv); snd kv]) m).

Definition save (data : StorageData) (file : File) : (StorageError + unit) * File :=
  let data := ofStorageData data in
  let serializedData :=
    Obj [("rsvpEntries", arrayFromEntries (c_rsvpEntries data));
         ("events", arrayFromEntries (c_events data));
         ("waitlist", arrayFromEntries (c_waitlist data));
         ("reminders", arrayFromEntries (c_reminders data))] in
  match stringify serializedData with
  | Some text => (inr tt, Some text)
  | None => (inl (mkStorageError "Failed to save data"), file)
  end.

(** [new Map(iterable)] on a parsed value: a list of [[key, value]] pairs
    with string keys, or [undefined]; [None] where the constructor throws.
    The maps of the model have string keys, as the four collections have:
    an entry with another kind of key, which [save] never writes, is
    turned down here although [new Map] would take it. *)
Definition newMap (v : value) : option (JsMap.t value) :=
  match v with
  | Undefined | Null => Some JsMap.empty
  | Arr items =>
      fold_left (fun acc item =>
                   match acc, item with
                   | Some m, Arr (Str k :: x :: _) => Some (JsMap.set k x m)
                   | Some m, Arr [Str k] => Some (JsMap.set k Undefined m)
                   | _, _ => None
                   end) items (Some JsMap.empty)
  | _ => None
  end.

Definition load (file : File) : StorageError + Collections :=
  match file with
  | None => inr (mkCollections JsMap.empty JsMap.empty JsMap.empty JsMap.empty)
  | Some text =>
      match parse text with
      | Null =>
          (* reading a property of [null] throws *)
          inl (mkStorageError "Failed to load data")
      | parsedData =>
          match newMap (prop "rsvpEntries" parsedData),
                newMap (prop "events" parsedData),
                newMap (prop "waitlist" parsedData),
                newMap (prop "reminders" parsedData) with
          | Some r, Some e, Some w, Some m => inr (mkCollections r e w m)
          | _, _, _, _ => inl (mkStorageError "Failed to load data")
          end
      end
  end.

(** [save] followed by [load] on the file it wrote. *)
Definition save_then_load (data : StorageData) : StorageError + Collections :=
  load (snd (save data None)).

End FileStorage.

(* ===================================================================== *)
(** ** Histories of public operations *)
(* ===================================================================== *)

(** The state-changing public operations, each with the clock readings it
    makes. The queries ([getEvent], [listEvents], [getEventRsvps],
    [getRsvpStats], [getConfirmedAttendees], [getEventStats],
    [searchRsvps]) leave the state as it is. *)
Inductive Op :=
| CreateEvent (now : Date) (event : Event)
| UpdateEvent (now : Date) (eventId : string) (update : EventUpdate)
| DeleteEvent (eventId : string)
| UpdateRsvp (now : Date) (eventId : string) (player : Player)
             (status : RsvpStatus) (notes : option string)
| BatchUpdateRsvps (clock : nat -> Date) (updates : list BatchRsvpUpdate)
| CancelRsvp (eventId playerId : string)
| UpdatePlayer (playerId : string) (update : PlayerUpdate)
| RemovePlayer (playerId : string)
| AddToWaitlist (now : Date) (eventId : string) (player : Player)
| NotifyWaitlist (clock : nat -> Date) (eventId : string)
| SetupReminders (now now' : Date) (eventId : string) (interval : Z)
| SendReminders (now : Date)
| CleanupData (now : Date) (options : CleanupOptions).

(** The state in which a call leaves the service, whether it returns or
    throws. *)
Definition perform (op : Op) (this : RsvpService) : RsvpService :=
  match op with
  | CreateEvent now event => snd (createEvent now event this)
  | UpdateEvent now eventId update => snd (updateEvent now eventId update this)
  | DeleteEvent eventId => snd (deleteEvent eventId this)
  | UpdateRsvp now eventId player status notes =>
      snd (updateRsvp now eventId player status notes this)
  | BatchUpdateRsvps clock updates => snd (batchUpdateRsvps clock updates this)
  | CancelRsvp eventId playerId => snd (cancelRsvp eventId playerId this)
  | UpdatePlayer playerId update => snd (updatePlayer playerId update this)
  | RemovePlayer playerId => snd (removePlayer playerId this)
  | AddToWaitlist now eventId player => snd (addToWaitlist now eventId player this)
  | NotifyWaitlist clock eventId => snd (notifyWaitlist clock eventId this)
  | SetupReminders now now' eventId interval =>
      snd (setupReminders now now' eventId interval this)
  | SendReminders now => snd (sendReminders now this)
  | CleanupData now options => snd (cleanupData now options this)
  end.

Definition run (ops : list Op) (this : RsvpService) : RsvpService :=
  fold_left (fun s op => perform op s) ops this.

(** Number of entries with [eventId = id] and [status = 'Yes']. *)
Definition yesCount (id : string) (this : RsvpService) : Z :=
  count_where (fun entry => String.eqb (e_eventId entry) id && isYes entry)
              (JsMap.values (rsvpEntries this)).

(** Number of entries with [status = 'Yes'], over all events. *)
Definition yesTotal (this : RsvpService) : Z :=
  count_where isYes (JsMap.values (rsvpEntries this)).

(** States reachable from the empty store by public operations that all
    satisfy [allowed] in the state they are called in. *)
Inductive reachable (allowed : RsvpService -> Op -> Prop) : RsvpService -> Prop :=
| reachable_new : reachable allowed newService
| reachable_step this op :
    reachable allowed this -> allowed this op ->
    reachable allowed (perform op this).

Definition anyOp (this : RsvpService) (op : Op) : Prop := True.

(** The call does not store, under an event id, a [maxPlayers] below the
    number of 'Yes' entries already recorded for that id. *)
Definition keepsCapacity (this : RsvpService) (op : Op) : Prop :=
  match op with
  | CreateEvent _ event => yesCount (event_id event) this <= maxPlayers event
  | UpdateEvent _ eventId update =>
      match eu_maxPlayers update with
      | Some m => yesCount eventId this <= m
      | None => True
      end
  | _ => True
  end.

(** The capacity invariant: no stored event has more 'Yes' entries than
    [maxPlayers]. *)
Definition withinCapacity (this : RsvpService) : Prop :=
  forall key event,
    In (key, event) (JsMap.entries (events this)) ->
    yesCount (event_id event) this <= maxPlayers event.

(** Both maps are proper [Map]s and every event is stored under its own
    id, as [createEvent] and [updateEvent] leave them. *)
Definition wellKeyed (this : RsvpService) : Prop :=
  JsMap.wf (events this) /\
  JsMap.wf (rsvpEntries this) /\
  forall key event, In (key, event) (JsMap.entries (events this)) ->
                    event_id event = key.

(** [after] has lost entries or events of [before], or had events archived,
    and nothing else: no count of entries has grown, and every event left
    has the id and [maxPlayers] of an event stored under the same key
    before. *)
Definition shrinks (before after : RsvpService) : Prop :=
  (forall q, count_where q (JsMap.values (rsvpEntries after)) <=
             count_where q (JsMap.values (rsvpEntries before))) /\
  (JsMap.wf (rsvpEntries before) -> JsMap.wf (rsvpEntries after)) /\
  (JsMap.wf (events before) -> JsMap.wf (events after)) /\
  (forall key event',
     In (key, event') (JsMap.entries (events after)) ->
     exists event,
       In (key, event) (JsMap.entries (events before)) /\
       event_id event' = event_id event /\
       maxPlayers event' = maxPlayers event).

(** [searchRsvps({})] *)
Definition noOptions : SearchOptions := mkSearchOptions None None None None.

(** Keys of the entries of [snapshot] that satisfy [p]: the keys a
    deleting loop over [snapshot] removes. *)
Definition doomed {V} (p : V -> bool) (snapshot : JsMap.t V) : list string :=
  JsMap.keys (filter (fun kv => p (snd kv)) snapshot).

Definition without {V} (ks : list string) (m : JsMap.t V) : JsMap.t V :=
  filter (fun kv => negb (existsb (String.eqb (fst kv)) ks)) m.

(** The entry rewritten by a loop that replaces the value of every entry
    satisfying [p] by its image under [g]. *)
Definition rewritten {V} (p : V -> bool) (g : V -> V) (kv : string * V)
    : string * V :=
  if p (snd kv) then (fst kv, g (snd kv)) else kv.

(** The four conditions [searchRsvps] applies, as one predicate on an
    entry; a condition that the method skips is [true]. *)
Definition keeps (options : SearchOptions) (this : RsvpService)
    (entry : RsvpEntry) : bool :=
  match so_eventId options with
  | Some id => if Str.truthy id then String.eqb (e_eventId entry) id else true
  | None => true
  end &&
  match so_playerName options with
  | Some name =>
      if Str.truthy name
      then Str.includes (Str.toLowerCase (player_name (e_player entry)))
                        (Str.toLowerCase name)
      else true
  | None => true
  end &&
  match so_status options with
  | Some st => if Str.truthy st then String.eqb (e_status entry) st else true
  | None => true
  end &&
  match so_startDate options with
  | Some startDate =>
      match (match so_eventId options with
             | Some id => JsMap.get id (events this)
             | None => None
             end) with
      | Some event => startDate <=? event_date event
      | None => true
      end
  | None => true
  end.

(* ===================================================================== *)
(** ** Sample data for concrete runs *)
(* ===================================================================== *)

Module Sample.

Definition ann : Player := mkPlayer "a" "Ann" "ann@example.com".
Definition bob : Player := mkPlayer "b" "Bob" "bob@example.com".
Definition cy : Player := mkPlayer "c" "Cy" "cy@example.com".

(** A player object without an id. *)
Definition anonymous : Player := mkPlayer "" "Nobody" "nobody@example.com".

(** An event for two players, dated one day after time 1000. *)
Definition game : Event :=
  mkEvent "1" "Game" "Five-a-side" (1000 + day_ms) "Park" 2 None.

(** An event for one player. *)
Definition duel : Event :=
  mkEvent "1" "Duel" "One on one" (1000 + day_ms) "Yard" 1 None.

(** The store after [createEvent(duel)] and a 'Yes' from Ann: full. *)
Definition fullDuel : RsvpService :=
  run [CreateEvent 1000 duel; UpdateRsvp 1001 "1" ann "Yes" None] newService.

(** [updateEvent("1", {maxPlayers: 1})] *)
Definition shrinkToOne : EventUpdate := mkEventUpdate None None None None (Some 1).

(** The store after [createEvent(game)] and a 'Yes' from Ann and Bob. *)
Definition fullGame : RsvpService :=
  run [CreateEvent 1000 game;
       UpdateRsvp 1001 "1" ann "Yes" None;
       UpdateRsvp 1002 "1" bob "Yes" None] newService.

(** [fullGame] after its event was cut down to one player. *)
Definition overbooked : RsvpService :=
  run [UpdateEvent 1003 "1" shrinkToOne] fullGame.

(** A snapshot holding the one event [game]. *)
Definition oneEvent : StorageData := mkStorageData [] [("1", game)] [] [].

(** [cleanupData({maxAge: 0, archive: true})] *)
Definition archiveAll : CleanupOptions := mkCleanupOptions (Some 0) (Some true) None.

(** A time one day after the date of [game]. *)
Definition dayAfterGame : Date := event_date game + day_ms.

End Sample.

(* ===================================================================== *)
(** ** The second validator ([utils/validator.ts]) *)
(* ===================================================================== *)

(** The module [utils/validator.ts] declares a [ValidationError] and an
    [RsvpValidator] of its own; the service does not import them. The
    [instanceof Date] tests hold by typing. *)
Module Validator.

Inductive ValidationError := mkValidationError (message : string).

Definition validateRsvp (entry : RsvpEntry) : ValidationError + unit :=
  if negb (Str.truthy (player_id (e_player entry))) ||
     negb (Str.truthy (player_name (e_player entry))) then
    inl (mkValidationError "Invalid player data")
  else if negb (Str.truthy (e_status entry)) ||
          negb (existsb (String.eqb (e_status entry)) ["yes"; "no"; "maybe"]) then
    inl (mkValidationError "Invalid RSVP status")
  else if negb (Str.truthy (e_eventId entry)) then
    inl (mkValidationError "Event ID is required")
  else inr tt.

Definition validateEvent (event : Event) : ValidationError + unit :=
  if negb (Str.truthy (event_id event)) then
    inl (mkValidationError "Event ID is required")
  else if negb (Str.truthy (event_name event)) then
    inl (mkValidationError "Event name is required")
  else if negb (Str.truthy (event_location event)) then
    inl (mkValidationError "Event location is required")
  else if maxPlayers event <? 1 then
    inl (mkValidationError "Invalid max players value")
  else inr tt.

End Validator.

(* ===================================================================== *)
(** ** Vocabulary of the further properties *)
(* ===================================================================== *)

(** A run of characters of the class [[^\s@]]. *)
Definition plain (s : string) : Prop :=
  Str.all_chars (fun c => negb (Str.is_space c || Ascii.eqb c "@"%char)) s = true.

(** The language of [/^[^\s@]+@[^\s@]+\.[^\s@]+$/]. *)
Definition matchesEmailPattern (email : string) : Prop :=
  exists a b c,
    email = a ++ "@" ++ b ++ "." ++ c /\
    a <> "" /\ b <> "" /\ c <> "" /\ plain a /\ plain b /\ plain c.

(** Every RSVP entry is stored under the key built from its own event id
    and player id, as [updateRsvp] stores it. *)
Definition entriesKeyed (this : RsvpService) : Prop :=
  forall key entry,
    In (key, entry) (JsMap.entries (rsvpEntries this)) ->
    key = rsvpKey (e_eventId entry) (player_id (e_player entry)).

(** Two events and two players whose composite keys coincide:
    ["a-b" + "-" + "c"] and ["a" + "-" + "b-c"]. *)
Module Clash.

Definition league : Event :=
  mkEvent "a-b" "League" "Season opener" (1000 + day_ms) "Hall" 10 None.
Definition cup : Event :=
  mkEvent "a" "Cup" "First round" (1000 + day_ms) "Hall" 10 None.
Definition carl : Player := mkPlayer "c" "Carl" "carl@example.com".
Definition beck : Player := mkPlayer "b-c" "Beck" "beck@example.com".

(** Both events created, Carl confirmed for the league. *)
Definition carlInLeague : RsvpService :=
  run [CreateEvent 1000 league; CreateEvent 1000 cup;
       UpdateRsvp 1001 "a-b" carl "Yes" None] newService.

End Clash.

(** The event that [sendReminders] collects for a reminder: the event
    stored under the reminder's key, if the reminder is due at [now]. *)
Definition dueEvent (now : Date) (evs : JsMap.t Event)
    (kv : string * EventReminder) : option Event :=
  if dateLe (nextSendAt (snd kv)) now then JsMap.get (fst kv) evs else None.

(** The reminder as [sendReminders] leaves it. *)
Definition advanced (now : Date) (evs : JsMap.t Event)
    (kv : string * EventReminder) : string * EventReminder :=
  match dueEvent now evs kv with
  | Some _ =>
      (fst kv,
       mkEventReminder (rem_eventId (snd kv)) now
         (now + reminderInterval (snd kv) * day_ms) (reminderInterval (snd kv)))
  | None => kv
  end.

Definition collected (now : Date) (evs : JsMap.t Event)
    (kv : string * EventReminder) : list Event :=
  match dueEvent now evs kv with Some event => [event] | None => [] end.

(** One confirmed player, two players waiting, and a daily reminder. *)
Module Waiting.

Definition store : RsvpService :=
  run [CreateEvent 1000 Sample.game;
       UpdateRsvp 1001 "1" Sample.ann "Yes" None;
       AddToWaitlist 1002 "1" Sample.cy;
       AddToWaitlist 1003 "1" Sample.bob;
       SetupReminders 1004 1004 "1" 1] newService.

(** A time after the first reminder is due. *)
Definition later : Date := 1004 + 2 * day_ms.

End Waiting.

(** The entries that survive the removal of the events stored under
    [removed], when [cleanupData] is told to include the RSVPs. *)
Definition survivors (removed : list string) (m : JsMap.t RsvpEntry)
    : JsMap.t RsvpEntry :=
  filter (fun kv => negb (existsb (String.eqb (e_eventId (snd kv))) removed)) m.

(** The store [Sample.fullGame] with a second event, one day later. *)
Module Archive.

Definition final : Event :=
  mkEvent "2" "Final" "Last game" (1000 + 2 * day_ms) "Park" 4 None.

Definition store : RsvpService :=
  run [CreateEvent 1000 final; UpdateRsvp 1005 "2" Sample.cy "Maybe" None]
      Sample.fullGame.

(** [cleanupData({maxAge: 1, includeRSVPs: true})] *)
Definition purge : CleanupOptions := mkCleanupOptions (Some 1) None (Some true).

(** A little more than a day after [game] and less than a day after
    [final]: with [maxAge] 1 the cutoff lies between the two dates. *)
Definition now : Date := 1500 + 2 * day_ms.

End Archive.

(** Every stored event sits under its own id and passes every check of
    [validateEvent] but the one on the date, which depends on the time of
    the call: the event is valid as of its own date. *)
Definition eventsValid (this : RsvpService) : Prop :=
  forall key event,
    In (key, event) (JsMap.entries (events this)) ->
    event_id event = key /\
    RsvpValidator.validateEvent (event_date event) event = inr tt.

(** Every stored entry is one that [updateRsvp] accepts: it sits under the
    key built from its event id and player id, its player passes
    [validatePlayer] and its status [validateRsvpStatus]. *)
Definition entriesValid (this : RsvpService) : Prop :=
  forall key entry,
    In (key, entry) (JsMap.entries (rsvpEntries this)) ->
    key = rsvpKey (e_eventId entry) (player_id (e_player entry)) /\
    RsvpValidator.validatePlayer (e_player entry) = inr tt /\
    RsvpValidator.validateRsvpStatus (e_status entry) = inr tt.

Definition tidy (this : RsvpService) : Prop :=
  JsMap.wf (events this) /\ JsMap.wf (rsvpEntries this) /\
  eventsValid this /\ entriesValid this.


(** Every stored RSVP entry belongs to a stored event. *)
Definition entriesRefer (this : RsvpService) : Prop :=
  forall entry,
    In entry (JsMap.values (rsvpEntries this)) ->
    JsMap.has (e_eventId entry) (events this) = true.

(** The call is not a [cleanupData] that deletes events and keeps their
    entries: it archives, or it cleans the entries too. *)
Definition cleansEntries (this : RsvpService) (op : Op) : Prop :=
  match op with
  | CleanupData _ options =>
      flag (co_archive options) = true \/ flag (co_includeRSVPs options) = true
  | _ => True
  end.

(** [cleanupData({maxAge: 1})] *)
Definition deleteOld : CleanupOptions := mkCleanupOptions (Some 1) None None.


(** Two players confirmed out of three answers. *)
Definition twoOfThree : RsvpService :=
  run [CreateEvent 1000 Sample.game;
       UpdateRsvp 1001 "1" Sample.ann "Yes" None;
       UpdateRsvp 1002 "1" Sample.bob "Yes" None;
       UpdateRsvp 1003 "1" Sample.cy "No" None] newService.

(** [cleanupData({maxAge: -1000000000})]: the cutoff lies beyond the
    range of [Date]. *)
Definition farAhead : CleanupOptions :=
  mkCleanupOptions (Some (-1000000000)) None None.

(* ===================================================================== *)
(** * Properties *)
(* ===================================================================== *)

(** ** Basic facts about strings, maps and sorting *)

Lemma truthy_false_iff (s : string) : Str.truthy s = false <-> s = "".
Proof. destruct s; simpl; split; congruence. Qed.

Lemma startsWith_iff (needle hay : string) :
  Str.startsWith needle hay = true <-> exists post, hay = needle ++ post.
Proof.
  revert hay; induction needle as [|a n IH]; intros hay; simpl.
  - split; [intros _; now exists hay | trivial].
  - destruct hay as [|b h].
    + split; [discriminate | intros [post H]; discriminate].
    + rewrite andb_true_iff, IH. split.
      * intros [Hab [post ->]]. apply Ascii.eqb_eq in Hab. subst. now exists post.
      * intros [post H]. injection H as -> ->. split; [apply Ascii.eqb_refl | now exists post].
Qed.

Lemma includes_iff (hay needle : string) :
  Str.includes hay needle = true <->
  exists pre post, hay = pre ++ needle ++ post.
Proof.
  induction hay as [|c h IH]; simpl.
  - rewrite orb_false_r, startsWith_iff. split.
    + intros [post H]. now exists "", post.
    + intros [pre [post H]]. destruct pre; simpl in H; [now exists post | discriminate].
  - rewrite orb_true_iff, startsWith_iff, IH. split.
    + intros [[post H] | [pre [post H]]].
      * now exists "", post.
      * exists (String c pre), post. simpl. now rewrite H.
    + intros [pre [post H]]. destruct pre as [|c' pre]; simpl in H.
      * left. now exists post.
      * right. injection H as _ H. now exists pre, post.
Qed.

Section SortByFacts.
Context {A : Type} (key : A -> Z).

Lemma insert_by_perm (x : A) (l : list A) :
  Permutation (insert_by key x l) (x :: l).
Proof.
  induction l as [|y l IH]; simpl; [reflexivity|].
  destruct (key x <=? key y); [reflexivity|].
  rewrite IH. apply perm_swap.
Qed.

Lemma sort_by_perm (l : list A) : Permutation (sort_by key l) l.
Proof.
  induction l as [|x l IH]; simpl; [reflexivity|].
  rewrite insert_by_perm. now constructor.
Qed.

Lemma sort_by_length (l : list A) : List.length (sort_by key l) = List.length l.
Proof. apply Permutation_length, sort_by_perm. Qed.

Lemma sort_by_In (l : list A) (x : A) : In x (sort_by key l) <-> In x l.
Proof.
  split; apply Permutation_in; [|symmetry]; apply sort_by_perm.
Qed.

Lemma insert_by_sorted (x : A) (l : list A) :
  StronglySorted (ascending key) l -> StronglySorted (ascending key) (insert_by key x l).
Proof.
  induction 1 as [|y l Hs IH Hy]; simpl.
  - repeat constructor.
  - destruct (key x <=? key y) eqn:E.
    + apply Z.leb_le in E. constructor; [now constructor|].
      constructor; [exact E|].
      eapply Forall_impl; [|exact Hy]. unfold ascending; simpl; intros; lia.
    + apply Z.leb_gt in E. constructor; [exact IH|].
      eapply Permutation_Forall; [symmetry; apply insert_by_perm|].
      constructor; [unfold ascending; lia | exact Hy].
Qed.

Lemma sort_by_sorted (l : list A) : StronglySorted (ascending key) (sort_by key l).
Proof.
  induction l; simpl; [constructor | now apply insert_by_sorted].
Qed.
End SortByFacts.

Module JsMapFacts.
Import JsMap.

Section Facts.
Context {V : Type}.
Implicit Types (m : t V) (k : string) (v : V).

Lemma get_In k v m : get k m = Some v -> In (k, v) m.
Proof.
  induction m as [|[k' v'] m IH]; simpl; [discriminate|].
  destruct (String.eqb_spec k k') as [->|_].
  - intros [= ->]. now left.
  - intros H. right. now apply IH.
Qed.

Lemma get_None k m : get k m = None <-> ~ In k (keys m).
Proof.
  induction m as [|[k' v'] m IH]; simpl; [tauto|].
  destruct (String.eqb_spec k k') as [->|N].
  - split; [discriminate | intros H; exfalso; apply H; now left].
  - rewrite IH. split; intros H; [intros [E|I]; [congruence | tauto] | tauto].
Qed.

Lemma In_get k v m : wf m -> In (k, v) m -> get k m = Some v.
Proof.
  unfold wf. induction m as [|[k' v'] m IH]; simpl; [tauto|].
  intros Hnd [E|I]; inversion Hnd as [|? ? Hni Hnd']; subst.
  - injection E as -> ->. now rewrite String.eqb_refl.
  - destruct (String.eqb_spec k k') as [->|_].
    + exfalso. apply Hni. change k' with (fst (k', v)). now apply in_map.
    + now apply IH.
Qed.

Lemma get_set_same k v m : get k (set k v m) = Some v.
Proof.
  induction m as [|[k' v'] m IH]; simpl.
  - now rewrite String.eqb_refl.
  - destruct (String.eqb_spec k k') as [->|N]; simpl.
    + now rewrite String.eqb_refl.
    + destruct (String.eqb_spec k k'); [congruence | exact IH].
Qed.

Lemma get_set_other k k' v m : k' <> k -> get k' (set k v m) = get k' m.
Proof.
  intros N. induction m as [|[k2 v2] m IH]; simpl.
  - destruct (String.eqb_spec k' k); [congruence | reflexivity].
  - destruct (String.eqb_spec k k2) as [->|N2]; simpl.
    + destruct (String.eqb_spec k' k2); [congruence | reflexivity].
    + destruct (String.eqb_spec k' k2); [reflexivity | exact IH].
Qed.

Lemma In_set k v k' v' m :
  In (k', v') (set k v m) -> (k' = k /\ v' = v) \/ In (k', v') m.
Proof.
  induction m as [|[k2 v2] m IH]; simpl.
  - intros [[= <- <-]|[]]. now left.
  - destruct (String.eqb_spec k k2) as [->|N]; simpl.
    + intros [[= <- <-]|I]; [now left | right; now right].
    + intros [E|I]; [right; now left|].
      destruct (IH I) as [L|R]; [now left | right; now right].
Qed.

Lemma keys_set_In k v m : In k (keys m) -> keys (set k v m) = keys m.
Proof.
  induction m as [|[k2 v2] m IH]; simpl; [tauto|].
  destruct (String.eqb_spec k k2) as [->|N]; simpl; [reflexivity|].
  intros [E|I]; [congruence | now rewrite IH].
Qed.

Lemma keys_set_fresh k v m : ~ In k (keys m) -> set k v m = (m ++ [(k, v)])%list.
Proof.
  induction m as [|[k2 v2] m IH]; simpl; [reflexivity|].
  destruct (String.eqb_spec k k2) as [->|N]; simpl; [tauto|].
  intros H. rewrite IH; tauto.
Qed.

Lemma wf_set k v m : wf m -> wf (set k v m).
Proof.
  unfold wf. intros H.
  destruct (in_dec string_dec k (keys m)) as [I|N].
  - now rewrite keys_set_In.
  - rewrite keys_set_fresh by exact N. unfold keys. rewrite map_app. simpl.
    apply NoDup_app; [exact H | repeat constructor; simpl; tauto |].
    intros x Hx [<-|[]]. now apply N.
Qed.

Lemma delete_incl k m : incl (delete k m) m.
Proof. intros x Hx. unfold delete in Hx. now apply filter_In in Hx. Qed.

Lemma wf_filter (p : string * V -> bool) m : wf m -> wf (filter p m).
Proof.
  unfold wf, keys. induction m as [|[k v] m IH]; simpl; [trivial|].
  intros H. inversion H as [|? ? Hni Hnd]; subst.
  destruct (p (k, v)); simpl; [|now apply IH].
  constructor; [|now apply IH].
  intros I. apply Hni. apply in_map_iff in I as [[k' v'] [E I]].
  apply filter_In in I as [I _]. apply in_map_iff. now exists (k', v').
Qed.

Lemma wf_delete k m : wf m -> wf (delete k m).
Proof. apply wf_filter. Qed.

Lemma get_delete_same k m : get k (delete k m) = None.
Proof.
  apply get_None. unfold keys, delete. intros I.
  apply in_map_iff in I as [[k' v'] [E I]]. simpl in E. subst k'.
  apply filter_In in I as [_ I]. simpl in I. now rewrite String.eqb_refl in I.
Qed.
End Facts.
End JsMapFacts.

(** ** Running the method bodies *)

Lemma rethrowing_snd {A} (msg : string) (body : M A) (this : RsvpService) :
  snd (rethrowing msg body this) = snd (body this).
Proof.
  unfold rethrowing. destruct (body this) as [[[m|m]|a] s]; reflexivity.
Qed.

Lemma wrapping_snd {A} (msg : string) (body : M A) (this : RsvpService) :
  snd (wrapping msg body this) = snd (body this).
Proof.
  unfold wrapping. destruct (body this) as [[e|a] s]; reflexivity.
Qed.

Lemma validatePlayer_error (p : Player) (e : Error) :
  RsvpValidator.validatePlayer p = inl e -> exists m, e = ValidationError m.
Proof.
  unfold RsvpValidator.validatePlayer.
  repeat match goal with |- context [if ?c then _ else _] => destruct c end;
    intros [= <-]; eauto.
Qed.

Lemma validateRsvpStatus_error (s : RsvpStatus) (e : Error) :
  RsvpValidator.validateRsvpStatus s = inl e -> exists m, e = ValidationError m.
Proof.
  unfold RsvpValidator.validateRsvpStatus.
  destruct (negb _); intros [= <-]; eauto.
Qed.

Lemma validateEvent_error (now : Date) (ev : Event) (e : Error) :
  RsvpValidator.validateEvent now ev = inl e -> exists m, e = ValidationError m.
Proof.
  unfold RsvpValidator.validateEvent.
  repeat match goal with |- context [if ?c then _ else _] => destruct c end;
    intros [= <-]; eauto.
Qed.

Lemma validateRsvpStatus_ok (s : RsvpStatus) :
  RsvpValidator.validateRsvpStatus s = inr tt <->
  s = "Yes" \/ s = "No" \/ s = "Maybe".
Proof.
  unfold RsvpValidator.validateRsvpStatus, RsvpValidator.validStatuses. simpl.
  destruct (String.eqb_spec s "Yes"), (String.eqb_spec s "No"),
    (String.eqb_spec s "Maybe"); simpl; split; intros H;
    try discriminate; try reflexivity; try tauto;
    destruct H as [H|[H|H]]; congruence.
Qed.

Lemma confirmed_length (this : RsvpService) :
  Z.of_nat (List.length (getConfirmedAttendees this)) = yesTotal this.
Proof.
  unfold getConfirmedAttendees, yesTotal, count_where. now rewrite sort_by_length.
Qed.

(** [updateRsvp] as a decision list: the checks in the order the method
    makes them, then the write. *)
Lemma updateRsvp_unfold (now : Date) (id : string) (p : Player)
    (st : RsvpStatus) (nt : option string) (this : RsvpService) :
  updateRsvp now id p st nt this =
  match JsMap.get id (events this) with
  | None => (inl (ValidationError "Event not found"), this)
  | Some event =>
      match RsvpValidator.validatePlayer p with
      | inl e => (inl e, this)
      | inr _ =>
          match RsvpValidator.validateRsvpStatus st with
          | inl e => (inl e, this)
          | inr _ =>
              if String.eqb st "Yes" && (maxPlayers event <=? yesTotal this)
              then (inl (ValidationError "Event is at maximum capacity"), this)
              else (inr (mkRsvpEntry id p st now nt),
                    with_rsvpEntries
                      (JsMap.set (rsvpKey id (player_id p))
                                 (mkRsvpEntry id p st now nt)) this)
          end
      end
  end.
Proof.
  unfold updateRsvp, rethrowing, bind, gets, lift, throw, ret, modify.
  destruct (JsMap.get id (events this)) as [event|]; [|reflexivity].
  destruct (RsvpValidator.validatePlayer p) as [e|[]] eqn:Hp.
  { apply validatePlayer_error in Hp as [m ->]. reflexivity. }
  destruct (RsvpValidator.validateRsvpStatus st) as [e|[]] eqn:Hs.
  { apply validateRsvpStatus_error in Hs as [m ->]. reflexivity. }
  destruct (String.eqb st "Yes"); cbn beta iota; [|reflexivity].
  rewrite confirmed_length.
  destruct (maxPlayers event <=? yesTotal this); reflexivity.
Qed.

Lemma createEvent_unfold (now : Date) (ev : Event) (this : RsvpService) :
  createEvent now ev this =
  match RsvpValidator.validateEvent now ev with
  | inl e => (inl e, this)
  | inr _ => (inr ev, with_events (JsMap.set (event_id ev) ev) this)
  end.
Proof.
  unfold createEvent, rethrowing, bind, gets, lift, throw, ret, modify.
  destruct (RsvpValidator.validateEvent now ev) as [e|[]] eqn:Hv.
  { apply validateEvent_error in Hv as [m ->]. reflexivity. }
  assert ((maxPlayers ev <=? 0) = false) as ->; [|reflexivity].
  unfold RsvpValidator.validateEvent in Hv.
  repeat match type of Hv with
         | (if ?c then _ else _) = _ => destruct c eqn:?; try discriminate
         end.
  lia.
Qed.

(** ** Statistics *)

Lemma count_where_nonneg (p : RsvpEntry -> bool) (l : list RsvpEntry) :
  0 <= count_where p l.
Proof. unfold count_where. lia. Qed.

Lemma count_where_le (p : RsvpEntry -> bool) (l : list RsvpEntry) :
  count_where p l <= Z.of_nat (List.length l).
Proof. unfold count_where. pose proof (filter_length_le p l). lia. Qed.

Lemma count_by_status (l : list RsvpEntry) :
  count_where (fun entry => String.eqb (e_status entry) "Yes") l +
  count_where (fun entry => String.eqb (e_status entry) "No") l +
  count_where (fun entry => String.eqb (e_status entry) "Maybe") l
  <= Z.of_nat (List.length l).
Proof.
  unfold count_where. induction l as [|e l IH]; cbn [filter List.length]; [lia|].
  destruct (String.eqb_spec (e_status e) "Yes") as [Hy|_];
    destruct (String.eqb_spec (e_status e) "No") as [Hn|_];
    destruct (String.eqb_spec (e_status e) "Maybe") as [Hm|_];
    try congruence; cbn [List.length]; lia.
Qed.

Module Float64Facts.
Import Float64.


Lemma two_pos (e : Z) : (0 < 2 ^ e)%Q.
Proof. apply Qpower_0_lt. reflexivity. Qed.

Lemma pow2_le (a b : Z) : a <= b -> (2 ^ a <= 2 ^ b)%Q.
Proof. intros H. apply Qpower_le_compat_l; [exact H | discriminate]. Qed.

Lemma pow2_lt_inv (a b : Z) : (2 ^ a < 2 ^ b)%Q -> a < b.
Proof. intros H. apply (Qpower_lt_compat_l_inv 2); [exact H | reflexivity]. Qed.

Lemma pow2_Z (n : Z) : 0 <= n -> (inject_Z (2 ^ n) == 2 ^ n)%Q.
Proof. intros H. now rewrite Zpower_Qpower. Qed.

Lemma pow2_split (a b : Z) : (2 ^ (a + b) == 2 ^ a * 2 ^ b)%Q.
Proof. apply Qpower_plus. discriminate. Qed.

Lemma frac_lt (n : Z) (d : positive) (X Y : Z) :
  0 < Y -> n * Y < X * Zpos d -> (n # d < inject_Z X / inject_Z Y)%Q.
Proof.
  intros HY H. apply Qlt_shift_div_l.
  { change 0%Q with (inject_Z 0). now rewrite <- Zlt_Qlt. }
  unfold Qlt, Qmult, inject_Z. cbn [Qnum Qden]. rewrite Pos.mul_1_r. lia.
Qed.

Lemma frac_ge (n : Z) (d : positive) (X Y : Z) :
  0 < Y -> X * Zpos d <= n * Y -> (inject_Z X / inject_Z Y <= n # d)%Q.
Proof.
  intros HY H. apply Qle_shift_div_r.
  { change 0%Q with (inject_Z 0). now rewrite <- Zlt_Qlt. }
  unfold Qle, Qmult, inject_Z. cbn [Qnum Qden]. rewrite Pos.mul_1_r. lia.
Qed.

Lemma mag_spec (x : Q) :
  (0 < x)%Q -> (2 ^ mag x <= x)%Q /\ (x < 2 ^ (mag x + 1))%Q.
Proof.
  intros Hx. destruct x as [n d]. unfold mag. cbn [Qnum Qden].
  assert (Hn : 0 < n) by (unfold Qlt in Hx; cbn in Hx; lia).
  destruct (Z.log2_spec n Hn) as [Ha1 Ha2].
  destruct (Z.log2_spec (Zpos d) (Pos2Z.is_pos d)) as [Hb1 Hb2].
  set (a := Z.log2 n) in *. set (b := Z.log2 (Zpos d)) in *.
  assert (Ha0 : 0 <= a) by apply Z.log2_nonneg.
  assert (Hb0 : 0 <= b) by apply Z.log2_nonneg.
  replace (Z.succ a) with (a + 1) in Ha2 by lia.
  replace (Z.succ b) with (b + 1) in Hb2 by lia.
  assert (Pa : 0 < 2 ^ a) by (apply Z.pow_pos_nonneg; lia).
  assert (Pb : 0 < 2 ^ b) by (apply Z.pow_pos_nonneg; lia).
  assert (Pb1 : 0 < 2 ^ (b + 1)) by (apply Z.pow_pos_nonneg; lia).
  assert (Hup : (n # d < 2 ^ (a - b + 1))%Q).
  { replace (a - b + 1) with ((a + 1) - b) by ring.
    rewrite Qpower_minus by discriminate.
    rewrite <- !pow2_Z by lia.
    apply frac_lt; [exact Pb|]. nia. }
  assert (Hlow : (2 ^ (a - b - 1) <= n # d)%Q).
  { replace (a - b - 1) with (a - (b + 1)) by ring.
    rewrite Qpower_minus by discriminate.
    rewrite <- !pow2_Z by lia.
    apply frac_ge; [exact Pb1|]. nia. }
  destruct (Qle_bool (2 ^ (a - b)) (n # d)) eqn:Ht.
  - apply Qle_bool_iff in Ht. now split.
  - split; [exact Hlow|].
    replace (a - b - 1 + 1) with (a - b) by ring.
    apply Qnot_le_lt. intros H. apply Qle_bool_iff in H. congruence.
Qed.

Lemma mag_le (x y : Q) : (0 < x)%Q -> (x <= y)%Q -> mag x <= mag y.
Proof.
  intros Hx Hxy.
  assert (Hy : (0 < y)%Q) by lra.
  destruct (mag_spec x Hx) as [H1 _]. destruct (mag_spec y Hy) as [_ H2].
  assert (H : (2 ^ mag x < 2 ^ (mag y + 1))%Q) by lra.
  apply pow2_lt_inv in H. lia.
Qed.

Lemma nearest_even_le (q : Q) (n : Z) : (q <= inject_Z n)%Q -> nearest_even q <= n.
Proof.
  intros H. unfold nearest_even.
  pose proof (Qfloor_le q) as Hf.
  assert (Hfn : Qfloor q <= n).
  { rewrite Zle_Qle. lra. }
  assert (Hstep : (0 < q - inject_Z (Qfloor q))%Q -> Qfloor q + 1 <= n).
  { intros Hpos. assert (Hlt : (inject_Z (Qfloor q) < inject_Z n)%Q) by lra.
    rewrite <- Zlt_Qlt in Hlt. lia. }
  destruct (Qcompare_spec (q - inject_Z (Qfloor q)) (1 # 2)) as [He|Hl|Hg].
  - destruct (Z.even (Qfloor q)); [exact Hfn|]. apply Hstep. lra.
  - exact Hfn.
  - apply Hstep. lra.
Qed.

Lemma nearest_even_nonneg (q : Q) : (0 <= q)%Q -> 0 <= nearest_even q.
Proof.
  intros H. unfold nearest_even.
  assert (Hf : 0 <= Qfloor q).
  { change 0 with (Qfloor 0). now apply Qfloor_resp_le. }
  destruct (_ ?= _)%Q; [destruct (Z.even _)| |]; lia.
Qed.

Lemma round_comp (x y : Q) : (x == y)%Q -> round x = round y.
Proof. intros H. unfold round. now rewrite (Qred_complete x y H). Qed.

Lemma round_nonneg (x : Q) : (0 <= x)%Q -> (0 <= round x)%Q.
Proof.
  intros H. unfold round.
  destruct (Qeq_bool (Qred x) 0); [lra|].
  apply Qmult_le_0_compat; [|apply Qlt_le_weak, two_pos].
  change 0%Q with (inject_Z 0). rewrite <- Zle_Qle.
  apply nearest_even_nonneg. apply Qle_shift_div_l; [apply two_pos|].
  pose proof (Qred_correct x). lra.
Qed.

Lemma ulp_exp_le (x y : Q) : (0 < x)%Q -> (x <= y)%Q -> ulp_exp x <= ulp_exp y.
Proof.
  intros Hx Hxy. unfold ulp_exp.
  pose proof (Qabs_pos x) as Ax. pose proof (Qabs_pos y) as Ay.
  assert (H : mag (Qabs x) <= mag (Qabs y)) by (apply mag_le; lra).
  lia.
Qed.

Lemma ulp_exp_comp (x y : Q) : (x == y)%Q -> (0 < x)%Q -> ulp_exp x = ulp_exp y.
Proof.
  intros H Hx. apply Z.le_antisymm; apply ulp_exp_le; lra.
Qed.

(** Rounding never crosses a double: what lies at or below a double [b]
    rounds to at most [b]. *)
Lemma round_le (x b : Q) :
  (0 <= x)%Q -> (x <= b)%Q -> representable b -> (round x <= b)%Q.
Proof.
  intros H0 Hxb [k Hk]. unfold round.
  destruct (Qeq_bool (Qred x) 0) eqn:Hz; [lra|].
  apply Qeq_bool_neq in Hz. pose proof (Qred_correct x) as Hred.
  assert (Hr : (0 < Qred x)%Q).
  { destruct (Qlt_le_dec 0 (Qred x)); [assumption|]. exfalso. apply Hz. lra. }
  assert (Hle : (Qred x <= b)%Q) by lra.
  pose proof (ulp_exp_le _ _ Hr Hle) as Hg.
  set (g := ulp_exp (Qred x)) in *. set (gb := ulp_exp b) in *.
  assert (Hb : (b == inject_Z (k * 2 ^ (gb - g)) * 2 ^ g)%Q).
  { rewrite Hk. rewrite inject_Z_mult, pow2_Z by lia.
    rewrite <- Qmult_assoc, <- pow2_split.
    replace (gb - g + g) with gb by ring. reflexivity. }
  assert (Hn : nearest_even (Qred x / 2 ^ g) <= k * 2 ^ (gb - g)).
  { apply nearest_even_le. apply Qle_shift_div_r; [apply two_pos|].
    rewrite <- Hb. exact Hle. }
  rewrite Hb. apply Qmult_le_compat_r; [|apply Qlt_le_weak, two_pos].
  now rewrite <- Zle_Qle.
Qed.

Lemma representable_1 : representable 1.
Proof. exists (2 ^ 52). vm_compute. reflexivity. Qed.

Lemma representable_100 : representable 100.
Proof. exists (100 * 2 ^ 46). vm_compute. reflexivity. Qed.

Lemma rate_in_range (c t : Z) :
  0 <= c <= t -> 0 < t ->
  (0 <= mul (div (inject_Z c) (inject_Z t)) 100)%Q /\
  (mul (div (inject_Z c) (inject_Z t)) 100 <= 100)%Q.
Proof.
  intros Hc Ht.
  assert (Hq : (0 < inject_Z t)%Q) by (change 0%Q with (inject_Z 0); rewrite <- Zlt_Qlt; lia).
  assert (Hx0 : (0 <= inject_Z c / inject_Z t)%Q).
  { apply Qle_shift_div_l; [exact Hq|]. rewrite Qmult_0_l.
    change 0%Q with (inject_Z 0). rewrite <- Zle_Qle. lia. }
  assert (Hx1 : (inject_Z c / inject_Z t <= 1)%Q).
  { apply Qle_shift_div_r; [exact Hq|]. rewrite Qmult_1_l. rewrite <- Zle_Qle. lia. }
  pose proof (round_nonneg _ Hx0) as A0.
  pose proof (round_le _ 1 Hx0 Hx1 representable_1) as A1.
  unfold mul, div. split.
  - apply round_nonneg. nra.
  - apply round_le; [nra | nra | apply representable_100].
Qed.

Lemma rate_full (t : Z) :
  0 < t -> mul (div (inject_Z t) (inject_Z t)) 100 = round 100.
Proof.
  intros Ht. unfold mul, div.
  assert (H1 : round (inject_Z t / inject_Z t) = round 1).
  { apply round_comp. field. intros H. 
    assert (inject_Z t == inject_Z 0)%Q by exact H. rewrite inject_Z_injective in H0. lia. }
  rewrite H1. apply round_comp. vm_compute. reflexivity.
Qed.


Lemma nearest_even_close (q : Q) :
  (- (1 # 2) <= inject_Z (nearest_even q) - q)%Q /\
  (inject_Z (nearest_even q) - q <= 1 # 2)%Q.
Proof.
  unfold nearest_even.
  pose proof (Qfloor_le q) as Hf. pose proof (Qlt_floor q) as Hc.
  rewrite inject_Z_plus in Hc. change (inject_Z 1) with 1%Q in Hc.
  destruct (Qcompare_spec (q - inject_Z (Qfloor q)) (1 # 2)) as [He|Hl|Hg].
  - destruct (Z.even (Qfloor q)); rewrite ?inject_Z_plus;
      change (inject_Z 1) with 1%Q; split; lra.
  - split; lra.
  - rewrite inject_Z_plus. change (inject_Z 1) with 1%Q. split; lra.
Qed.

(** Rounding moves a number by at most half a unit in the last place. *)
Lemma round_close (x b : Q) (e : Z) :
  (0 <= x)%Q -> (x <= b)%Q -> ulp_exp b <= e ->
  (- (2 ^ e * (1 # 2)) <= round x - x)%Q /\ (round x - x <= 2 ^ e * (1 # 2))%Q.
Proof.
  intros H0 Hxb He. pose proof (two_pos e) as He0. unfold round.
  pose proof (Qred_correct x) as Hred.
  destruct (Qeq_bool (Qred x) 0) eqn:Hz.
  { apply Qeq_bool_eq in Hz. set (pe := (2 ^ e)%Q) in *. clearbody pe. split; lra. }
  apply Qeq_bool_neq in Hz.
  assert (Hr : (0 < Qred x)%Q).
  { destruct (Qlt_le_dec 0 (Qred x)); [assumption|]. exfalso. apply Hz. lra. }
  assert (Hle : (Qred x <= b)%Q) by lra.
  pose proof (ulp_exp_le _ _ Hr Hle) as Hg.
  set (g := ulp_exp (Qred x)) in *.
  pose proof (two_pos g) as Hg0.
  assert (Hge : (2 ^ g <= 2 ^ e)%Q) by (apply pow2_le; lia).
  destruct (nearest_even_close (Qred x / 2 ^ g)) as [N1 N2].
  set (n := inject_Z (nearest_even (Qred x / 2 ^ g))) in *.
  assert (Hx : (Qred x == Qred x / 2 ^ g * 2 ^ g)%Q) by (field; lra).
  set (y := (Qred x / 2 ^ g)%Q) in *.
  set (pe := (2 ^ e)%Q) in *. set (pg := (2 ^ g)%Q) in *.
  clearbody n y pe pg. split; nra.
Qed.

Lemma ulp_exp_1 : ulp_exp 1 = -52.
Proof. reflexivity. Qed.

Lemma ulp_exp_100 : ulp_exp 100 = -46.
Proof. reflexivity. Qed.

Lemma rate_close (c t : Z) :
  0 <= c <= t -> 0 < t ->
  (Qabs (mul (div (inject_Z c) (inject_Z t)) 100 - inject_Z c / inject_Z t * 100)
   <= 2 ^ (-45))%Q.
Proof.
  intros Hc Ht.
  assert (Hq : (0 < inject_Z t)%Q) by (change 0%Q with (inject_Z 0); rewrite <- Zlt_Qlt; lia).
  assert (Hx0 : (0 <= inject_Z c / inject_Z t)%Q).
  { apply Qle_shift_div_l; [exact Hq|]. rewrite Qmult_0_l.
    change 0%Q with (inject_Z 0). rewrite <- Zle_Qle. lia. }
  assert (Hx1 : (inject_Z c / inject_Z t <= 1)%Q).
  { apply Qle_shift_div_r; [exact Hq|]. rewrite Qmult_1_l. rewrite <- Zle_Qle. lia. }
  set (x := (inject_Z c / inject_Z t)%Q) in *.
  pose proof (round_nonneg _ Hx0) as A0.
  pose proof (round_le _ 1 Hx0 Hx1 representable_1) as A1.
  destruct (round_close x 1 (-52) Hx0 Hx1) as [B1 B2]; [rewrite ulp_exp_1; lia|].
  unfold mul, div. fold x.
  destruct (round_close (round x * 100) 100 (-46)) as [C1 C2];
    [nra | nra | rewrite ulp_exp_100; lia |].
  apply Qabs_Qle_condition.
  change (2 ^ (-52))%Q with (1 # 4503599627370496)%Q in *.
  change (2 ^ (-46))%Q with (1 # 70368744177664)%Q in *.
  change (2 ^ (-45))%Q with (1 # 35184372088832)%Q.
  split; lra.
Qed.

End Float64Facts.

(** C5, as amended. For every store state, the result of [getRsvpStats]
    satisfies confirmed + declined + maybe <= total and both rates lie in
    [0, 100]. When total > 0, attendanceRate is (confirmed / total) * 100
    and responseRate is ((confirmed + declined + maybe) / total) * 100 as
    double-precision arithmetic computes them, the division and the
    multiplication each rounded to the nearest double, which is within
    2^-45 of the exact value; both rates are 0 when total = 0. *)
Theorem getRsvpStats_bounds (this : RsvpService) :
  let s := getRsvpStats this in
  confirmed s + declined s + maybe s <= total s /\
  (0 <= attendanceRate s)%Q /\ (attendanceRate s <= 100)%Q /\
  (0 <= responseRate s)%Q /\ (responseRate s <= 100)%Q /\
  (0 < total s ->
   attendanceRate s =
     Float64.mul (Float64.div (inject_Z (confirmed s)) (inject_Z (total s))) 100 /\
   responseRate s =
     Float64.mul (Float64.div (inject_Z (confirmed s + declined s + maybe s))
                              (inject_Z (total s))) 100 /\
   (Qabs (attendanceRate s - inject_Z (confirmed s) / inject_Z (total s) * 100)
    <= 2 ^ (-45))%Q /\
   (Qabs (responseRate s -
          inject_Z (confirmed s + declined s + maybe s) / inject_Z (total s) * 100)
    <= 2 ^ (-45))%Q) /\
  (total s = 0 -> attendanceRate s = 0%Q /\ responseRate s = 0%Q).
Proof.
  unfold getRsvpStats; cbn [total confirmed declined maybe attendanceRate responseRate].
  set (entries := JsMap.values (rsvpEntries this)).
  set (c := count_where (fun entry => String.eqb (e_status entry) "Yes") entries).
  set (d := count_where (fun entry => String.eqb (e_status entry) "No") entries).
  set (m := count_where (fun entry => String.eqb (e_status entry) "Maybe") entries).
  set (t := Z.of_nat (List.length entries)).
  assert (Hsum : c + d + m <= t) by apply count_by_status.
  assert (Hc : 0 <= c) by apply count_where_nonneg.
  assert (Hd : 0 <= d) by apply count_where_nonneg.
  assert (Hm : 0 <= m) by apply count_where_nonneg.
  split; [exact Hsum|].
  destruct (Z.ltb_spec 0 t) as [Ht|Ht].
  - destruct (Float64Facts.rate_in_range c t) as [A1 A2]; [lia | lia |].
    destruct (Float64Facts.rate_in_range (c + d + m) t) as [R1 R2]; [lia | lia |].
    pose proof (Float64Facts.rate_close c t) as A3.
    pose proof (Float64Facts.rate_close (c + d + m) t) as R3.
    split; [exact A1|]. split; [exact A2|]. split; [exact R1|]. split; [exact R2|].
    split.
    + intros _. split; [reflexivity|]. split; [reflexivity|].
      split; [apply A3 | apply R3]; lia.
    + intros H0. lia.
  - split; [discriminate|]. split; [discriminate|].
    split; [discriminate|]. split; [discriminate|].
    split; [intros H0; lia|]. intros _. split; reflexivity.
Qed.

(** The bounds at work on a store with one confirmed and one declined
    entry. *)
Lemma getRsvpStats_bounds_witness :
  let this :=
    mkRsvpService
      [("1-a", mkRsvpEntry "1" (mkPlayer "a" "Ann" "ann@example.com") "Yes" 10 None);
       ("1-b", mkRsvpEntry "1" (mkPlayer "b" "Bob" "bob@example.com") "No" 20 None)]
      [] [] [] in
  0 < total (getRsvpStats this) /\
  (attendanceRate (getRsvpStats this) == 50)%Q /\
  (responseRate (getRsvpStats this) == 100)%Q.
Proof.
  intros this.
  destruct (getRsvpStats_bounds this) as (_ & _ & _ & _ & _ & Hpos & _).
  assert (Ht : 0 < total (getRsvpStats this)) by (vm_compute; reflexivity).
  destruct (Hpos Ht) as (Ha & Hr & _).
  split; [exact Ht|]. split.
  - rewrite Ha. vm_compute. reflexivity.
  - rewrite Hr. vm_compute. reflexivity.
Defined.

(** C5 as stated fails: the rates are doubles, and each of the two
    operations rounds. With two 'Yes' among three entries attendanceRate is
    the double 66.66666666666666 (4691249611844266 / 2^46), which is not
    2/3 * 100. *)
Lemma getRsvpStats_rate_is_rounded :
  reachable anyOp twoOfThree /\
  total (getRsvpStats twoOfThree) = 3 /\
  confirmed (getRsvpStats twoOfThree) = 2 /\
  (attendanceRate (getRsvpStats twoOfThree)
   == 4691249611844266 # 70368744177664)%Q /\
  ~ (attendanceRate (getRsvpStats twoOfThree)
     == inject_Z (confirmed (getRsvpStats twoOfThree)) /
        inject_Z (total (getRsvpStats twoOfThree)) * 100)%Q.
Proof.
  split; [|split; [|split; [|split]]].
  - unfold twoOfThree, run. cbn [fold_left].
    do 4 (apply reachable_step; [|exact I]). apply reachable_new.
  - reflexivity.
  - reflexivity.
  - vm_compute. reflexivity.
  - vm_compute. discriminate.
Qed.

(** ** The capacity gate of [updateRsvp] *)

Lemma rsvpKey_eqb (id a b : string) :
  String.eqb (rsvpKey id a) (rsvpKey id b) = String.eqb a b.
Proof.
  unfold rsvpKey. induction id as [|c id IH]; simpl.
  - reflexivity.
  - now rewrite Ascii.eqb_refl.
Qed.

Lemma updateRsvp_accepts (now : Date) (id : string) (p : Player)
    (st : RsvpStatus) (nt : option string) (this : RsvpService) (event : Event) :
  JsMap.get id (events this) = Some event ->
  RsvpValidator.validatePlayer p = inr tt ->
  RsvpValidator.validateRsvpStatus st = inr tt ->
  (st = "Yes" -> yesTotal this < maxPlayers event) ->
  updateRsvp now id p st nt this =
  (inr (mkRsvpEntry id p st now nt),
   with_rsvpEntries
     (JsMap.set (rsvpKey id (player_id p)) (mkRsvpEntry id p st now nt)) this).
Proof.
  intros Hev Hp Hs Hcap. rewrite updateRsvp_unfold, Hev, Hp, Hs.
  destruct (String.eqb_spec st "Yes") as [E|_]; [|reflexivity].
  specialize (Hcap E). simpl.
  destruct (Z.leb_spec (maxPlayers event) (yesTotal this)); [lia | reflexivity].
Qed.

Lemma updateRsvp_refuses (now : Date) (id : string) (p : Player)
    (nt : option string) (this : RsvpService) (event : Event) :
  JsMap.get id (events this) = Some event ->
  RsvpValidator.validatePlayer p = inr tt ->
  maxPlayers event <= yesTotal this ->
  updateRsvp now id p "Yes" nt this =
  (inl (ValidationError "Event is at maximum capacity"), this).
Proof.
  intros Hev Hp Hcap. rewrite updateRsvp_unfold, Hev, Hp. simpl.
  destruct (Z.leb_spec (maxPlayers event) (yesTotal this)); [reflexivity | lia].
Qed.

(** C4. From the empty store, after creating an event with id "1",
    maxPlayers 2 and a date not in the past: 'Yes' for A succeeds, 'Yes' for
    B succeeds, 'Yes' for C fails with the capacity validation error, 'No'
    for A succeeds, and then 'Yes' for C succeeds (A, B, C valid players
    with distinct ids; each call runs in the state the previous one left). *)
Theorem capacity_scenario
    (t0 t1 t2 t3 t4 t5 : Date) (event : Event) (A B C : Player)
    (n1 n2 n3 n4 n5 : option string) :
  event_id event = "1" ->
  maxPlayers event = 2 ->
  RsvpValidator.validateEvent t0 event = inr tt ->
  RsvpValidator.validatePlayer A = inr tt ->
  RsvpValidator.validatePlayer B = inr tt ->
  RsvpValidator.validatePlayer C = inr tt ->
  player_id A <> player_id B ->
  player_id A <> player_id C ->
  player_id B <> player_id C ->
  let s1 := snd (createEvent t0 event newService) in
  let s2 := snd (updateRsvp t1 "1" A "Yes" n1 s1) in
  let s3 := snd (updateRsvp t2 "1" B "Yes" n2 s2) in
  let s4 := snd (updateRsvp t3 "1" C "Yes" n3 s3) in
  let s5 := snd (updateRsvp t4 "1" A "No" n4 s4) in
  fst (createEvent t0 event newService) = inr event /\
  fst (updateRsvp t1 "1" A "Yes" n1 s1) = inr (mkRsvpEntry "1" A "Yes" t1 n1) /\
  fst (updateRsvp t2 "1" B "Yes" n2 s2) = inr (mkRsvpEntry "1" B "Yes" t2 n2) /\
  fst (updateRsvp t3 "1" C "Yes" n3 s3) =
    inl (ValidationError "Event is at maximum capacity") /\
  fst (updateRsvp t4 "1" A "No" n4 s4) = inr (mkRsvpEntry "1" A "No" t4 n4) /\
  fst (updateRsvp t5 "1" C "Yes" n5 s5) = inr (mkRsvpEntry "1" C "Yes" t5 n5).
Proof.
  intros Hid Hmax Hev HA HB HC Nab Nac Nbc.
  assert (Eba : String.eqb (player_id B) (player_id A) = false)
    by (apply String.eqb_neq; congruence).
  pose (evs := [("1", event)] : JsMap.t Event).
  pose (eA := mkRsvpEntry "1" A "Yes" t1 n1).
  pose (eB := mkRsvpEntry "1" B "Yes" t2 n2).
  pose (eA' := mkRsvpEntry "1" A "No" t4 n4).
  pose (kA := rsvpKey "1" (player_id A)).
  pose (kB := rsvpKey "1" (player_id B)).
  assert (R1 : createEvent t0 event newService =
               (inr event, mkRsvpService [] evs [] [])).
  { rewrite createEvent_unfold, Hev, Hid. reflexivity. }
  assert (R2 : updateRsvp t1 "1" A "Yes" n1 (mkRsvpService [] evs [] []) =
               (inr eA, mkRsvpService [(kA, eA)] evs [] [])).
  { erewrite updateRsvp_accepts; [reflexivity | reflexivity | exact HA | reflexivity |].
    intros _. rewrite Hmax. reflexivity. }
  assert (R3 : updateRsvp t2 "1" B "Yes" n2 (mkRsvpService [(kA, eA)] evs [] []) =
               (inr eB, mkRsvpService [(kA, eA); (kB, eB)] evs [] [])).
  { erewrite updateRsvp_accepts; [| reflexivity | exact HB | reflexivity |].
    - unfold with_rsvpEntries; cbn [rsvpEntries events waitlist reminders JsMap.set].
      fold kA kB. unfold kA, kB. rewrite rsvpKey_eqb, Eba. reflexivity.
    - intros _. rewrite Hmax. reflexivity. }
  assert (R4 : updateRsvp t3 "1" C "Yes" n3
                 (mkRsvpService [(kA, eA); (kB, eB)] evs [] []) =
               (inl (ValidationError "Event is at maximum capacity"),
                mkRsvpService [(kA, eA); (kB, eB)] evs [] [])).
  { eapply updateRsvp_refuses; [reflexivity | exact HC |].
    rewrite Hmax. vm_compute. discriminate. }
  assert (R5 : updateRsvp t4 "1" A "No" n4
                 (mkRsvpService [(kA, eA); (kB, eB)] evs [] []) =
               (inr eA', mkRsvpService [(kA, eA'); (kB, eB)] evs [] [])).
  { erewrite updateRsvp_accepts; [| reflexivity | exact HA | reflexivity |].
    - unfold with_rsvpEntries; cbn [rsvpEntries events waitlist reminders JsMap.set].
      fold kA. now rewrite String.eqb_refl.
    - discriminate. }
  assert (R6 : fst (updateRsvp t5 "1" C "Yes" n5
                      (mkRsvpService [(kA, eA'); (kB, eB)] evs [] [])) =
               inr (mkRsvpEntry "1" C "Yes" t5 n5)).
  { erewrite updateRsvp_accepts; [reflexivity | reflexivity | exact HC | reflexivity |].
    intros _. rewrite Hmax. reflexivity. }
  cbv zeta. rewrite R1. cbn [fst snd]. rewrite R2. cbn [fst snd].
  rewrite R3. cbn [fst snd]. rewrite R4. cbn [fst snd]. rewrite R5. cbn [fst snd].
  rewrite R6. repeat split; reflexivity.
Qed.

Lemma capacity_scenario_witness :
  fst (updateRsvp 1003 "1" Sample.cy "Yes" None Sample.fullGame) =
    inl (ValidationError "Event is at maximum capacity") /\
  fst (updateRsvp 1005 "1" Sample.cy "Yes" None
         (snd (updateRsvp 1004 "1" Sample.ann "No" None Sample.fullGame))) =
    inr (mkRsvpEntry "1" Sample.cy "Yes" 1005 None).
Proof.
  pose proof (capacity_scenario 1000 1001 1002 1003 1004 1005
                Sample.game Sample.ann Sample.bob Sample.cy None None None None None
                eq_refl eq_refl eq_refl eq_refl eq_refl eq_refl
                ltac:(discriminate) ltac:(discriminate) ltac:(discriminate))
    as (_ & _ & _ & H4 & _ & H6).
  split; [exact H4 | exact H6].
Defined.

(** C10, as amended. In every store state where the system-wide number of
    'Yes' entries is at least the [maxPlayers] of a stored event, every
    [updateRsvp] for that event with status 'Yes' and a player that passes
    [validatePlayer] fails with the capacity validation error and leaves the
    store unchanged; this holds whatever entry the player already has,
    a 'Yes' entry for the same event included. *)
Theorem updateRsvp_yes_at_capacity
    (now : Date) (id : string) (p : Player) (nt : option string)
    (this : RsvpService) (event : Event) :
  JsMap.get id (events this) = Some event ->
  RsvpValidator.validatePlayer p = inr tt ->
  maxPlayers event <= yesTotal this ->
  updateRsvp now id p "Yes" nt this =
  (inl (ValidationError "Event is at maximum capacity"), this).
Proof. apply updateRsvp_refuses. Qed.

(** Ann, already confirmed for the full event, cannot re-submit 'Yes' with a
    note. *)
Lemma updateRsvp_yes_at_capacity_witness :
  JsMap.get (rsvpKey "1" "a") (rsvpEntries Sample.fullDuel) =
    Some (mkRsvpEntry "1" Sample.ann "Yes" 1001 None) /\
  updateRsvp 1002 "1" Sample.ann "Yes" (Some "bringing a ball") Sample.fullDuel =
  (inl (ValidationError "Event is at maximum capacity"), Sample.fullDuel).
Proof.
  split; [reflexivity|].
  apply (updateRsvp_yes_at_capacity 1002 "1" Sample.ann (Some "bringing a ball")
           Sample.fullDuel Sample.duel);
    [reflexivity | reflexivity | vm_compute; discriminate].
Defined.

(** C10 as stated fails for a player object that does not pass
    [validatePlayer]: the store is at capacity, yet the call fails with the
    player validation error, raised before the capacity check. *)
Lemma updateRsvp_at_capacity_invalid_player :
  JsMap.get "1" (events Sample.fullDuel) = Some Sample.duel /\
  maxPlayers Sample.duel <= yesTotal Sample.fullDuel /\
  updateRsvp 1002 "1" Sample.anonymous "Yes" None Sample.fullDuel =
    (inl (ValidationError "Player ID is required and must be a string"),
     Sample.fullDuel) /\
  fst (updateRsvp 1002 "1" Sample.anonymous "Yes" None Sample.fullDuel) <>
    inl (ValidationError "Event is at maximum capacity").
Proof.
  split; [reflexivity|]. split; [vm_compute; discriminate|].
  split; [reflexivity | vm_compute; discriminate].
Qed.

(** ** Loops *)

Lemma forOf_app {A B} (xs ys : list A) (body : B -> A -> M B) (acc : B)
    (this : RsvpService) :
  forOf (xs ++ ys) body acc this =
  match forOf xs body acc this with
  | (inl e, s) => (inl e, s)
  | (inr acc', s) => forOf ys body acc' s
  end.
Proof.
  revert acc this. induction xs as [|x xs IH]; intros acc this; simpl.
  - reflexivity.
  - unfold bind. destruct (body acc x this) as [[e|acc'] s]; [reflexivity|].
    apply IH.
Qed.

(** A property of the state kept by every turn of a loop is kept by the
    loop. *)
Lemma forOf_preserves {A B} (P : RsvpService -> Prop) (body : B -> A -> M B) :
  (forall acc x s, P s -> P (snd (body acc x s))) ->
  forall xs acc s, P s -> P (snd (forOf xs body acc s)).
Proof.
  intros Hbody xs. induction xs as [|x xs IH]; intros acc s Hs; simpl.
  - exact Hs.
  - unfold bind. specialize (Hbody acc x s Hs).
    destruct (body acc x s) as [[e|acc'] s']; simpl in *; [exact Hbody|].
    now apply IH.
Qed.

(** ** Batch updates *)

Lemma updateRsvp_failure (now : Date) (id : string) (p : Player)
    (st : RsvpStatus) (nt : option string) (this s : RsvpService) (e : Error) :
  updateRsvp now id p st nt this = (inl e, s) ->
  s = this /\ exists m, e = ValidationError m.
Proof.
  rewrite updateRsvp_unfold.
  destruct (JsMap.get id (events this)) as [event|]; [|intros [= <- <-]; eauto].
  destruct (RsvpValidator.validatePlayer p) as [e1|[]] eqn:Hp.
  { intros [= <- <-]. split; [reflexivity | eapply validatePlayer_error; eauto]. }
  destruct (RsvpValidator.validateRsvpStatus st) as [e2|[]] eqn:Hs.
  { intros [= <- <-]. split; [reflexivity | eapply validateRsvpStatus_error; eauto]. }
  destruct (_ && _); [intros [= <- <-]; eauto | discriminate].
Qed.

Lemma batchItem_failure (clock : nat -> Date) (results : list RsvpEntry)
    (u : BatchRsvpUpdate) (this s : RsvpService) (e : Error) :
  batchItem clock results u this = (inl e, s) ->
  s = this /\ exists m, e = ValidationError m.
Proof.
  unfold batchItem, bind, gets, throw, ret.
  destruct (JsMap.get (bu_eventId u) (events this)); [|intros [= <- <-]; eauto].
  destruct (getPlayerById (bu_playerId u) this); [|intros [= <- <-]; eauto].
  destruct (updateRsvp _ _ _ _ _ this) as [[e'|entry] s'] eqn:Hu; [|discriminate].
  intros [= <- <-]. eapply updateRsvp_failure; eauto.
Qed.

Lemma getPlayerById_None (playerId : string) (this : RsvpService) :
  getPlayerById playerId this = None <->
  forall entry, In entry (JsMap.values (rsvpEntries this)) ->
                player_id (e_player entry) <> playerId.
Proof.
  unfold getPlayerById.
  destruct (find _ _) as [entry|] eqn:Hf.
  - split; [discriminate|]. intros H. apply find_some in Hf as [Hin Heq].
    apply String.eqb_eq in Heq. now apply H in Hin.
  - split; [|reflexivity]. intros _ entry Hin Heq.
    eapply find_none in Hf; [|exact Hin]. simpl in Hf.
    apply String.eqb_neq in Hf. contradiction.
Qed.

Lemma batchUpdateRsvps_ok (clock : nat -> Date) (updates : list BatchRsvpUpdate)
    (this s : RsvpService) (results : list RsvpEntry) :
  batchUpdateRsvps clock updates this = (inr results, s) <->
  forOf updates (batchItem clock) [] this = (inr results, s).
Proof.
  unfold batchUpdateRsvps, rethrowing.
  destruct (forOf updates (batchItem clock) [] this) as [[[m|m]|r] s'];
    split; intros H; try discriminate; exact H.
Qed.

Lemma batchUpdateRsvps_stops (clock : nat -> Date) (pre post : list BatchRsvpUpdate)
    (u : BatchRsvpUpdate) (this mid s : RsvpService) (results : list RsvpEntry)
    (e : Error) :
  batchUpdateRsvps clock pre this = (inr results, mid) ->
  batchItem clock results u mid = (inl e, s) ->
  batchUpdateRsvps clock (pre ++ u :: post) this = (inl e, mid).
Proof.
  intros Hpre Hitem. apply batchUpdateRsvps_ok in Hpre.
  destruct (batchItem_failure _ _ _ _ _ _ Hitem) as [-> [m ->]].
  unfold batchUpdateRsvps, rethrowing.
  rewrite forOf_app, Hpre. simpl. unfold bind. now rewrite Hitem.
Qed.

(** C7, as amended. For every update list [pre ++ u :: post] whose prefix
    [pre] is processed successfully: if [u] names a stored event and its
    [playerId] matches no player of any RSVP entry existing at that point,
    the batch fails with the player-not-found validation error; whatever
    the reason an item fails for, processing stops there and the store is
    left exactly as the successful prefix left it (no rollback, nothing of
    [u] or [post] applied). *)
Theorem batchUpdateRsvps_stops_at_first_failure
    (clock : nat -> Date) (pre post : list BatchRsvpUpdate) (u : BatchRsvpUpdate)
    (this mid : RsvpService) (results : list RsvpEntry) :
  batchUpdateRsvps clock pre this = (inr results, mid) ->
  (JsMap.get (bu_eventId u) (events mid) <> None ->
   (forall entry, In entry (JsMap.values (rsvpEntries mid)) ->
                  player_id (e_player entry) <> bu_playerId u) ->
   batchUpdateRsvps clock (pre ++ u :: post) this =
   (inl (ValidationError ("Player not found: " ++ bu_playerId u)), mid)) /\
  (forall e s,
     batchItem clock results u mid = (inl e, s) ->
     batchUpdateRsvps clock (pre ++ u :: post) this = (inl e, mid)).
Proof.
  intros Hpre. split.
  - intros Hev Hno. eapply batchUpdateRsvps_stops; [exact Hpre|].
    unfold batchItem, bind, gets, throw.
    destruct (JsMap.get (bu_eventId u) (events mid)); [|congruence].
    apply getPlayerById_None in Hno. rewrite Hno. reflexivity.
  - intros e s Hitem. eapply batchUpdateRsvps_stops; eauto.
Qed.

(** Ann declines, then an unknown player is addressed: the batch fails
    with player-not-found and Ann's 'No' stays recorded. *)
Lemma batchUpdateRsvps_stops_at_first_failure_witness :
  batchUpdateRsvps (fun _ => 2000)
    [mkBatchRsvpUpdate "1" "a" "No" None;
     mkBatchRsvpUpdate "1" "ghost" "Yes" None;
     mkBatchRsvpUpdate "1" "b" "No" None] Sample.fullGame =
  (inl (ValidationError "Player not found: ghost"),
   snd (batchUpdateRsvps (fun _ => 2000)
          [mkBatchRsvpUpdate "1" "a" "No" None] Sample.fullGame)).
Proof.
  refine (proj1 (batchUpdateRsvps_stops_at_first_failure (fun _ => 2000)
            [mkBatchRsvpUpdate "1" "a" "No" None]
            [mkBatchRsvpUpdate "1" "b" "No" None]
            (mkBatchRsvpUpdate "1" "ghost" "Yes" None)
            Sample.fullGame _ _ eq_refl) _ _).
  - discriminate.
  - intros entry [<-|[<-|[]]]; discriminate.
Defined.

(** C7 as stated fails for an update whose event is unknown: the player
    matches no entry, yet the failure is the event-not-found validation
    error, raised before the player is looked up. *)
Lemma batchUpdateRsvps_unknown_event_first :
  (forall entry, In entry (JsMap.values (rsvpEntries Sample.fullGame)) ->
                 player_id (e_player entry) <> "ghost") /\
  batchUpdateRsvps (fun _ => 2000)
    [mkBatchRsvpUpdate "2" "ghost" "Yes" None] Sample.fullGame =
  (inl (ValidationError "Event not found: 2"), Sample.fullGame) /\
  fst (batchUpdateRsvps (fun _ => 2000)
         [mkBatchRsvpUpdate "2" "ghost" "Yes" None] Sample.fullGame) <>
  inl (ValidationError "Player not found: ghost").
Proof.
  split; [intros entry [<-|[<-|[]]]; discriminate|].
  split; [reflexivity | vm_compute; discriminate].
Qed.

(** ** Loops over the RSVP entries *)

Local Open Scope list_scope.

Lemma without_delete {V} (k : string) (ks : list string) (m : JsMap.t V) :
  without ks (JsMap.delete k m) = without (k :: ks) m.
Proof.
  unfold without, JsMap.delete. induction m as [|[k' v] m IH]; simpl; [reflexivity|].
  rewrite (String.eqb_sym k' k).
  destruct (String.eqb k k'); simpl; [exact IH|].
  destruct (existsb _ ks); simpl; [exact IH | now rewrite IH].
Qed.

Lemma without_nil {V} (m : JsMap.t V) : without [] m = m.
Proof.
  unfold without. induction m as [|kv m IH]; simpl in *; [reflexivity | now f_equal].
Qed.

(** A loop deleting every entry that satisfies [p]. *)
Lemma delete_loop (p : RsvpEntry -> bool) (snapshot : JsMap.t RsvpEntry)
    (this : RsvpService) :
  forOf snapshot (fun _ '(key, entry) =>
    if p entry then modify (with_rsvpEntries (JsMap.delete key)) else ret tt) tt this =
  (inr tt, with_rsvpEntries (without (doomed p snapshot)) this).
Proof.
  revert this. induction snapshot as [|[k e] rest IH]; intros this; simpl.
  - unfold ret, with_rsvpEntries, doomed. simpl. rewrite without_nil. now destruct this.
  - unfold bind, doomed. simpl. destruct (p e) eqn:Hp; simpl.
    + unfold modify. rewrite IH. unfold with_rsvpEntries; simpl.
      now rewrite without_delete.
    + unfold ret. apply IH.
Qed.

Lemma without_doomed_clean (p : RsvpEntry -> bool) (m : JsMap.t RsvpEntry)
    (entry : RsvpEntry) :
  In entry (JsMap.values (without (doomed p m) m)) -> p entry = false.
Proof.
  unfold JsMap.values, without, doomed, JsMap.keys. intros H.
  apply in_map_iff in H as [[k e] [<- H]]. simpl.
  apply filter_In in H as [Hin Hnot]. simpl in Hnot.
  destruct (p e) eqn:Hp; [|reflexivity].
  apply negb_true_iff in Hnot.
  assert (existsb (String.eqb k) (map fst (filter (fun kv => p (snd kv)) m)) = true)
    as Hex; [|congruence].
  apply existsb_exists. exists k. split; [|apply String.eqb_refl].
  apply in_map_iff. exists (k, e). split; [reflexivity|].
  apply filter_In. now split.
Qed.

Lemma without_doomed_filter (p : RsvpEntry -> bool) (m : JsMap.t RsvpEntry) :
  JsMap.wf m ->
  without (doomed p m) m = filter (fun kv => negb (p (snd kv))) m.
Proof.
  intros Hwf. unfold without. apply filter_ext_in. intros [k e] Hin. cbn [fst snd].
  f_equal. destruct (p e) eqn:Hp.
  - apply existsb_exists. exists k. split; [|apply String.eqb_refl].
    unfold doomed, JsMap.keys. apply in_map_iff. exists (k, e).
    split; [reflexivity|]. apply filter_In. now split.
  - apply not_true_is_false. intros H.
    apply existsb_exists in H as (k' & Hk' & Heq).
    apply String.eqb_eq in Heq. subst k'.
    unfold doomed, JsMap.keys in Hk'.
    apply in_map_iff in Hk' as ([k' e'] & Hfst & Hin'). cbn [fst] in Hfst. subst k'.
    apply filter_In in Hin' as [Hin' Hp']. cbn [snd] in Hp'.
    apply (JsMapFacts.In_get _ _ _ Hwf) in Hin.
    apply (JsMapFacts.In_get _ _ _ Hwf) in Hin'.
    congruence.
Qed.

Lemma set_middle {V} (k : string) (v v0 : V) (done rest : JsMap.t V) :
  ~ In k (JsMap.keys done) ->
  JsMap.set k v (done ++ (k, v0) :: rest) = (done ++ (k, v) :: rest)%list.
Proof.
  induction done as [|[k' v'] done IH]; simpl; intros Hni.
  - now rewrite String.eqb_refl.
  - destruct (String.eqb_spec k k') as [->|_]; [tauto|].
    rewrite IH; tauto.
Qed.

(** A loop overwriting, under its own key, every entry that satisfies [p]. *)
Lemma set_loop (p : RsvpEntry -> bool) (g : RsvpEntry -> RsvpEntry)
    (todo done : JsMap.t RsvpEntry) (this : RsvpService) :
  JsMap.wf (done ++ todo) ->
  rsvpEntries this = (done ++ todo)%list ->
  forOf todo (fun _ '(key, entry) =>
    if p entry then modify (with_rsvpEntries (JsMap.set key (g entry))) else ret tt)
    tt this =
  (inr tt, with_rsvpEntries (fun _ => (done ++ map (rewritten p g) todo)%list) this).
Proof.
  revert done this. induction todo as [|[k e] rest IH]; intros done this Hwf Hm; simpl.
  - unfold ret, with_rsvpEntries. rewrite <- Hm. now destruct this.
  - assert (Hni : ~ In k (JsMap.keys done)).
    { unfold JsMap.wf, JsMap.keys in Hwf. rewrite map_app in Hwf. simpl in Hwf.
      apply NoDup_remove_2 in Hwf. intros I. apply Hwf. apply in_or_app. now left. }
    unfold bind, rewritten at 1. simpl. destruct (p e) eqn:Hp; simpl.
    + unfold modify.
      rewrite (IH (done ++ [(k, g e)])%list).
      * unfold with_rsvpEntries; simpl. now rewrite <- app_assoc.
      * unfold JsMap.wf, JsMap.keys in *. rewrite <- app_assoc. simpl.
        rewrite map_app in *. exact Hwf.
      * unfold with_rsvpEntries; simpl. rewrite Hm, set_middle by exact Hni.
        now rewrite <- app_assoc.
    + unfold ret. rewrite (IH (done ++ [(k, e)])%list).
      * now rewrite <- app_assoc.
      * now rewrite <- app_assoc.
      * now rewrite <- app_assoc.
Qed.

(** ** Deleting an event *)

Lemma deleteEvent_unfold (id : string) (this : RsvpService) :
  deleteEvent id this =
  if JsMap.has id (events this)
  then (inr tt,
        with_events (JsMap.delete id)
          (with_rsvpEntries
             (without (doomed (fun entry => String.eqb (e_eventId entry) id)
                              (rsvpEntries this))) this))
  else (inl (ValidationError "Event not found"), this).
Proof.
  unfold deleteEvent, rethrowing, bind, gets, throw, ret.
  destruct (JsMap.has id (events this)); simpl; [|reflexivity].
  unfold JsMap.entries.
  rewrite (delete_loop (fun entry => String.eqb (e_eventId entry) id)).
  reflexivity.
Qed.

Lemma getEventRsvps_unknown (id : string) (this : RsvpService) :
  JsMap.get id (events this) = None ->
  getEventRsvps id this = (inl (ValidationError "Event not found"), this).
Proof.
  intros H. unfold getEventRsvps, rethrowing, bind, gets, throw, JsMap.has.
  now rewrite H.
Qed.

(** C8. For every store state with an event E, [deleteEvent(E.id)] succeeds,
    removes E and every RSVP entry whose eventId is E.id (and no other event
    or entry), so that a following [getEventRsvps(E.id)] fails with the
    event-not-found validation error and [searchRsvps({})] holds no entry
    for E, and leaves the waitlist and reminder collections as they were;
    [deleteEvent] of an unknown id fails with a validation error and changes
    nothing. *)
Theorem deleteEvent_cascade (this : RsvpService) :
  (forall E,
     JsMap.get (event_id E) (events this) = Some E ->
     let this' := snd (deleteEvent (event_id E) this) in
     fst (deleteEvent (event_id E) this) = inr tt /\
     JsMap.get (event_id E) (events this') = None /\
     events this' = JsMap.delete (event_id E) (events this) /\
     (forall entry, In entry (JsMap.values (rsvpEntries this')) ->
                    e_eventId entry <> event_id E) /\
     (JsMap.wf (rsvpEntries this) ->
      rsvpEntries this' =
      filter (fun kv => negb (String.eqb (e_eventId (snd kv)) (event_id E)))
             (rsvpEntries this)) /\
     getEventRsvps (event_id E) this' =
       (inl (ValidationError "Event not found"), this') /\
     (forall entry, In entry (searchRsvps noOptions this') ->
                    e_eventId entry <> event_id E) /\
     waitlist this' = waitlist this /\
     reminders this' = reminders this) /\
  (forall id,
     JsMap.get id (events this) = None ->
     deleteEvent id this = (inl (ValidationError "Event not found"), this)).
Proof.
  split.
  - intros E HE this'. subst this'. rewrite deleteEvent_unfold.
    unfold JsMap.has. rewrite HE. cbn [fst snd].
    set (p := fun entry => String.eqb (e_eventId entry) (event_id E)).
    assert (Hclean : forall entry,
               In entry (JsMap.values (without (doomed p (rsvpEntries this))
                                               (rsvpEntries this))) ->
               e_eventId entry <> event_id E).
    { intros entry Hin. apply without_doomed_clean in Hin.
      now apply String.eqb_neq in Hin. }
    assert (Hgone : JsMap.get (event_id E) (JsMap.delete (event_id E) (events this)) = None)
      by apply JsMapFacts.get_delete_same.
    repeat split.
    + exact Hgone.
    + exact Hclean.
    + intros Hwf. cbn [rsvpEntries with_events with_rsvpEntries].
      now apply without_doomed_filter.
    + now apply getEventRsvps_unknown.
    + intros entry Hin. unfold searchRsvps, noOptions in Hin. cbn in Hin.
      apply sort_by_In in Hin. now apply Hclean.
  - intros id Hid. rewrite deleteEvent_unfold. unfold JsMap.has. now rewrite Hid.
Qed.

(** Deleting event "1" of the sample store removes both entries; an unknown
    id is refused. *)
Lemma deleteEvent_cascade_witness :
  fst (deleteEvent "1" Sample.fullGame) = inr tt /\
  JsMap.get "1" (events (snd (deleteEvent "1" Sample.fullGame))) = None /\
  rsvpEntries (snd (deleteEvent "1" Sample.fullGame)) = [] /\
  deleteEvent "7" Sample.fullGame =
    (inl (ValidationError "Event not found"), Sample.fullGame).
Proof.
  destruct (deleteEvent_cascade Sample.fullGame) as [Hknown Hunknown].
  destruct (Hknown Sample.game eq_refl) as (H1 & H2 & _ & _ & H3 & _).
  split; [exact H1|]. split; [exact H2|]. split.
  - etransitivity; [apply H3 | reflexivity].
    unfold JsMap.wf. vm_compute. repeat constructor; simpl; intuition discriminate.
  - apply Hunknown. reflexivity.
Defined.

(** ** Updating a player *)

Lemma updatePlayer_unfold (playerId : string) (update : PlayerUpdate)
    (this : RsvpService) :
  JsMap.wf (rsvpEntries this) ->
  updatePlayer playerId update this =
  match getPlayerById playerId this with
  | None => (inl (ValidationError "Player not found"), this)
  | Some player =>
      match RsvpValidator.validatePlayer (mergePlayer player update) with
      | inl e => (inl e, this)
      | inr _ =>
          (inr tt,
           with_rsvpEntries
             (map (rewritten
                     (fun entry => String.eqb (player_id (e_player entry)) playerId)
                     (fun entry => withPlayer entry (mergePlayer player update))))
             this)
      end
  end.
Proof.
  intros Hwf. unfold updatePlayer, rethrowing, bind, gets, throw, lift.
  destruct (getPlayerById playerId this) as [player|]; [|reflexivity].
  destruct (RsvpValidator.validatePlayer _) as [e|[]] eqn:Hv.
  { apply validatePlayer_error in Hv as [m ->]. reflexivity. }
  unfold JsMap.entries.
  rewrite (set_loop
             (fun entry => String.eqb (player_id (e_player entry)) playerId)
             (fun entry => withPlayer entry (mergePlayer player update))
             (rsvpEntries this) [] this Hwf eq_refl).
  reflexivity.
Qed.

Lemma getPlayerById_Some (playerId : string) (this : RsvpService) (p : Player) :
  getPlayerById playerId this = Some p -> player_id p = playerId.
Proof.
  unfold getPlayerById. destruct (find _ _) as [entry|] eqn:Hf; [|discriminate].
  intros [= <-]. apply find_some in Hf as [_ Heq]. now apply String.eqb_eq.
Qed.

(** C9. For every store state, a successful [updatePlayer(P, update)]
    replaces only the embedded player of every entry whose player id is P:
    each entry stays under its key with its eventId, status, notes and
    updatedAt; the entries of every other player and the events, waitlist
    and reminders collections are unchanged. The new embedded player is
    the first-found player with id P merged with the update. *)
Theorem updatePlayer_frame (playerId : string) (update : PlayerUpdate)
    (this this' : RsvpService) :
  JsMap.wf (rsvpEntries this) ->
  updatePlayer playerId update this = (inr tt, this') ->
  exists player,
    getPlayerById playerId this = Some player /\
    player_id (mergePlayer player update) = playerId /\
    Forall2
      (fun before after =>
         fst after = fst before /\
         e_eventId (snd after) = e_eventId (snd before) /\
         e_status (snd after) = e_status (snd before) /\
         e_notes (snd after) = e_notes (snd before) /\
         e_updatedAt (snd after) = e_updatedAt (snd before) /\
         (player_id (e_player (snd before)) = playerId ->
          e_player (snd after) = mergePlayer player update) /\
         (player_id (e_player (snd before)) <> playerId ->
          snd after = snd before))
      (JsMap.entries (rsvpEntries this)) (JsMap.entries (rsvpEntries this')) /\
    events this' = events this /\
    waitlist this' = waitlist this /\
    reminders this' = reminders this.
Proof.
  intros Hwf. rewrite (updatePlayer_unfold _ _ _ Hwf).
  destruct (getPlayerById playerId this) as [player|] eqn:Hp; [|discriminate].
  destruct (RsvpValidator.validatePlayer _) as [e|[]]; [discriminate|].
  intros [= <-]. exists player. split; [reflexivity|].
  split; [simpl; eapply getPlayerById_Some; eauto|].
  split; [|repeat split].
  unfold with_rsvpEntries, JsMap.entries; simpl.
  clear Hwf Hp. generalize (rsvpEntries this) as m.
  induction m as [|[k e] m IH]; simpl; [constructor|].
  constructor; [|exact IH].
  unfold rewritten; simpl.
  destruct (String.eqb_spec (player_id (e_player e)) playerId) as [Heq|Hne];
    simpl; repeat split; try reflexivity; try congruence.
Qed.

(** Renaming Ann in the sample store. *)
Lemma updatePlayer_frame_witness :
  exists player,
    getPlayerById "a" Sample.fullGame = Some player /\
    player_id (mergePlayer player (mkPlayerUpdate (Some "Anna") None)) = "a" /\
    events (snd (updatePlayer "a" (mkPlayerUpdate (Some "Anna") None) Sample.fullGame))
    = events Sample.fullGame.
Proof.
  destruct (updatePlayer_frame "a" (mkPlayerUpdate (Some "Anna") None)
              Sample.fullGame
              (snd (updatePlayer "a" (mkPlayerUpdate (Some "Anna") None) Sample.fullGame)))
    as (player & H1 & H2 & _ & H3 & _).
  - unfold JsMap.wf. vm_compute. repeat constructor; simpl; intuition discriminate.
  - reflexivity.
  - exists player. repeat split; assumption.
Defined.

(** ** Searching *)

Lemma filter_filter {A} (f g : A -> bool) (l : list A) :
  filter g (filter f l) = filter (fun x => f x && g x) l.
Proof.
  induction l as [|x l IH]; simpl; [reflexivity|].
  destruct (f x); simpl; [destruct (g x)|]; now rewrite IH.
Qed.

Lemma filter_all {A} (l : list A) : filter (fun _ => true) l = l.
Proof. induction l; simpl; [reflexivity | now f_equal]. Qed.

Lemma searchRsvps_keeps (options : SearchOptions) (this : RsvpService) :
  searchRsvps options this =
  sort_by e_updatedAt (filter (keeps options this) (JsMap.values (rsvpEntries this))).
Proof.
  unfold searchRsvps. f_equal.
  set (l := JsMap.values (rsvpEntries this)).
  set (f1 := fun entry : RsvpEntry =>
               match so_eventId options with
               | Some id => if Str.truthy id then String.eqb (e_eventId entry) id else true
               | None => true
               end).
  set (f2 := fun entry : RsvpEntry =>
               match so_playerName options with
               | Some name =>
                   if Str.truthy name
                   then Str.includes (Str.toLowerCase (player_name (e_player entry)))
                                     (Str.toLowerCase name)
                   else true
               | None => true
               end).
  set (f3 := fun entry : RsvpEntry =>
               match so_status options with
               | Some st => if Str.truthy st then String.eqb (e_status entry) st else true
               | None => true
               end).
  set (f4 := fun _ : RsvpEntry =>
               match so_startDate options with
               | Some startDate =>
                   match (match so_eventId options with
                          | Some id => JsMap.get id (events this)
                          | None => None
                          end) with
                   | Some event => startDate <=? event_date event
                   | None => true
                   end
               | None => true
               end).
  transitivity (filter f4 (filter f3 (filter f2 (filter f1 l)))).
  - assert (E1 : match so_eventId options with
                 | Some id =>
                     if Str.truthy id
                     then filter (fun entry => String.eqb (e_eventId entry) id) l
                     else l
                 | None => l
                 end = filter f1 l).
    { subst f1. destruct (so_eventId options) as [id|];
        [destruct (Str.truthy id)|]; now rewrite ?filter_all. }
    rewrite E1. generalize (filter f1 l) as l1. intros l1.
    assert (E2 : match so_playerName options with
                 | Some name =>
                     if Str.truthy name
                     then filter (fun entry =>
                            Str.includes (Str.toLowerCase (player_name (e_player entry)))
                                         (Str.toLowerCase name)) l1
                     else l1
                 | None => l1
                 end = filter f2 l1).
    { subst f2. destruct (so_playerName options) as [name|];
        [destruct (Str.truthy name)|]; now rewrite ?filter_all. }
    rewrite E2. generalize (filter f2 l1) as l2. intros l2.
    assert (E3 : match so_status options with
                 | Some st =>
                     if Str.truthy st
                     then filter (fun entry => String.eqb (e_status entry) st) l2
                     else l2
                 | None => l2
                 end = filter f3 l2).
    { subst f3. destruct (so_status options) as [st|];
        [destruct (Str.truthy st)|]; now rewrite ?filter_all. }
    rewrite E3. generalize (filter f3 l2) as l3. intros l3.
    subst f4. destruct (so_startDate options) as [startDate|];
      [|now rewrite filter_all].
    destruct (match so_eventId options with
              | Some id => JsMap.get id (events this)
              | None => None
              end) as [event|]; [reflexivity | now rewrite filter_all].
  - rewrite !filter_filter. apply filter_ext. intros entry.
    unfold keeps. subst f1 f2 f3 f4. cbv beta. now rewrite !andb_assoc.
Qed.

Lemma keeps_iff (options : SearchOptions) (this : RsvpService) (entry : RsvpEntry) :
  keeps options this entry = true <->
  (forall id, so_eventId options = Some id -> id <> "" -> e_eventId entry = id) /\
  (forall name, so_playerName options = Some name ->
     exists pre post,
       Str.toLowerCase (player_name (e_player entry)) =
       (pre ++ Str.toLowerCase name ++ post)%string) /\
  (forall st, so_status options = Some st -> st <> "" -> e_status entry = st) /\
  (forall startDate id event,
     so_startDate options = Some startDate ->
     so_eventId options = Some id ->
     JsMap.get id (events this) = Some event ->
     startDate <= event_date event).
Proof.
  unfold keeps. rewrite <- !andb_assoc, !andb_true_iff.
  assert (T : forall s, Str.truthy s = true <-> s <> "").
  { intros s. destruct s; simpl; split; congruence. }
  assert (I1 : match so_eventId options with
               | Some id => if Str.truthy id then String.eqb (e_eventId entry) id else true
               | None => true
               end = true <->
               (forall id, so_eventId options = Some id -> id <> "" ->
                           e_eventId entry = id)).
  { destruct (so_eventId options) as [id|]; [|split; [intros; discriminate | reflexivity]].
    destruct (Str.truthy id) eqn:Ht.
    - rewrite String.eqb_eq. split.
      + intros H id' [= <-] _. exact H.
      + intros H. apply H; [reflexivity | now apply T].
    - split; [|reflexivity]. intros _ id' [= <-] Hne. apply T in Hne. congruence. }
  assert (I2 : match so_playerName options with
               | Some name =>
                   if Str.truthy name
                   then Str.includes (Str.toLowerCase (player_name (e_player entry)))
                                     (Str.toLowerCase name)
                   else true
               | None => true
               end = true <->
               (forall name, so_playerName options = Some name ->
                  exists pre post,
                    Str.toLowerCase (player_name (e_player entry)) =
                    (pre ++ Str.toLowerCase name ++ post)%string)).
  { destruct (so_playerName options) as [name|];
      [|split; [intros; discriminate | reflexivity]].
    destruct (Str.truthy name) eqn:Ht.
    - rewrite includes_iff. split.
      + intros H name' [= <-]. exact H.
      + intros H. now apply H.
    - split; [|reflexivity]. intros _ name' [= <-].
      apply truthy_false_iff in Ht. subst name. simpl.
      now exists ""%string, (Str.toLowerCase (player_name (e_player entry))). }
  assert (I3 : match so_status options with
               | Some st => if Str.truthy st then String.eqb (e_status entry) st else true
               | None => true
               end = true <->
               (forall st, so_status options = Some st -> st <> "" ->
                           e_status entry = st)).
  { destruct (so_status options) as [st|]; [|split; [intros; discriminate | reflexivity]].
    destruct (Str.truthy st) eqn:Ht.
    - rewrite String.eqb_eq. split.
      + intros H st' [= <-] _. exact H.
      + intros H. apply H; [reflexivity | now apply T].
    - split; [|reflexivity]. intros _ st' [= <-] Hne. apply T in Hne. congruence. }
  rewrite I1, I2, I3.
  repeat apply and_iff_compat_l.
  destruct (so_startDate options) as [startDate|];
    [|split; [intros; discriminate | reflexivity]].
  destruct (so_eventId options) as [id|].
  - destruct (JsMap.get id (events this)) as [event|] eqn:Hg.
    + rewrite Z.leb_le. split.
      * intros H sd id' event' [= <-] [= <-] Hg'. rewrite Hg in Hg'.
        injection Hg' as <-. exact H.
      * intros H. now apply (H startDate id event).
    + split; [|reflexivity]. intros _ sd id' event' _ [= <-] H. congruence.
  - split; [intros; discriminate | reflexivity].
Qed.

(** C6, as amended. For every store state and every SearchOptions value,
    [searchRsvps] returns exactly the entries passing each provided filter,
    where an eventId or status given as the empty string counts as not
    provided: eventId by exact match, playerName by case-insensitive
    substring of the entry's player name, status by exact match, and
    startDate only when eventId names a stored event, comparing that
    event's date (not the entry's timestamp) against startDate. The result
    is sorted ascending by updatedAt, and empty options return every
    entry. *)
Theorem searchRsvps_spec (options : SearchOptions) (this : RsvpService) :
  StronglySorted (ascending e_updatedAt) (searchRsvps options this) /\
  Permutation (searchRsvps options this)
              (filter (keeps options this) (JsMap.values (rsvpEntries this))) /\
  (forall entry,
     keeps options this entry = true <->
     (forall id, so_eventId options = Some id -> id <> "" -> e_eventId entry = id) /\
     (forall name, so_playerName options = Some name ->
        exists pre post,
          Str.toLowerCase (player_name (e_player entry)) =
          (pre ++ Str.toLowerCase name ++ post)%string) /\
     (forall st, so_status options = Some st -> st <> "" -> e_status entry = st) /\
     (forall startDate id event,
        so_startDate options = Some startDate ->
        so_eventId options = Some id ->
        JsMap.get id (events this) = Some event ->
        startDate <= event_date event)) /\
  Permutation (searchRsvps noOptions this) (JsMap.values (rsvpEntries this)).
Proof.
  split; [|split; [|split]].
  - rewrite searchRsvps_keeps. apply sort_by_sorted.
  - rewrite searchRsvps_keeps. apply sort_by_perm.
  - intros entry. apply keeps_iff.
  - rewrite searchRsvps_keeps. rewrite sort_by_perm.
    unfold keeps, noOptions. simpl. now rewrite filter_all.
Qed.

(** Searching the sample store for confirmed players of event "1" whose
    name contains "AN" finds Ann. *)
Lemma searchRsvps_spec_witness :
  Permutation
    (searchRsvps (mkSearchOptions (Some "1") (Some "AN") (Some "Yes") None)
                 Sample.fullGame)
    [mkRsvpEntry "1" Sample.ann "Yes" 1001 None] /\
  keeps (mkSearchOptions (Some "1") (Some "AN") (Some "Yes") None) Sample.fullGame
        (mkRsvpEntry "1" Sample.ann "Yes" 1001 None) = true.
Proof.
  destruct (searchRsvps_spec
              (mkSearchOptions (Some "1") (Some "AN") (Some "Yes") None)
              Sample.fullGame) as (_ & Hperm & Hkeeps & _).
  split; [exact Hperm|].
  apply Hkeeps. repeat split.
  - intros id [= <-] _. reflexivity.
  - intros name [= <-]. exists ""%string, "n"%string. reflexivity.
  - intros st [= <-] _. reflexivity.
  - intros startDate id event [=].
Defined.

(** C6 as stated fails for an eventId given as the empty string: the
    filter is provided, no entry has that eventId, yet every entry is
    returned. *)
Lemma searchRsvps_empty_eventId_ignored :
  let options := mkSearchOptions (Some "") None None None in
  searchRsvps options Sample.fullGame =
    [mkRsvpEntry "1" Sample.ann "Yes" 1001 None;
     mkRsvpEntry "1" Sample.bob "Yes" 1002 None] /\
  filter (fun entry => String.eqb (e_eventId entry) "")
         (JsMap.values (rsvpEntries Sample.fullGame)) = [] /\
  ~ (forall entry, In entry (searchRsvps options Sample.fullGame) ->
                   e_eventId entry = "").
Proof.
  split; [reflexivity|]. split; [reflexivity|].
  intros H. specialize (H (mkRsvpEntry "1" Sample.ann "Yes" 1001 None)).
  assert (E : "1" = "") by (apply H; left; reflexivity). discriminate.
Qed.

(** ** Cleanup *)

Lemma archive_loop (options : CleanupOptions) (cutoff : Date)
    (todo done : JsMap.t Event) (counts : Z * Z) (this : RsvpService) :
  flag (co_archive options) = true ->
  flag (co_includeRSVPs options) = false ->
  JsMap.wf (done ++ todo) ->
  events this = done ++ todo ->
  forOf todo (cleanupEvent options cutoff) counts this =
  (inr counts,
   with_events
     (fun _ => done ++ map (rewritten (fun e => dateLt (event_date e) cutoff) archive) todo)
     this).
Proof.
  intros Ha Hi. revert done this.
  induction todo as [|[k e] rest IH]; intros done this Hwf Hm; simpl.
  - unfold ret, with_events. rewrite <- Hm. now destruct this.
  - assert (Hni : ~ In k (JsMap.keys done)).
    { unfold JsMap.wf, JsMap.keys in Hwf. rewrite map_app in Hwf. simpl in Hwf.
      apply NoDup_remove_2 in Hwf. intros I. apply Hwf. apply in_or_app. now left. }
    unfold bind, cleanupEvent at 1, rewritten at 1. destruct counts as [ec rc].
    cbn [fst snd]. rewrite Ha, Hi.
    destruct (dateLt (event_date e) cutoff) eqn:Hd.
    + unfold bind, modify, ret.
      rewrite (IH (done ++ [(k, archive e)])).
      * unfold with_events; simpl. now rewrite <- app_assoc.
      * unfold JsMap.wf, JsMap.keys in *. rewrite <- app_assoc. simpl.
        rewrite map_app in *. exact Hwf.
      * unfold with_events; simpl. rewrite Hm, set_middle by exact Hni.
        now rewrite <- app_assoc.
    + unfold ret. rewrite (IH (done ++ [(k, e)])).
      * now rewrite <- app_assoc.
      * now rewrite <- app_assoc.
      * now rewrite <- app_assoc.
Qed.

Lemma cleanupData_archiving (now : Date) (options : CleanupOptions)
    (this : RsvpService) :
  flag (co_archive options) = true ->
  flag (co_includeRSVPs options) = false ->
  JsMap.wf (events this) ->
  cleanupData now options this =
  (inr (0, 0),
   with_events
     (map (rewritten
             (fun e => dateLt (event_date e)
                              (now - or_default (co_maxAge options) 30 * day_ms))
             archive)) this).
Proof.
  intros Ha Hi Hwf. unfold cleanupData, wrapping, bind, gets, JsMap.entries.
  now rewrite (archive_loop options _ (events this) [] (0, 0) this Ha Hi Hwf eq_refl).
Qed.

Lemma get_map_rewritten {V} (p : V -> bool) (g : V -> V) (k : string) (v : V)
    (m : JsMap.t V) :
  JsMap.get k m = Some v -> p v = false ->
  JsMap.get k (map (rewritten p g) m) = Some v.
Proof.
  intros Hg Hp. induction m as [|[k' v'] m IH]; simpl in *; [discriminate|].
  unfold rewritten at 1. simpl.
  destruct (String.eqb k k') eqn:E.
  - injection Hg as ->. rewrite Hp. simpl. now rewrite E.
  - destruct (p v'); simpl; rewrite E; now apply IH.
Qed.

(** C2 does not hold of the code: [maxAge: 0] is replaced by the default of
    30 days ([options.maxAge || 30]), so in every store state an event dated
    one day in the past is left as it is by
    [cleanupData({maxAge: 0, archive: true})]: the call returns
    [{events: 0, rsvps: 0}] and [getEvent] still returns the event, with the
    [archived] flag it had before. *)
Theorem cleanupData_maxAge_zero_spares_yesterday
    (now : Date) (this : RsvpService) (key : string) (E : Event) :
  JsMap.wf (events this) ->
  JsMap.get key (events this) = Some E ->
  event_date E = now - day_ms ->
  let after := snd (cleanupData now (mkCleanupOptions (Some 0) (Some true) None) this) in
  fst (cleanupData now (mkCleanupOptions (Some 0) (Some true) None) this) = inr (0, 0) /\
  getEvent key after = (inr (Some E), after).
Proof.
  intros Hwf Hget Hdate after. subst after.
  rewrite cleanupData_archiving by (reflexivity || exact Hwf).
  cbn [fst snd]. split; [reflexivity|].
  unfold getEvent, wrapping, gets, with_events; cbn [events].
  erewrite get_map_rewritten; [reflexivity | exact Hget |].
  rewrite Hdate. cbn [co_maxAge or_default Z.eqb]. unfold dateLt.
  replace (now - day_ms <? now - 30 * day_ms) with false
    by (symmetry; apply Z.ltb_ge; unfold day_ms; lia).
  apply andb_false_r.
Qed.

(** The failing input: the event [game], created at time 1000 for the next
    day, and [cleanupData({maxAge: 0, archive: true})] called one day after
    the event's date. The event is returned by [getEvent] with no [archived]
    flag. *)
Lemma cleanupData_maxAge_zero_spares_yesterday_witness :
  let this := run [CreateEvent 1000 Sample.game] newService in
  let after := snd (cleanupData Sample.dayAfterGame Sample.archiveAll this) in
  fst (cleanupData Sample.dayAfterGame Sample.archiveAll this) = inr (0, 0) /\
  getEvent "1" after = (inr (Some Sample.game), after) /\
  archived Sample.game = None.
Proof.
  intros this after.
  destruct (cleanupData_maxAge_zero_spares_yesterday
              Sample.dayAfterGame this "1" Sample.game) as [H1 H2].
  - unfold JsMap.wf. vm_compute. repeat constructor. simpl. tauto.
  - reflexivity.
  - vm_compute. reflexivity.
  - split; [exact H1|]. split; [exact H2 | reflexivity].
Defined.

(** ** The persistence gateway *)

Module FileStorageFacts.
Import Js FileStorage.

Lemma stringify_entries (m : JsMap.t value) :
  stringify (arrayFromEntries m) =
  Some (JArr (map (fun kv => JArr [JStr (fst kv); toJSON (snd kv)]) m)).
Proof.
  unfold arrayFromEntries. cbn [stringify]. rewrite map_map. reflexivity.
Qed.

Lemma save_writes (data : StorageData) :
  save data None =
  (inr tt,
   Some (JObj
     [("rsvpEntries",
       JArr (map (fun kv => JArr [JStr (fst kv); toJSON (snd kv)])
                 (c_rsvpEntries (ofStorageData data))));
      ("events",
       JArr (map (fun kv => JArr [JStr (fst kv); toJSON (snd kv)])
                 (c_events (ofStorageData data))));
      ("waitlist",
       JArr (map (fun kv => JArr [JStr (fst kv); toJSON (snd kv)])
                 (c_waitlist (ofStorageData data))));
      ("reminders",
       JArr (map (fun kv => JArr [JStr (fst kv); toJSON (snd kv)])
                 (c_reminders (ofStorageData data))))])).
Proof.
  unfold save. cbn [stringify]. rewrite !stringify_entries. reflexivity.
Qed.

Lemma newMap_entries (m : JsMap.t value) :
  newMap (Arr (map parse (map (fun kv => JArr [JStr (fst kv); toJSON (snd kv)]) m))) =
  Some (fold_left (fun acc kv => JsMap.set (fst kv) (reparsed (snd kv)) acc) m JsMap.empty).
Proof.
  unfold newMap. generalize (@JsMap.empty value) as acc.
  induction m as [|[k v] m IH]; intros acc; simpl; [reflexivity|].
  apply IH.
Qed.

Lemma get_fold_set_other (k : string) (m acc : JsMap.t value) :
  ~ In k (JsMap.keys m) ->
  JsMap.get k (fold_left (fun acc kv => JsMap.set (fst kv) (reparsed (snd kv)) acc) m acc)
  = JsMap.get k acc.
Proof.
  revert acc. induction m as [|[k' v'] m IH]; intros acc Hni; simpl in *; [reflexivity|].
  rewrite IH by tauto. apply JsMapFacts.get_set_other. intros ->. tauto.
Qed.

Lemma get_fold_set (k : string) (v : value) (m acc : JsMap.t value) :
  JsMap.wf m -> JsMap.get k m = Some v ->
  JsMap.get k (fold_left (fun acc kv => JsMap.set (fst kv) (reparsed (snd kv)) acc) m acc)
  = Some (reparsed v).
Proof.
  unfold JsMap.wf. revert acc.
  induction m as [|[k' v'] m IH]; intros acc Hwf Hg; simpl in *; [discriminate|].
  inversion Hwf as [|? ? Hni Hwf']; subst.
  destruct (String.eqb_spec k k') as [->|Hne].
  - injection Hg as ->. rewrite get_fold_set_other by exact Hni.
    apply JsMapFacts.get_set_same.
  - now apply IH.
Qed.

(** What [load] returns for the file that [save] wrote. *)
Lemma save_then_load_eq (data : StorageData) :
  let reload m :=
    fold_left (fun acc kv => JsMap.set (fst kv) (reparsed (snd kv)) acc) m JsMap.empty in
  save_then_load data =
  inr (mkCollections
         (reload (c_rsvpEntries (ofStorageData data)))
         (reload (c_events (ofStorageData data)))
         (reload (c_waitlist (ofStorageData data)))
         (reload (c_reminders (ofStorageData data)))).
Proof.
  intros reload. unfold save_then_load. rewrite save_writes. cbn [snd load].
  cbn [parse prop JsMap.get String.eqb Ascii.eqb Bool.eqb map fst snd].
  now rewrite !newMap_entries.
Qed.

Lemma reparsed_event_date (e : Event) :
  prop "date" (reparsed (ofEvent e)) =
  if validTime (event_date e) then Str (toISOString (event_date e)) else Null.
Proof.
  unfold reparsed, toJSON, ofEvent.
  destruct (archived e); cbn -[validTime toISOString];
    destruct (validTime (event_date e)); reflexivity.
Qed.

End FileStorageFacts.

Lemma get_mapValues {V W} (f : V -> W) (k : string) (m : JsMap.t V) :
  JsMap.get k (FileStorage.mapValues f m) =
  match JsMap.get k m with Some v => Some (f v) | None => None end.
Proof.
  induction m as [|[k' v'] m IH]; simpl; [reflexivity|].
  destruct (String.eqb k k'); [reflexivity | exact IH].
Qed.

Lemma wf_mapValues {V W} (f : V -> W) (m : JsMap.t V) :
  JsMap.wf m -> JsMap.wf (FileStorage.mapValues f m).
Proof.
  unfold JsMap.wf, JsMap.keys, FileStorage.mapValues. now rewrite map_map.
Qed.

(** C1 does not hold of the code: [load] parses the file without reviving
    dates, so for every snapshot every stored event comes back with its
    [date] as the ISO string that [save] wrote (or [null] for an invalid
    date), not as a [Date]; the reloaded collections differ from the
    originals. *)
Theorem save_then_load_returns_date_strings
    (data : StorageData) (key : string) (e : Event) :
  JsMap.wf (sd_events data) ->
  JsMap.get key (sd_events data) = Some e ->
  exists loaded v,
    FileStorage.save_then_load data = inr loaded /\
    JsMap.get key (FileStorage.c_events loaded) = Some v /\
    Js.prop "date" v =
      (if Js.validTime (event_date e)
       then Js.Str (Js.toISOString (event_date e)) else Js.Null) /\
    Js.prop "date" (FileStorage.ofEvent e) = Js.DateObj (event_date e) /\
    FileStorage.save_then_load data <> inr (FileStorage.ofStorageData data).
Proof.
  intros Hwf Hget.
  pose proof (FileStorageFacts.save_then_load_eq data) as Heq. cbv zeta in Heq.
  assert (Hsrc : JsMap.get key (FileStorage.c_events (FileStorage.ofStorageData data))
                 = Some (FileStorage.ofEvent e)).
  { unfold FileStorage.ofStorageData; cbn [FileStorage.c_events].
    now rewrite get_mapValues, Hget. }
  assert (Hwf' : JsMap.wf (FileStorage.c_events (FileStorage.ofStorageData data))).
  { unfold FileStorage.ofStorageData; cbn [FileStorage.c_events].
    now apply wf_mapValues. }
  pose proof (FileStorageFacts.get_fold_set key _ _ JsMap.empty Hwf' Hsrc) as Hload.
  pose proof (FileStorageFacts.reparsed_event_date e) as Hdate.
  eexists. exists (Js.reparsed (FileStorage.ofEvent e)).
  split; [exact Heq|]. cbn [FileStorage.c_events].
  split; [exact Hload|]. split; [exact Hdate|]. split; [reflexivity|].
  rewrite Heq. intros Hsame. injection Hsame as _ Hev _ _.
  unfold FileStorage.ofStorageData in Hload, Hsrc, Hev.
  cbn [FileStorage.c_events] in Hload, Hsrc, Hev.
  rewrite Hev in Hload. rewrite Hsrc in Hload.
  assert (Hv : Js.reparsed (FileStorage.ofEvent e) = FileStorage.ofEvent e)
    by congruence.
  assert (Hd : Js.prop "date" (FileStorage.ofEvent e) = Js.DateObj (event_date e))
    by reflexivity.
  rewrite Hv, Hd in Hdate.
  destruct (Js.validTime (event_date e)); discriminate.
Qed.

(** The failing input: a snapshot holding one event dated
    1970-01-02T00:00:01.000Z. After [save] and [load] its [date] is that
    string. *)
Lemma save_then_load_returns_date_strings_witness :
  exists loaded v,
    FileStorage.save_then_load Sample.oneEvent = inr loaded /\
    JsMap.get "1" (FileStorage.c_events loaded) = Some v /\
    Js.prop "date" v = Js.Str "1970-01-02T00:00:01.000Z" /\
    Js.prop "date" (FileStorage.ofEvent Sample.game) = Js.DateObj 86401000 /\
    FileStorage.save_then_load Sample.oneEvent <>
      inr (FileStorage.ofStorageData Sample.oneEvent).
Proof.
  destruct (save_then_load_returns_date_strings Sample.oneEvent "1" Sample.game)
    as (loaded & v & H1 & H2 & H3 & H4 & H5).
  - unfold JsMap.wf. vm_compute. repeat constructor. simpl. tauto.
  - reflexivity.
  - exists loaded, v. repeat split; assumption.
Defined.

(** The same run, evaluated. *)
Example save_then_load_oneEvent :
  FileStorage.save_then_load Sample.oneEvent =
  inr (FileStorage.mkCollections
         []
         [("1", Js.Obj [("id", Js.Str "1"); ("name", Js.Str "Game");
                        ("description", Js.Str "Five-a-side");
                        ("date", Js.Str "1970-01-02T00:00:01.000Z");
                        ("location", Js.Str "Park");
                        ("maxPlayers", Js.Num 2)])]
         [] []).
Proof. reflexivity. Qed.

(** ** The capacity invariant *)

Lemma forOf_preserves_In {A B} (P : RsvpService -> Prop) (body : B -> A -> M B)
    (xs : list A) :
  (forall acc x s, In x xs -> P s -> P (snd (body acc x s))) ->
  forall acc s, P s -> P (snd (forOf xs body acc s)).
Proof.
  induction xs as [|x xs IH]; intros Hbody acc s Hs; simpl.
  - exact Hs.
  - unfold bind. pose proof (Hbody acc x s (or_introl eq_refl) Hs) as Hx.
    destruct (body acc x s) as [[e|acc'] s']; simpl in *; [exact Hx|].
    apply IH; [|exact Hx]. intros acc0 y s0 Hy. apply Hbody. now right.
Qed.

Lemma count_set_le (q : RsvpEntry -> bool) (k : string) (v : RsvpEntry)
    (m : JsMap.t RsvpEntry) :
  count_where q (JsMap.values (JsMap.set k v m)) <=
  count_where q (JsMap.values m) + (if q v then 1 else 0).
Proof.
  unfold count_where, JsMap.values.
  induction m as [|[k' v'] m IH]; cbn [JsMap.set map snd filter].
  - destruct (q v); cbn [List.length]; lia.
  - destruct (String.eqb k k'); cbn [map snd filter];
      destruct (q v); destruct (q v'); cbn [List.length]; lia.
Qed.

Lemma count_filter_le (q : RsvpEntry -> bool) (f : string * RsvpEntry -> bool)
    (m : JsMap.t RsvpEntry) :
  count_where q (JsMap.values (filter f m)) <= count_where q (JsMap.values m).
Proof.
  unfold count_where, JsMap.values.
  induction m as [|kv m IH]; cbn [map filter]; [lia|].
  destruct (f kv); cbn [map filter]; destruct (q (snd kv)); cbn [List.length]; lia.
Qed.

Lemma count_rewritten (q p : RsvpEntry -> bool) (g : RsvpEntry -> RsvpEntry)
    (m : JsMap.t RsvpEntry) :
  (forall e, q (g e) = q e) ->
  count_where q (JsMap.values (map (rewritten p g) m)) =
  count_where q (JsMap.values m).
Proof.
  intros Hq. unfold count_where, JsMap.values. f_equal.
  induction m as [|[k e] m IH]; cbn [map filter]; [reflexivity|].
  unfold rewritten at 1. cbn [fst snd].
  destruct (p e); cbn [snd]; rewrite ?Hq; destruct (q e);
    cbn [List.length]; now rewrite IH.
Qed.

Lemma keys_rewritten {V} (p : V -> bool) (g : V -> V) (m : JsMap.t V) :
  JsMap.keys (map (rewritten p g) m) = JsMap.keys m.
Proof.
  unfold JsMap.keys. rewrite map_map. apply map_ext.
  intros [k v]. unfold rewritten. simpl. now destruct (p v).
Qed.

Lemma yesCount_le_total (id : string) (this : RsvpService) :
  yesCount id this <= yesTotal this.
Proof.
  unfold yesCount, yesTotal, count_where.
  induction (JsMap.values (rsvpEntries this)) as [|e l IH]; cbn [filter]; [lia|].
  destruct (String.eqb (e_eventId e) id); destruct (isYes e);
    cbn [andb List.length]; lia.
Qed.

Lemma shrinks_refl (s : RsvpService) : shrinks s s.
Proof.
  repeat split; try tauto; try lia.
  intros key event' H. now exists event'.
Qed.

Lemma shrinks_trans (a b c : RsvpService) : shrinks a b -> shrinks b c -> shrinks a c.
Proof.
  intros (A1 & A2 & A3 & A4) (B1 & B2 & B3 & B4). repeat split.
  - intros q. specialize (A1 q). specialize (B1 q). lia.
  - tauto.
  - tauto.
  - intros key e3 H3. destruct (B4 _ _ H3) as (e2 & H2 & I2 & M2).
    destruct (A4 _ _ H2) as (e1 & H1 & I1 & M1).
    exists e1. repeat split; [exact H1 | congruence | congruence].
Qed.

Lemma shrinks_entries_filter (f : string * RsvpEntry -> bool) (s : RsvpService) :
  shrinks s (with_rsvpEntries (filter f) s).
Proof.
  unfold with_rsvpEntries. repeat split; cbn [rsvpEntries events]; try tauto.
  - intros q. apply count_filter_le.
  - apply JsMapFacts.wf_filter.
  - intros key event' H. now exists event'.
Qed.

Lemma shrinks_events_delete (k : string) (s : RsvpService) :
  shrinks s (with_events (JsMap.delete k) s).
Proof.
  unfold with_events. repeat split; cbn [rsvpEntries events]; try tauto; try lia.
  - apply JsMapFacts.wf_delete.
  - intros key event' H. exists event'.
    split; [now apply JsMapFacts.delete_incl in H | tauto].
Qed.

Lemma shrinks_archive (s0 s : RsvpService) (k : string) (e : Event) :
  shrinks s0 s -> In (k, e) (JsMap.entries (events s0)) ->
  shrinks s0 (with_events (JsMap.set k (archive e)) s).
Proof.
  intros (A1 & A2 & A3 & A4) Hin. unfold with_events.
  repeat split; cbn [rsvpEntries events].
  - exact A1.
  - exact A2.
  - intros H. apply JsMapFacts.wf_set. tauto.
  - intros key event' H. apply JsMapFacts.In_set in H as [[-> ->]|H].
    + exists e. repeat split. exact Hin.
    + now apply A4.
Qed.

Lemma shrinks_keeps_invariant (s s' : RsvpService) :
  shrinks s s' ->
  wellKeyed s /\ withinCapacity s -> wellKeyed s' /\ withinCapacity s'.
Proof.
  intros (A1 & A2 & A3 & A4) [(W1 & W2 & W3) Hcap]. split; [repeat split|].
  - tauto.
  - tauto.
  - intros key event' H. destruct (A4 _ _ H) as (event & Hin & Hid & _).
    rewrite Hid. now apply W3.
  - intros key event' H. destruct (A4 _ _ H) as (event & Hin & Hid & Hmax).
    specialize (Hcap _ _ Hin). unfold yesCount in *. rewrite Hid, Hmax.
    specialize (A1 (fun entry => String.eqb (e_eventId entry) (event_id event)
                                 && isYes entry)).
    lia.
Qed.

Lemma same_maps_keep_invariant (s s' : RsvpService) :
  events s' = events s -> rsvpEntries s' = rsvpEntries s ->
  wellKeyed s /\ withinCapacity s -> wellKeyed s' /\ withinCapacity s'.
Proof.
  intros He Hr. unfold wellKeyed, withinCapacity, yesCount. now rewrite He, Hr.
Qed.

Lemma events_set_keeps (s : RsvpService) (k : string) (ev : Event) :
  event_id ev = k ->
  yesCount k s <= maxPlayers ev ->
  wellKeyed s /\ withinCapacity s ->
  wellKeyed (with_events (JsMap.set k ev) s) /\
  withinCapacity (with_events (JsMap.set k ev) s).
Proof.
  intros Hid Hcnt [(W1 & W2 & W3) Hcap].
  unfold wellKeyed, withinCapacity, yesCount, with_events in *;
    cbn [events rsvpEntries] in *.
  split; [repeat split|].
  - now apply JsMapFacts.wf_set.
  - exact W2.
  - intros key event H. apply JsMapFacts.In_set in H as [[-> ->]|H]; auto.
  - intros key event H. apply JsMapFacts.In_set in H as [[-> ->]|H].
    + now rewrite Hid.
    + now apply (Hcap key).
Qed.

Lemma entries_set_keeps (s : RsvpService) (now : Date) (id : string) (p : Player)
    (st : RsvpStatus) (nt : option string) (event : Event) :
  JsMap.get id (events s) = Some event ->
  (st = "Yes" -> yesTotal s < maxPlayers event) ->
  wellKeyed s /\ withinCapacity s ->
  let s' := with_rsvpEntries
              (JsMap.set (rsvpKey id (player_id p)) (mkRsvpEntry id p st now nt)) s in
  wellKeyed s' /\ withinCapacity s'.
Proof.
  intros Hget Hroom [(W1 & W2 & W3) Hcap] s'. split; [repeat split|].
  - exact W1.
  - apply JsMapFacts.wf_set. exact W2.
  - exact W3.
  - intros key E HE. cbn [events s' with_rsvpEntries] in HE.
    pose proof (Hcap key E HE) as Hold.
    set (q := fun entry => String.eqb (e_eventId entry) (event_id E) && isYes entry).
    pose proof (count_set_le q (rsvpKey id (player_id p))
                  (mkRsvpEntry id p st now nt) (rsvpEntries s)) as Hq.
    unfold yesCount in *. fold q in Hold. fold q.
    cbn [rsvpEntries s' with_rsvpEntries].
    destruct (q (mkRsvpEntry id p st now nt)) eqn:Eq; [|lia].
    unfold q, isYes in Eq. cbn [e_eventId e_status] in Eq.
    apply andb_true_iff in Eq as [Eid Est].
    apply String.eqb_eq in Eid, Est.
    assert (E = event) as ->.
    { rewrite (W3 key E HE) in Eid. subst key.
      apply (JsMapFacts.In_get _ _ _ W1) in HE. congruence. }
    specialize (Hroom Est).
    pose proof (yesCount_le_total (event_id event) s') as Hle.
    pose proof (count_set_le isYes (rsvpKey id (player_id p))
                  (mkRsvpEntry id p st now nt) (rsvpEntries s)) as Ht.
    unfold yesCount, yesTotal in *. fold q in Hle.
    cbn [rsvpEntries s' with_rsvpEntries] in Hle.
    destruct (isYes (mkRsvpEntry id p st now nt)); lia.
Qed.

Lemma entries_rewritten_keep (s : RsvpService) (p : RsvpEntry -> bool)
    (g : RsvpEntry -> RsvpEntry) :
  (forall e, e_eventId (g e) = e_eventId e /\ e_status (g e) = e_status e) ->
  wellKeyed s /\ withinCapacity s ->
  wellKeyed (with_rsvpEntries (map (rewritten p g)) s) /\
  withinCapacity (with_rsvpEntries (map (rewritten p g)) s).
Proof.
  intros Hg [(W1 & W2 & W3) Hcap].
  unfold wellKeyed, withinCapacity, yesCount, with_rsvpEntries in *;
    cbn [events rsvpEntries] in *.
  split; [repeat split|]; auto.
  - unfold JsMap.wf in *. now rewrite keys_rewritten.
  - intros key event H. rewrite count_rewritten; [now apply (Hcap key)|].
    intros e. destruct (Hg e) as [-> H2]. unfold isYes. now rewrite H2.
Qed.

Lemma updateEvent_unfold (now : Date) (id : string) (update : EventUpdate)
    (this : RsvpService) :
  updateEvent now id update this =
  match JsMap.get id (events this) with
  | None => (inl (ValidationError "Event not found"), this)
  | Some event =>
      match RsvpValidator.validateEvent now (mergeEvent event update) with
      | inl e => (inl e, this)
      | inr _ => (inr (mergeEvent event update),
                  with_events (JsMap.set id (mergeEvent event update)) this)
      end
  end.
Proof.
  unfold updateEvent, rethrowing, bind, gets, lift, throw, ret, modify.
  destruct (JsMap.get id (events this)) as [event|]; [|reflexivity].
  destruct (RsvpValidator.validateEvent now _) as [e|[]] eqn:Hv; [|reflexivity].
  apply validateEvent_error in Hv as [m ->]. reflexivity.
Qed.

Lemma updateRsvp_keeps (now : Date) (id : string) (p : Player) (st : RsvpStatus)
    (nt : option string) (s : RsvpService) :
  wellKeyed s /\ withinCapacity s ->
  wellKeyed (snd (updateRsvp now id p st nt s)) /\
  withinCapacity (snd (updateRsvp now id p st nt s)).
Proof.
  intros Hinv. rewrite updateRsvp_unfold.
  destruct (JsMap.get id (events s)) as [event|] eqn:Hget; [|exact Hinv].
  destruct (RsvpValidator.validatePlayer p) as [e|[]]; [exact Hinv|].
  destruct (RsvpValidator.validateRsvpStatus st) as [e|[]]; [exact Hinv|].
  destruct (String.eqb_spec st "Yes") as [Hy|Hn]; cbn [andb].
  - destruct (Z.leb_spec (maxPlayers event) (yesTotal s)); [exact Hinv|].
    cbn [snd]. eapply entries_set_keeps; eauto.
  - cbn [snd]. eapply entries_set_keeps; eauto. intros; contradiction.
Qed.

Lemma batchItem_keeps (clock : nat -> Date) (results : list RsvpEntry)
    (u : BatchRsvpUpdate) (s : RsvpService) :
  wellKeyed s /\ withinCapacity s ->
  wellKeyed (snd (batchItem clock results u s)) /\
  withinCapacity (snd (batchItem clock results u s)).
Proof.
  intros Hinv. unfold batchItem, bind, gets, throw, ret.
  destruct (JsMap.get (bu_eventId u) (events s)) as [found|]; [|exact Hinv].
  destruct (getPlayerById (bu_playerId u) s) as [player|]; [|exact Hinv].
  pose proof (updateRsvp_keeps (clock (List.length results)) (bu_eventId u) player
                (bu_status u) None s Hinv) as H.
  destruct (updateRsvp _ _ _ _ _ s) as [[err|entry] s']; exact H.
Qed.

Lemma deleteEvent_shrinks (id : string) (s : RsvpService) :
  shrinks s (snd (deleteEvent id s)).
Proof.
  rewrite deleteEvent_unfold. destruct (JsMap.has id (events s)); cbn [snd].
  - eapply shrinks_trans; [|apply shrinks_events_delete].
    apply shrinks_entries_filter.
  - apply shrinks_refl.
Qed.

Lemma cancelRsvp_shrinks (id playerId : string) (s : RsvpService) :
  shrinks s (snd (cancelRsvp id playerId s)).
Proof.
  unfold cancelRsvp. rewrite rethrowing_snd. unfold bind, gets, throw, ret, modify.
  destruct (JsMap.has _ _); cbn [negb snd].
  - apply shrinks_entries_filter.
  - apply shrinks_refl.
Qed.

Lemma removePlayer_shrinks (playerId : string) (s : RsvpService) :
  shrinks s (snd (removePlayer playerId s)).
Proof.
  unfold removePlayer. rewrite rethrowing_snd. unfold bind, gets, throw.
  destruct (getPlayerById playerId s); cbn [snd]; [|apply shrinks_refl].
  unfold JsMap.entries.
  rewrite (delete_loop (fun entry => String.eqb (player_id (e_player entry)) playerId)).
  apply shrinks_entries_filter.
Qed.

Lemma cleanupEvent_shrinks (options : CleanupOptions) (cutoff : Date)
    (s0 s : RsvpService) (counts : Z * Z) (item : string * Event) :
  In item (JsMap.entries (events s0)) ->
  shrinks s0 s ->
  shrinks s0 (snd (cleanupEvent options cutoff counts item s)).
Proof.
  intros Hin Hs. destruct counts as [ec rc], item as [k e].
  unfold cleanupEvent.
  destruct (dateLt (event_date e) cutoff); [|exact Hs].
  set (inner := fun (n : Z) (s1 : RsvpService) =>
         forOf (JsMap.entries (rsvpEntries s1))
           (fun cleaned '(key, entry) =>
              if String.eqb (e_eventId entry) k
              then modify (with_rsvpEntries (JsMap.delete key)) ;;; ret (cleaned + 1)
              else ret cleaned) n s1).
  assert (Hinner : forall n s1, shrinks s0 s1 -> shrinks s0 (snd (inner n s1))).
  { intros n s1 H1. unfold inner.
    apply forOf_preserves; [|exact H1].
    intros acc [key entry] s2 H2.
    destruct (String.eqb (e_eventId entry) k); [|exact H2].
    unfold bind, modify, ret. cbn [snd].
    eapply shrinks_trans; [exact H2|]. apply shrinks_entries_filter. }
  assert (Hfirst : forall s1, shrinks s0 s1 ->
            shrinks s0 (snd (
              (if flag (co_archive options)
               then modify (with_events (JsMap.set k (archive e))) ;;; ret ec
               else modify (with_events (JsMap.delete k)) ;;; ret (ec + 1)) s1))).
  { intros s1 H1. destruct (flag (co_archive options));
      unfold bind, modify, ret; cbn [snd].
    - now apply shrinks_archive.
    - eapply shrinks_trans; [exact H1|]. apply shrinks_events_delete. }
  unfold bind at 1. specialize (Hfirst s Hs).
  destruct ((if flag (co_archive options)
             then modify (with_events (JsMap.set k (archive e))) ;;; ret ec
             else modify (with_events (JsMap.delete k)) ;;; ret (ec + 1)) s)
    as [[err|ec'] s1]; cbn [snd] in Hfirst; [exact Hfirst|].
  destruct (flag (co_includeRSVPs options)); [|exact Hfirst].
  unfold bind, gets. specialize (Hinner rc s1 Hfirst). unfold inner in Hinner.
  destruct (forOf (JsMap.entries (rsvpEntries s1)) _ rc s1) as [[err|rc'] s2];
    exact Hinner.
Qed.

Lemma cleanupData_shrinks (now : Date) (options : CleanupOptions) (s : RsvpService) :
  shrinks s (snd (cleanupData now options s)).
Proof.
  unfold cleanupData. rewrite wrapping_snd. unfold bind, gets.
  apply forOf_preserves_In; [|apply shrinks_refl].
  intros acc x s1 Hin H1. now apply cleanupEvent_shrinks.
Qed.

Lemma addToWaitlist_frame (now : Date) (id : string) (p : Player) (s : RsvpService) :
  events (snd (addToWaitlist now id p s)) = events s /\
  rsvpEntries (snd (addToWaitlist now id p s)) = rsvpEntries s.
Proof.
  unfold addToWaitlist. rewrite rethrowing_snd.
  unfold bind, gets, throw, ret, modify.
  destruct (JsMap.get id (events s)); [|now split].
  destruct (JsMap.get _ (rsvpEntries s)); now split.
Qed.

Lemma notifyWaitlist_frame (clock : nat -> Date) (id : string) (s : RsvpService) :
  events (snd (notifyWaitlist clock id s)) = events s /\
  rsvpEntries (snd (notifyWaitlist clock id s)) = rsvpEntries s.
Proof.
  unfold notifyWaitlist. rewrite rethrowing_snd.
  unfold bind, gets, throw, ret, modify.
  destruct (JsMap.get id (events s)); [|now split].
  destruct (_ <=? 0); [now split|].
  destruct (JsMap.get id (waitlist s)); now split.
Qed.

Lemma setupReminders_frame (now now' : Date) (id : string) (interval : Z)
    (s : RsvpService) :
  events (snd (setupReminders now now' id interval s)) = events s /\
  rsvpEntries (snd (setupReminders now now' id interval s)) = rsvpEntries s.
Proof.
  unfold setupReminders. rewrite rethrowing_snd.
  unfold bind, gets, throw, ret, modify.
  destruct (JsMap.get id (events s)); now split.
Qed.

Lemma sendReminders_frame (now : Date) (s : RsvpService) :
  events (snd (sendReminders now s)) = events s /\
  rsvpEntries (snd (sendReminders now s)) = rsvpEntries s.
Proof.
  unfold sendReminders. rewrite wrapping_snd. unfold bind at 1, gets at 1.
  apply (forOf_preserves
           (fun s' => events s' = events s /\ rsvpEntries s' = rsvpEntries s));
    [|now split].
  intros acc [id reminder] s1 H1.
  destruct (dateLe (nextSendAt reminder) now); [|exact H1].
  unfold bind, gets, modify, ret.
  destruct (JsMap.get id (events s1)); exact H1.
Qed.

Lemma updatePlayer_keeps (playerId : string) (update : PlayerUpdate)
    (s : RsvpService) :
  wellKeyed s /\ withinCapacity s ->
  wellKeyed (snd (updatePlayer playerId update s)) /\
  withinCapacity (snd (updatePlayer playerId update s)).
Proof.
  intros Hinv. rewrite updatePlayer_unfold by apply Hinv.
  destruct (getPlayerById playerId s) as [player|]; [|exact Hinv].
  destruct (RsvpValidator.validatePlayer _) as [e|[]]; [exact Hinv|].
  cbn [snd]. apply entries_rewritten_keep; [|exact Hinv].
  intros e. now split.
Qed.

(** Every public operation that respects [keepsCapacity] preserves the
    invariant. *)
Lemma perform_keeps_invariant (op : Op) (s : RsvpService) :
  keepsCapacity s op ->
  wellKeyed s /\ withinCapacity s ->
  wellKeyed (perform op s) /\ withinCapacity (perform op s).
Proof.
  intros Hok Hinv.
  destruct op as [now event | now id update | id | now id p st nt | clock updates
                 | id playerId | playerId update | playerId | now id p | clock id
                 | now now' id interval | now | now options];
    cbn [perform keepsCapacity] in *.
  - rewrite createEvent_unfold.
    destruct (RsvpValidator.validateEvent now event) as [e|[]]; [exact Hinv|].
    cbn [snd]. now apply events_set_keeps.
  - rewrite updateEvent_unfold.
    destruct (JsMap.get id (events s)) as [event|] eqn:Hget; [|exact Hinv].
    destruct (RsvpValidator.validateEvent now _) as [e|[]]; [exact Hinv|].
    cbn [snd]. apply events_set_keeps; [| |exact Hinv].
    + destruct Hinv as [(_ & _ & W3) _]. change (event_id event = id).
      apply W3. now apply JsMapFacts.get_In.
    + unfold mergeEvent; cbn [maxPlayers].
      destruct (eu_maxPlayers update) as [m|]; [exact Hok|].
      destruct Hinv as [(_ & _ & W3) Hcap].
      apply JsMapFacts.get_In in Hget.
      specialize (Hcap _ _ Hget). now rewrite (W3 _ _ Hget) in Hcap.
  - eapply shrinks_keeps_invariant; [apply deleteEvent_shrinks | exact Hinv].
  - now apply updateRsvp_keeps.
  - unfold batchUpdateRsvps. rewrite rethrowing_snd.
    apply (forOf_preserves (fun s' => wellKeyed s' /\ withinCapacity s'));
      [|exact Hinv].
    intros acc u s1 H1. now apply batchItem_keeps.
  - eapply shrinks_keeps_invariant; [apply cancelRsvp_shrinks | exact Hinv].
  - now apply updatePlayer_keeps.
  - eapply shrinks_keeps_invariant; [apply removePlayer_shrinks | exact Hinv].
  - destruct (addToWaitlist_frame now id p s) as [He Hr].
    eapply same_maps_keep_invariant; eauto.
  - destruct (notifyWaitlist_frame clock id s) as [He Hr].
    eapply same_maps_keep_invariant; eauto.
  - destruct (setupReminders_frame now now' id interval s) as [He Hr].
    eapply same_maps_keep_invariant; eauto.
  - destruct (sendReminders_frame now s) as [He Hr].
    eapply same_maps_keep_invariant; eauto.
  - eapply shrinks_keeps_invariant; [apply cleanupData_shrinks | exact Hinv].
Qed.

Lemma reachable_invariant (s : RsvpService) :
  reachable keepsCapacity s -> wellKeyed s /\ withinCapacity s.
Proof.
  induction 1 as [|s op Hs IH Hok].
  - split; [repeat split|]; try constructor; intros key event [].
  - now apply perform_keeps_invariant.
Qed.

Lemma reachable_run (ops : list Op) (s : RsvpService) :
  reachable anyOp s -> reachable anyOp (run ops s).
Proof.
  revert s. induction ops as [|op ops IH]; intros s Hs; simpl; [exact Hs|].
  apply IH. now constructor.
Qed.

Lemma updateRsvp_not_gated (this : RsvpService) (now : Date) (id : string)
    (p : Player) (st : RsvpStatus) (nt : option string) :
  st <> "Yes" ->
  fst (updateRsvp now id p st nt this) <>
  inl (ValidationError "Event is at maximum capacity").
Proof.
  intros Hst. rewrite updateRsvp_unfold.
  destruct (JsMap.get id (events this)) as [event|]; [|discriminate].
  destruct (RsvpValidator.validatePlayer p) as [e|[]] eqn:Hp.
  { unfold RsvpValidator.validatePlayer in Hp.
    repeat match type of Hp with
           | (if ?c then _ else _) = _ => destruct c
           end; first [discriminate Hp | injection Hp as <-; discriminate]. }
  destruct (RsvpValidator.validateRsvpStatus st) as [e|[]] eqn:Hs.
  { unfold RsvpValidator.validateRsvpStatus in Hs.
    destruct (negb _); first [discriminate Hs | injection Hs as <-; discriminate]. }
  apply String.eqb_neq in Hst. rewrite Hst. discriminate.
Qed.

(** C3, as amended. In every state reachable from the empty store by any
    sequence of public operations in which no [createEvent] or
    [updateEvent] stores, under an event id, a maxPlayers below the number
    of 'Yes' entries already recorded for that id, every stored event E has
    at most E.maxPlayers entries with eventId = E.id and status 'Yes'. In
    every state, a write whose new status is not 'Yes' is never rejected
    for capacity: for a stored event and a valid player it succeeds. *)
Theorem capacity_invariant :
  (forall this, reachable keepsCapacity this -> withinCapacity this) /\
  (forall this now id p st nt,
     st <> "Yes" ->
     fst (updateRsvp now id p st nt this) <>
     inl (ValidationError "Event is at maximum capacity")) /\
  (forall this now id p st nt event,
     JsMap.get id (events this) = Some event ->
     RsvpValidator.validatePlayer p = inr tt ->
     st = "No" \/ st = "Maybe" ->
     fst (updateRsvp now id p st nt this) = inr (mkRsvpEntry id p st now nt)).
Proof.
  split; [|split].
  - intros this H. now apply reachable_invariant.
  - apply updateRsvp_not_gated.
  - intros this now id p st nt event Hget Hp Hst.
    erewrite updateRsvp_accepts; [reflexivity | exact Hget | exact Hp | |].
    + apply validateRsvpStatus_ok. tauto.
    + intros ->. destruct Hst; discriminate.
Qed.

(** The sample store, built by calls that respect the side condition, is
    within capacity, and Ann may decline although the event is full. *)
Lemma capacity_invariant_witness :
  withinCapacity Sample.fullGame /\
  fst (updateRsvp 1004 "1" Sample.ann "No" None Sample.fullGame) =
    inr (mkRsvpEntry "1" Sample.ann "No" 1004 None).
Proof.
  destruct capacity_invariant as (Hinv & _ & Hno).
  split.
  - apply Hinv.
    change Sample.fullGame with
      (perform (UpdateRsvp 1002 "1" Sample.bob "Yes" None)
         (perform (UpdateRsvp 1001 "1" Sample.ann "Yes" None)
            (perform (CreateEvent 1000 Sample.game) newService))).
    apply reachable_step; [apply reachable_step; [apply reachable_step|]|].
    + apply reachable_new.
    + vm_compute. discriminate.
    + exact I.
    + exact I.
  - apply (Hno Sample.fullGame 1004 "1" Sample.ann "No" None Sample.game);
      [reflexivity | reflexivity | now left].
Defined.

(** C3 as stated fails: [updateEvent] may lower maxPlayers below the number
    of confirmed players. After two 'Yes' entries for an event of two
    players, [updateEvent("1", {maxPlayers: 1})] succeeds and leaves two
    'Yes' entries for an event with maxPlayers 1. *)
Lemma capacity_exceeded_after_updateEvent :
  reachable anyOp Sample.overbooked /\
  fst (updateEvent 1003 "1" Sample.shrinkToOne Sample.fullGame) =
    inr (mkEvent "1" "Game" "Five-a-side" 86401000 "Park" 1 None) /\
  JsMap.get "1" (events Sample.overbooked) =
    Some (mkEvent "1" "Game" "Five-a-side" 86401000 "Park" 1 None) /\
  yesCount "1" Sample.overbooked = 2 /\
  ~ withinCapacity Sample.overbooked.
Proof.
  split; [|split; [|split; [|split]]].
  - unfold Sample.overbooked, Sample.fullGame.
    apply reachable_run, reachable_run. constructor.
  - reflexivity.
  - reflexivity.
  - reflexivity.
  - intros H.
    specialize (H "1" (mkEvent "1" "Game" "Five-a-side" 86401000 "Park" 1 None)
                  (or_introl eq_refl)).
    vm_compute in H. now apply H.
Qed.


(* ===================================================================== *)
(** * Further properties of the code *)
(* ===================================================================== *)

(** ** The validators *)

Lemma all_chars_app (p : ascii -> bool) (s t : string) :
  Str.all_chars p (s ++ t)%string = Str.all_chars p s && Str.all_chars p t.
Proof.
  induction s as [|c s IH]; simpl; [reflexivity|].
  now rewrite IH, andb_assoc.
Qed.

Lemma split_first_Some (c : ascii) (s l r : string) :
  Str.split_first c s = Some (l, r) ->
  s = (l ++ String c r)%string /\
  Str.all_chars (fun x => negb (Ascii.eqb x c)) l = true.
Proof.
  revert l. induction s as [|a s IH]; intros l; simpl; [discriminate|].
  destruct (Ascii.eqb_spec a c) as [->|Hne].
  - intros [= <- <-]. now split.
  - destruct (Str.split_first c s) as [[l' r']|]; [|discriminate].
    intros [= <- <-]. destruct (IH l' eq_refl) as [-> Hl]. split; [reflexivity|].
    simpl. rewrite Hl. apply Ascii.eqb_neq in Hne. now rewrite Hne.
Qed.

Lemma split_first_app (c : ascii) (l r : string) :
  Str.all_chars (fun x => negb (Ascii.eqb x c)) l = true ->
  Str.split_first c (l ++ String c r)%string = Some (l, r).
Proof.
  induction l as [|a l IH]; simpl.
  - now rewrite Ascii.eqb_refl.
  - intros H. apply andb_true_iff in H as [Ha Hl].
    apply negb_true_iff in Ha. rewrite Ha. now rewrite IH.
Qed.

Lemma dot_then_more_iff (s : string) :
  Str.dot_then_more s = true <->
  exists r c, s = (r ++ "." ++ c)%string /\ c <> ""%string.
Proof.
  induction s as [|a s IH]; simpl.
  - split; [discriminate|]. intros (r & c & H & _). destruct r; discriminate.
  - rewrite orb_true_iff, andb_true_iff, IH. split.
    + intros [[Ha Hs]|(r & c & -> & Hc)].
      * apply Ascii.eqb_eq in Ha. subst a. exists ""%string, s. split; [reflexivity|].
        intros ->. discriminate.
      * exists (String a r), c. now split.
    + intros (r & c & H & Hc). destruct r as [|b r]; simpl in H.
      * injection H as -> ->. left. split; [reflexivity|]. now destruct c.
      * injection H as -> ->. right. now exists r, c.
Qed.

(** X1. [isValidEmail] accepts exactly the strings of the form
    [a@b.c] with [a], [b], [c] non-empty and free of white space and ["@"]:
    the language of the regular expression in [validators.ts]. *)
Theorem isValidEmail_iff (email : string) :
  RsvpValidator.isValidEmail email = true <-> matchesEmailPattern email.
Proof.
  unfold RsvpValidator.isValidEmail, matchesEmailPattern, plain. split.
  - destruct (Str.split_first "@" email) as [[loc dom]|] eqn:Hsplit; [|discriminate].
    apply split_first_Some in Hsplit as [-> Hloc].
    rewrite !andb_true_iff. intros [[[Ht Hsp] Hdom] Hdot].
    destruct dom as [|x rest]; [discriminate|].
    apply dot_then_more_iff in Hdot as (r & c & -> & Hc).
    exists loc, (String x r), c.
    change (String x (r ++ "." ++ c))%string with (String x r ++ "." ++ c)%string in *.
    rewrite all_chars_app in Hdom. apply andb_true_iff in Hdom as [Hb Hrest].
    change ("." ++ c)%string with (String "." c) in Hrest. simpl in Hrest.
    repeat split; try assumption; try discriminate.
    + intros ->. discriminate.
    + clear - Hsp Hloc. induction loc as [|a l IH]; simpl in *; [reflexivity|].
      apply andb_true_iff in Hsp as [H1 H2]. apply andb_true_iff in Hloc as [H3 H4].
      rewrite IH by assumption. apply negb_true_iff in H1, H3. now rewrite H1, H3.
  - intros (a & b & c & -> & Ha & Hb & Hc & Pa & Pb & Pc).
    assert (Hno : Str.all_chars (fun x => negb (Ascii.eqb x "@")) a = true /\
                  Str.all_chars (fun x => negb (Str.is_space x)) a = true).
    { clear - Pa. induction a as [|x a IH]; simpl in *; [now split|].
      apply andb_true_iff in Pa as [H1 H2]. destruct (IH H2) as [I1 I2].
      apply negb_true_iff, orb_false_iff in H1 as [S1 S2].
      now rewrite I1, I2, S1, S2. }
    destruct Hno as [Hat Hsp].
    change ("@" ++ b ++ "." ++ c)%string with (String "@" (b ++ "." ++ c))%string.
    rewrite split_first_app by exact Hat.
    rewrite Hsp, all_chars_app, Pb.
    change ("." ++ c)%string with (String "." c). simpl Str.all_chars. rewrite Pc.
    destruct a as [|x a]; [contradiction|]. simpl Str.truthy.
    destruct b as [|y b]; [contradiction|]. simpl.
    apply (proj2 (dot_then_more_iff _)). now exists b, c.
Qed.

Lemma validatePlayer_ok (p : Player) :
  RsvpValidator.validatePlayer p = inr tt ->
  Str.truthy (player_id p) = true /\
  Str.truthy (player_name p) = true /\
  Str.blank (player_name p) = false /\
  RsvpValidator.isValidEmail (player_email p) = true.
Proof.
  unfold RsvpValidator.validatePlayer.
  destruct (Str.truthy (player_id p)); [|discriminate].
  destruct (Str.truthy (player_name p)); [|discriminate].
  destruct (Str.blank (player_name p)); [discriminate|].
  destruct (Str.truthy (player_email p)); [|discriminate].
  destruct (RsvpValidator.isValidEmail (player_email p)); [|discriminate].
  now repeat split.
Qed.

Lemma validateEvent_ok (now : Date) (e : Event) :
  RsvpValidator.validateEvent now e = inr tt ->
  Str.truthy (event_id e) = true /\
  Str.truthy (event_name e) = true /\ Str.blank (event_name e) = false /\
  Str.truthy (event_description e) = true /\ Str.blank (event_description e) = false /\
  now <= event_date e /\
  Str.truthy (event_location e) = true /\ Str.blank (event_location e) = false /\
  1 <= maxPlayers e.
Proof.
  unfold RsvpValidator.validateEvent.
  destruct (Str.truthy (event_id e)); [|discriminate].
  destruct (Str.truthy (event_name e)); [|discriminate].
  destruct (Str.blank (event_name e)); [discriminate|].
  destruct (Str.truthy (event_description e)); [|discriminate].
  destruct (Str.blank (event_description e)); [discriminate|].
  destruct (Z.ltb_spec (event_date e) now); [discriminate|].
  destruct (Str.truthy (event_location e)); [|discriminate].
  destruct (Str.blank (event_location e)); [discriminate|].
  destruct (Z.ltb_spec (maxPlayers e) 1); [discriminate|].
  intros _. repeat split; assumption.
Qed.

(** What a successful [updateRsvp] has checked and written. *)
Lemma updateRsvp_success (now : Date) (id : string) (p : Player) (st : RsvpStatus)
    (nt : option string) (this this' : RsvpService) (entry : RsvpEntry) :
  updateRsvp now id p st nt this = (inr entry, this') ->
  exists event,
    JsMap.get id (events this) = Some event /\
    RsvpValidator.validatePlayer p = inr tt /\
    RsvpValidator.validateRsvpStatus st = inr tt /\
    (st = "Yes"%string -> yesTotal this < maxPlayers event) /\
    entry = mkRsvpEntry id p st now nt /\
    this' = with_rsvpEntries (JsMap.set (rsvpKey id (player_id p)) entry) this.
Proof.
  rewrite updateRsvp_unfold.
  destruct (JsMap.get id (events this)) as [event|]; [|discriminate].
  destruct (RsvpValidator.validatePlayer p) as [e|[]]; [discriminate|].
  destruct (RsvpValidator.validateRsvpStatus st) as [e|[]]; [discriminate|].
  destruct (String.eqb_spec st "Yes") as [Hy|Hn]; cbn [andb].
  - destruct (Z.leb_spec (maxPlayers event) (yesTotal this)); [discriminate|].
    intros [= <- <-]. exists event. repeat split; auto.
  - intros [= <- <-]. exists event. repeat split; auto. intros; contradiction.
Qed.

(** X2. The two validators of the repository disagree on the status
    values: every entry that a successful [updateRsvp] writes is rejected
    by [validateRsvp] of [utils/validator.ts] with 'Invalid RSVP status',
    since that one accepts the lower-case words only. *)
Theorem written_entry_fails_validateRsvp (now : Date) (id : string) (p : Player)
    (st : RsvpStatus) (nt : option string) (this this' : RsvpService)
    (entry : RsvpEntry) :
  updateRsvp now id p st nt this = (inr entry, this') ->
  Validator.validateRsvp entry =
  inl (Validator.mkValidationError "Invalid RSVP status").
Proof.
  intros H. apply updateRsvp_success in H as (event & _ & Hp & Hs & _ & Hentry & _).
  subst entry. apply validatePlayer_ok in Hp as (Hid & Hname & _).
  apply validateRsvpStatus_ok in Hs.
  unfold Validator.validateRsvp. cbn [e_player e_status e_eventId].
  rewrite Hid, Hname. cbn [negb orb].
  destruct Hs as [-> | [-> | ->]]; reflexivity.
Qed.

Lemma written_entry_fails_validateRsvp_witness :
  Validator.validateRsvp (mkRsvpEntry "1" Sample.cy "Maybe" 1003 None) =
  inl (Validator.mkValidationError "Invalid RSVP status").
Proof.
  apply (written_entry_fails_validateRsvp 1003 "1" Sample.cy "Maybe" None
           Sample.fullGame
           (snd (updateRsvp 1003 "1" Sample.cy "Maybe" None Sample.fullGame))).
  reflexivity.
Defined.

(** X3. An event accepted by [validateEvent] of [utils/validators.ts], the
    validator the service uses, is accepted by [validateEvent] of
    [utils/validator.ts] as well. *)
Theorem validateEvent_implies_second (now : Date) (event : Event) :
  RsvpValidator.validateEvent now event = inr tt ->
  Validator.validateEvent event = inr tt.
Proof.
  intros H. apply validateEvent_ok in H as (Hid & Hn & _ & _ & _ & _ & Hl & _ & Hm).
  unfold Validator.validateEvent. rewrite Hid, Hn, Hl. cbn [negb].
  destruct (Z.ltb_spec (maxPlayers event) 1); [lia | reflexivity].
Qed.

Lemma validateEvent_implies_second_witness :
  Validator.validateEvent Sample.game = inr tt.
Proof.
  apply (validateEvent_implies_second 1000 Sample.game). reflexivity.
Defined.

(** ** Events *)

Lemma has_In {V} (k : string) (m : JsMap.t V) :
  JsMap.has k m = true <-> In k (JsMap.keys m).
Proof.
  unfold JsMap.has. destruct (JsMap.get k m) as [v|] eqn:Hg.
  - split; [intros _|reflexivity]. apply JsMapFacts.get_In in Hg.
    unfold JsMap.keys. apply in_map_iff. now exists (k, v).
  - split; [discriminate|]. intros H. apply JsMapFacts.get_None in Hg. contradiction.
Qed.

Lemma keys_set {V} (k : string) (v : V) (m : JsMap.t V) :
  JsMap.keys (JsMap.set k v m) =
  if JsMap.has k m then JsMap.keys m else JsMap.keys m ++ [k].
Proof.
  destruct (JsMap.has k m) eqn:Hh.
  - apply JsMapFacts.keys_set_In. now apply has_In.
  - rewrite JsMapFacts.keys_set_fresh.
    + unfold JsMap.keys. now rewrite map_app.
    + intros H. apply has_In in H. congruence.
Qed.

(** X4. A [createEvent] with an event that passes validation succeeds and
    stores the event under its id, so that [getEvent] returns it; an event
    already stored under that id is replaced in place without an error
    (no id is ever stored twice); every other event, the RSVP entries, the
    waitlist and the reminders are left as they were. *)
Theorem createEvent_stores (now : Date) (event : Event) (this : RsvpService) :
  RsvpValidator.validateEvent now event = inr tt ->
  let this' := snd (createEvent now event this) in
  fst (createEvent now event this) = inr event /\
  getEvent (event_id event) this' = (inr (Some event), this') /\
  (forall id, id <> event_id event ->
              JsMap.get id (events this') = JsMap.get id (events this)) /\
  JsMap.keys (events this') =
    (if JsMap.has (event_id event) (events this)
     then JsMap.keys (events this)
     else JsMap.keys (events this) ++ [event_id event]) /\
  rsvpEntries this' = rsvpEntries this /\
  waitlist this' = waitlist this /\
  reminders this' = reminders this.
Proof.
  intros Hv this'. subst this'. rewrite createEvent_unfold, Hv. cbn [fst snd].
  unfold getEvent, wrapping, gets, with_events. cbn [events rsvpEntries waitlist reminders].
  rewrite JsMapFacts.get_set_same. repeat split.
  - intros id Hid. now apply JsMapFacts.get_set_other.
  - apply keys_set.
Qed.

Lemma createEvent_stores_witness :
  getEvent "1" (snd (createEvent 1000 Sample.duel Sample.fullGame)) =
    (inr (Some Sample.duel), snd (createEvent 1000 Sample.duel Sample.fullGame)) /\
  JsMap.keys (events (snd (createEvent 1000 Sample.duel Sample.fullGame))) = ["1"%string] /\
  rsvpEntries (snd (createEvent 1000 Sample.duel Sample.fullGame)) =
    rsvpEntries Sample.fullGame.
Proof.
  destruct (createEvent_stores 1000 Sample.duel Sample.fullGame eq_refl)
    as (_ & H2 & _ & H4 & H5 & _).
  split; [exact H2|]. split; [exact H4 | exact H5].
Defined.

(** X5. [createEvent] fails exactly when [validateEvent] fails, with that
    validation error and without changing the store; in particular an event
    dated before the current time, with maxPlayers below 1, or with an empty
    name is refused. The method's own test [maxPlayers <= 0] never fires:
    its message is never the outcome. *)
Theorem createEvent_rejects (now : Date) (event : Event) (this : RsvpService) :
  (forall e, RsvpValidator.validateEvent now event = inl e ->
             createEvent now event this = (inl e, this)) /\
  (event_date event < now \/ maxPlayers event < 1 \/ event_name event = ""%string ->
   exists m, createEvent now event this = (inl (ValidationError m), this)) /\
  fst (createEvent now event this) <>
    inl (ValidationError "maxPlayers must be a positive number").
Proof.
  split; [|split].
  - intros e He. now rewrite createEvent_unfold, He.
  - intros Hbad. rewrite createEvent_unfold.
    destruct (RsvpValidator.validateEvent now event) as [e|[]] eqn:Hv.
    + apply validateEvent_error in Hv as [m ->]. now exists m.
    + apply validateEvent_ok in Hv as (_ & Hn & _ & _ & _ & Hd & _ & _ & Hm).
      destruct Hbad as [H|[H|H]]; try lia. rewrite H in Hn. discriminate.
  - rewrite createEvent_unfold.
    destruct (RsvpValidator.validateEvent now event) as [e|[]] eqn:Hv; [|discriminate].
    unfold RsvpValidator.validateEvent in Hv.
    repeat match type of Hv with
           | (if ?c then _ else _) = _ => destruct c
           end; first [discriminate Hv | injection Hv as <-; discriminate].
Qed.

Lemma createEvent_rejects_witness :
  exists m,
    createEvent (Sample.dayAfterGame) Sample.game newService =
    (inl (ValidationError m), newService).
Proof.
  apply (proj1 (proj2 (createEvent_rejects Sample.dayAfterGame Sample.game newService))).
  left. vm_compute. reflexivity.
Defined.

(** X6. An event whose date has passed can no longer be edited: an
    [updateEvent] that supplies no new date fails with a validation error
    and changes nothing, whatever fields it supplies. *)
Theorem updateEvent_past_event (now : Date) (id : string) (update : EventUpdate)
    (this : RsvpService) (event : Event) :
  JsMap.get id (events this) = Some event ->
  eu_date update = None ->
  event_date event < now ->
  exists m, updateEvent now id update this = (inl (ValidationError m), this).
Proof.
  intros Hget Hnone Hpast. rewrite updateEvent_unfold, Hget.
  destruct (RsvpValidator.validateEvent now _) as [e|[]] eqn:Hv.
  - apply validateEvent_error in Hv as [m ->]. now exists m.
  - apply validateEvent_ok in Hv as (_ & _ & _ & _ & _ & Hd & _).
    unfold mergeEvent in Hd. cbn [event_date] in Hd. rewrite Hnone in Hd. lia.
Qed.

Lemma updateEvent_past_event_witness :
  exists m,
    updateEvent Sample.dayAfterGame "1"
      (mkEventUpdate (Some "Rematch"%string) None None None None) Sample.fullGame =
    (inl (ValidationError m), Sample.fullGame).
Proof.
  apply (updateEvent_past_event Sample.dayAfterGame "1" _ Sample.fullGame Sample.game);
    [reflexivity | reflexivity | vm_compute; reflexivity].
Defined.

(** X7. A successful [updateEvent] stores the merge of the stored event
    and the update under the same key: the id and the archived flag are
    those of the stored event, the merged event passes validation (its date
    is not in the past, maxPlayers is at least 1), [getEvent] returns it,
    and no key is added or removed; RSVP entries, waitlist and reminders
    are unchanged. An unknown id is refused without a change. *)
Theorem updateEvent_stores (now : Date) (id : string) (update : EventUpdate)
    (this : RsvpService) :
  (forall updated this',
     updateEvent now id update this = (inr updated, this') ->
     exists event,
       JsMap.get id (events this) = Some event /\
       updated = mergeEvent event update /\
       event_id updated = event_id event /\
       archived updated = archived event /\
       now <= event_date updated /\ 1 <= maxPlayers updated /\
       getEvent id this' = (inr (Some updated), this') /\
       JsMap.keys (events this') = JsMap.keys (events this) /\
       (forall id', id' <> id ->
                    JsMap.get id' (events this') = JsMap.get id' (events this)) /\
       rsvpEntries this' = rsvpEntries this /\
       waitlist this' = waitlist this /\
       reminders this' = reminders this) /\
  (JsMap.get id (events this) = None ->
   updateEvent now id update this = (inl (ValidationError "Event not found"), this)).
Proof.
  split.
  - intros updated this'. rewrite updateEvent_unfold.
    destruct (JsMap.get id (events this)) as [event|] eqn:Hget; [|discriminate].
    destruct (RsvpValidator.validateEvent now _) as [e|[]] eqn:Hv; [discriminate|].
    intros [= <- <-]. exists event.
    apply validateEvent_ok in Hv as (_ & _ & _ & _ & _ & Hd & _ & _ & Hm).
    unfold getEvent, wrapping, gets, with_events.
    cbn [events rsvpEntries waitlist reminders].
    rewrite JsMapFacts.get_set_same. repeat split; try assumption.
    + apply JsMapFacts.keys_set_In. apply has_In. unfold JsMap.has. now rewrite Hget.
    + intros id' Hid'. now apply JsMapFacts.get_set_other.
  - intros Hnone. now rewrite updateEvent_unfold, Hnone.
Qed.

Lemma updateEvent_stores_witness :
  exists event,
    JsMap.get "1" (events Sample.fullGame) = Some event /\
    event_id (mergeEvent Sample.game Sample.shrinkToOne) = event_id event /\
    JsMap.keys (events Sample.overbooked) = JsMap.keys (events Sample.fullGame).
Proof.
  destruct (proj1 (updateEvent_stores 1003 "1" Sample.shrinkToOne Sample.fullGame)
              _ _ eq_refl)
    as (event & H1 & _ & H3 & _ & _ & _ & _ & H8 & _).
  exists event. split; [exact H1|]. split; [exact H3 | exact H8].
Defined.

(** X8. [listEvents] returns every stored event once, ordered by date in
    ascending order, and changes nothing. *)
Theorem listEvents_sorted (this : RsvpService) :
  exists l,
    listEvents this = (inr l, this) /\
    StronglySorted (ascending event_date) l /\
    Permutation l (JsMap.values (events this)).
Proof.
  exists (sort_by event_date (JsMap.values (events this))).
  split; [reflexivity|]. split; [apply sort_by_sorted | apply sort_by_perm].
Qed.

(** ** RSVP entries *)

Lemma In_set_wf {V} (k k' : string) (v v' : V) (m : JsMap.t V) :
  JsMap.wf m ->
  In (k', v') (JsMap.set k v m) ->
  (k' = k /\ v' = v) \/ (k' <> k /\ In (k', v') m).
Proof.
  intros Hwf Hin.
  apply (JsMapFacts.In_get _ _ _ (JsMapFacts.wf_set k v m Hwf)) in Hin.
  destruct (string_dec k' k) as [->|Hne].
  - rewrite JsMapFacts.get_set_same in Hin. injection Hin as <-. now left.
  - rewrite JsMapFacts.get_set_other in Hin by exact Hne.
    right. split; [exact Hne | now apply JsMapFacts.get_In].
Qed.

Lemma with_rsvpEntries_same (this : RsvpService) (f : JsMap.t RsvpEntry -> JsMap.t RsvpEntry) :
  f (rsvpEntries this) = rsvpEntries this -> with_rsvpEntries f this = this.
Proof. intros H. unfold with_rsvpEntries. rewrite H. now destruct this. Qed.

(** X9. Whenever [updateRsvp] throws a ValidationError it has changed
    nothing: every check precedes the write. With working storage an
    unknown event is reported as 'Event not found' before the player and the
    status are looked at, and a status other than 'Yes', 'No' and 'Maybe'
    is always refused with a ValidationError. (A failure of [saveData],
    thrown as RsvpError after the write, is not part of the model.) *)
Theorem updateRsvp_fails_cleanly (now : Date) (id : string) (p : Player)
    (st : RsvpStatus) (nt : option string) (this : RsvpService) :
  (forall m this',
     updateRsvp now id p st nt this = (inl (ValidationError m), this') ->
     this' = this) /\
  (JsMap.get id (events this) = None ->
   updateRsvp now id p st nt this = (inl (ValidationError "Event not found"), this)) /\
  (st <> "Yes"%string -> st <> "No"%string -> st <> "Maybe"%string ->
   exists m, updateRsvp now id p st nt this = (inl (ValidationError m), this)).
Proof.
  split; [|split].
  - intros m this' H. now apply updateRsvp_failure in H.
  - intros Hnone. now rewrite updateRsvp_unfold, Hnone.
  - intros H1 H2 H3. rewrite updateRsvp_unfold.
    destruct (JsMap.get id (events this)) as [event|]; [|eauto].
    destruct (RsvpValidator.validatePlayer p) as [e|[]] eqn:Hp.
    { apply validatePlayer_error in Hp as [m ->]. eauto. }
    destruct (RsvpValidator.validateRsvpStatus st) as [e|[]] eqn:Hs.
    { apply validateRsvpStatus_error in Hs as [m ->]. eauto. }
    apply validateRsvpStatus_ok in Hs. tauto.
Qed.

Lemma updateRsvp_fails_cleanly_witness :
  exists m,
    updateRsvp 1003 "1" Sample.cy "yes" None Sample.fullGame =
    (inl (ValidationError m), Sample.fullGame).
Proof.
  apply (proj2 (proj2 (updateRsvp_fails_cleanly 1003 "1" Sample.cy "yes" None
                         Sample.fullGame))); discriminate.
Defined.

(** X10. A successful [updateRsvp] writes exactly one entry, under the key
    of the event and the player: that key then holds the new entry (status,
    notes and time of this call), every other key holds what it held, the
    key is appended if it was new and keeps its place otherwise, and
    [getEventRsvps] of the event lists the entry. Events, waitlist and
    reminders are unchanged. *)
Theorem updateRsvp_writes (now : Date) (id : string) (p : Player) (st : RsvpStatus)
    (nt : option string) (this this' : RsvpService) (entry : RsvpEntry) :
  updateRsvp now id p st nt this = (inr entry, this') ->
  let key := rsvpKey id (player_id p) in
  entry = mkRsvpEntry id p st now nt /\
  JsMap.get key (rsvpEntries this') = Some entry /\
  (forall k, k <> key ->
             JsMap.get k (rsvpEntries this') = JsMap.get k (rsvpEntries this)) /\
  JsMap.keys (rsvpEntries this') =
    (if JsMap.has key (rsvpEntries this)
     then JsMap.keys (rsvpEntries this)
     else JsMap.keys (rsvpEntries this) ++ [key]) /\
  (exists listed, getEventRsvps id this' = (inr listed, this') /\ In entry listed) /\
  events this' = events this /\
  waitlist this' = waitlist this /\
  reminders this' = reminders this.
Proof.
  intros H key. apply updateRsvp_success in H as (event & Hget & _ & _ & _ & He & Hs).
  subst this'. unfold with_rsvpEntries. cbn [rsvpEntries events waitlist reminders].
  fold key. split; [exact He|]. split; [apply JsMapFacts.get_set_same|].
  split; [intros k Hk; now apply JsMapFacts.get_set_other|].
  split; [apply keys_set|]. split; [|now repeat split].
  unfold getEventRsvps, rethrowing, bind, gets, throw, ret, JsMap.has.
  cbn [events rsvpEntries]. rewrite Hget. cbn [negb]. eexists. split; [reflexivity|].
  apply sort_by_In. apply filter_In. split.
  - unfold JsMap.values. apply in_map_iff. exists (key, entry). split; [reflexivity|].
    apply JsMapFacts.get_In. apply JsMapFacts.get_set_same.
  - rewrite He. cbn [e_eventId]. apply String.eqb_refl.
Qed.

Lemma updateRsvp_writes_witness :
  JsMap.get (rsvpKey "1" "a")
    (rsvpEntries (snd (updateRsvp 1004 "1" Sample.ann "No" (Some "injured"%string)
                         Sample.fullGame))) =
  Some (mkRsvpEntry "1" Sample.ann "No" 1004 (Some "injured"%string)) /\
  JsMap.keys (rsvpEntries (snd (updateRsvp 1004 "1" Sample.ann "No"
                                  (Some "injured"%string) Sample.fullGame))) =
  JsMap.keys (rsvpEntries Sample.fullGame).
Proof.
  destruct (updateRsvp_writes 1004 "1" Sample.ann "No" (Some "injured"%string)
              Sample.fullGame _ _ eq_refl) as (_ & H2 & _ & H4 & _).
  split; [exact H2 | exact H4].
Defined.

(** X11. The composite key ["${eventId}-${player.id}"] is not injective:
    when the key of (event [id1], player [pid1]) equals the key of a
    different event [id2] and player [p2], a successful [updateRsvp] for
    ([id2], [p2]) replaces the entry of ([id1], [pid1]); afterwards the
    store holds no entry for event [id1] and player [pid1]. *)
Theorem updateRsvp_key_clash (now : Date) (id1 pid1 id2 : string) (p2 : Player)
    (st : RsvpStatus) (nt : option string) (this this' : RsvpService)
    (entry : RsvpEntry) :
  JsMap.wf (rsvpEntries this) ->
  entriesKeyed this ->
  rsvpKey id1 pid1 = rsvpKey id2 (player_id p2) ->
  id1 <> id2 ->
  updateRsvp now id2 p2 st nt this = (inr entry, this') ->
  JsMap.get (rsvpKey id1 pid1) (rsvpEntries this') = Some entry /\
  e_eventId entry = id2 /\
  forall e, In e (JsMap.values (rsvpEntries this')) ->
            ~ (e_eventId e = id1 /\ player_id (e_player e) = pid1).
Proof.
  intros Hwf Hkeyed Hclash Hne H.
  apply updateRsvp_success in H as (event & _ & _ & _ & _ & He & Hs).
  subst this'. unfold with_rsvpEntries. cbn [rsvpEntries].
  rewrite Hclash. split; [apply JsMapFacts.get_set_same|].
  split; [rewrite He; reflexivity|].
  intros e Hin [Hid Hpid]. unfold JsMap.values in Hin.
  apply in_map_iff in Hin as ([k e'] & Hsnd & Hin). cbn [snd] in Hsnd. subst e'.
  apply (In_set_wf _ _ _ _ _ Hwf) in Hin as [[_ ->]|[Hk Hold]].
  - rewrite He in Hid. cbn [e_eventId] in Hid. congruence.
  - apply Hkeyed in Hold. rewrite Hid, Hpid, Hclash in Hold. contradiction.
Qed.

(** Carl is confirmed for event "a-b"; Beck, whose id is "b-c", answers for
    event "a": Carl's entry is gone. *)
Lemma updateRsvp_key_clash_witness :
  JsMap.get (rsvpKey "a-b" "c") (rsvpEntries Clash.carlInLeague) =
    Some (mkRsvpEntry "a-b" Clash.carl "Yes" 1001 None) /\
  JsMap.get (rsvpKey "a-b" "c")
    (rsvpEntries (snd (updateRsvp 1002 "a" Clash.beck "No" None Clash.carlInLeague))) =
    Some (mkRsvpEntry "a" Clash.beck "No" 1002 None) /\
  forall e,
    In e (JsMap.values
            (rsvpEntries (snd (updateRsvp 1002 "a" Clash.beck "No" None
                                 Clash.carlInLeague)))) ->
    ~ (e_eventId e = "a-b"%string /\ player_id (e_player e) = "c"%string).
Proof.
  split; [reflexivity|].
  destruct (updateRsvp_key_clash 1002 "a-b" "c" "a" Clash.beck "No" None
              Clash.carlInLeague
              (snd (updateRsvp 1002 "a" Clash.beck "No" None Clash.carlInLeague))
              (mkRsvpEntry "a" Clash.beck "No" 1002 None)) as (H1 & _ & H3).
  - unfold JsMap.wf. vm_compute. repeat constructor. simpl. tauto.
  - intros key entry [H|[]]. injection H as <- <-. reflexivity.
  - reflexivity.
  - discriminate.
  - reflexivity.
  - split; [exact H1 | exact H3].
Defined.

Lemma cancelRsvp_unfold (id playerId : string) (this : RsvpService) :
  cancelRsvp id playerId this =
  if JsMap.has (rsvpKey id playerId) (rsvpEntries this)
  then (inr tt, with_rsvpEntries (JsMap.delete (rsvpKey id playerId)) this)
  else (inl (ValidationError "RSVP not found"), this).
Proof.
  unfold cancelRsvp, rethrowing, bind, gets, throw, ret, modify.
  now destruct (JsMap.has _ _).
Qed.

Lemma get_delete_other {V} (k k' : string) (m : JsMap.t V) :
  k' <> k -> JsMap.get k' (JsMap.delete k m) = JsMap.get k' m.
Proof.
  intros Hne. unfold JsMap.delete.
  induction m as [|[k2 v2] m IH]; simpl; [reflexivity|].
  destruct (String.eqb_spec k k2) as [->|N]; simpl.
  - destruct (String.eqb_spec k' k2); [congruence | exact IH].
  - destruct (String.eqb_spec k' k2); [reflexivity | exact IH].
Qed.

Lemma delete_fresh {V} (k : string) (m : JsMap.t V) :
  ~ In k (JsMap.keys m) -> JsMap.delete k m = m.
Proof.
  unfold JsMap.delete. induction m as [|[k' v'] m IH]; simpl; [reflexivity|].
  intros H. destruct (String.eqb_spec k k') as [->|_]; [tauto|].
  simpl. rewrite IH; tauto.
Qed.

Lemma delete_set_fresh {V} (k : string) (v : V) (m : JsMap.t V) :
  JsMap.get k m = None -> JsMap.delete k (JsMap.set k v m) = m.
Proof.
  intros Hg. apply JsMapFacts.get_None in Hg.
  rewrite JsMapFacts.keys_set_fresh by exact Hg.
  unfold JsMap.delete. rewrite filter_app. simpl. rewrite String.eqb_refl. simpl.
  rewrite app_nil_r. now apply delete_fresh.
Qed.

(** X12. [cancelRsvp] undoes a write to a free key: if no entry is stored
    under the key eventId + "-" + player.id, a successful [updateRsvp]
    followed by [cancelRsvp] of the same event id and player id succeeds
    and restores the store exactly. The condition is on the key, not on the
    pair of event and player: two pairs can share a key (X11). *)
Theorem updateRsvp_then_cancelRsvp (now : Date) (id : string) (p : Player)
    (st : RsvpStatus) (nt : option string) (this this' : RsvpService)
    (entry : RsvpEntry) :
  JsMap.get (rsvpKey id (player_id p)) (rsvpEntries this) = None ->
  updateRsvp now id p st nt this = (inr entry, this') ->
  cancelRsvp id (player_id p) this' = (inr tt, this).
Proof.
  intros Hfresh H.
  apply updateRsvp_success in H as (event & _ & _ & _ & _ & _ & Hs). subst this'.
  rewrite cancelRsvp_unfold. unfold JsMap.has, with_rsvpEntries.
  cbn [rsvpEntries events waitlist reminders].
  rewrite JsMapFacts.get_set_same, delete_set_fresh by exact Hfresh.
  now destruct this.
Qed.

Lemma updateRsvp_then_cancelRsvp_witness :
  cancelRsvp "1" "c"
    (snd (updateRsvp 1003 "1" Sample.cy "Maybe" None Sample.fullGame)) =
  (inr tt, Sample.fullGame).
Proof.
  apply (updateRsvp_then_cancelRsvp 1003 "1" Sample.cy "Maybe" None Sample.fullGame
           _ (mkRsvpEntry "1" Sample.cy "Maybe" 1003 None)); reflexivity.
Defined.

(** X13. [cancelRsvp(eventId, playerId)] looks at the key
    eventId + "-" + playerId only. If no entry is stored under that key it
    fails with 'RSVP not found' and changes nothing, also when the event
    itself is unknown; otherwise it succeeds and removes the entry under
    that key, whichever event and player the entry names, and no other, and
    leaves events, waitlist and reminders alone. *)
Theorem cancelRsvp_removes_one (id playerId : string) (this : RsvpService) :
  (JsMap.get (rsvpKey id playerId) (rsvpEntries this) = None ->
   cancelRsvp id playerId this = (inl (ValidationError "RSVP not found"), this)) /\
  (forall entry,
     JsMap.get (rsvpKey id playerId) (rsvpEntries this) = Some entry ->
     let this' := snd (cancelRsvp id playerId this) in
     fst (cancelRsvp id playerId this) = inr tt /\
     JsMap.get (rsvpKey id playerId) (rsvpEntries this') = None /\
     (forall k, k <> rsvpKey id playerId ->
                JsMap.get k (rsvpEntries this') = JsMap.get k (rsvpEntries this)) /\
     events this' = events this /\
     waitlist this' = waitlist this /\
     reminders this' = reminders this).
Proof.
  split.
  - intros Hnone. rewrite cancelRsvp_unfold. unfold JsMap.has. now rewrite Hnone.
  - intros entry Hsome this'. subst this'. rewrite cancelRsvp_unfold.
    unfold JsMap.has. rewrite Hsome. cbn [fst snd].
    unfold with_rsvpEntries. cbn [rsvpEntries events waitlist reminders].
    repeat split.
    + apply JsMapFacts.get_delete_same.
    + intros k Hk. now apply get_delete_other.
Qed.

(** The third player has no entry to cancel. With colliding keys the call
    for event "a" and player "b-c", who has no entry, removes the entry of
    event "a-b" and player "c". *)
Lemma cancelRsvp_removes_one_witness :
  cancelRsvp "1" "c" Sample.fullGame =
    (inl (ValidationError "RSVP not found"), Sample.fullGame) /\
  fst (cancelRsvp "a" "b-c" Clash.carlInLeague) = inr tt /\
  JsMap.get "a-b-c" (rsvpEntries (snd (cancelRsvp "a" "b-c" Clash.carlInLeague))) = None.
Proof.
  destruct (cancelRsvp_removes_one "1" "c" Sample.fullGame) as [H1 _].
  destruct (cancelRsvp_removes_one "a" "b-c" Clash.carlInLeague) as [_ H2].
  destruct (H2 (mkRsvpEntry "a-b" Clash.carl "Yes" 1001 None) eq_refl) as (A & B & _).
  split; [apply H1; reflexivity|]. split; [exact A | exact B].
Defined.

(** X14. [getConfirmedAttendees] returns exactly the entries with status
    'Yes', of all events together, each once, in ascending order of
    updatedAt; their number is the [confirmed] count of [getRsvpStats]. *)
Theorem getConfirmedAttendees_spec (this : RsvpService) :
  StronglySorted (ascending e_updatedAt) (getConfirmedAttendees this) /\
  Permutation (getConfirmedAttendees this)
              (filter isYes (JsMap.values (rsvpEntries this))) /\
  (forall entry,
     In entry (getConfirmedAttendees this) <->
     In entry (JsMap.values (rsvpEntries this)) /\ e_status entry = "Yes"%string) /\
  Z.of_nat (List.length (getConfirmedAttendees this)) = confirmed (getRsvpStats this).
Proof.
  unfold getConfirmedAttendees. split; [apply sort_by_sorted|].
  split; [apply sort_by_perm|]. split.
  - intros entry. rewrite sort_by_In, filter_In. unfold isYes.
    now rewrite String.eqb_eq.
  - rewrite sort_by_length. reflexivity.
Qed.

(** X15. For a stored event with a non-empty id, [getEventRsvps(id)]
    returns what [searchRsvps({eventId: id})] returns: the entries of that
    event and no other, in ascending order of updatedAt; it changes
    nothing. *)
Theorem getEventRsvps_is_search (id : string) (this : RsvpService) (event : Event) :
  JsMap.get id (events this) = Some event ->
  id <> ""%string ->
  getEventRsvps id this =
    (inr (searchRsvps (mkSearchOptions (Some id) None None None) this), this) /\
  StronglySorted (ascending e_updatedAt)
    (searchRsvps (mkSearchOptions (Some id) None None None) this) /\
  forall entry,
    In entry (searchRsvps (mkSearchOptions (Some id) None None None) this) <->
    In entry (JsMap.values (rsvpEntries this)) /\ e_eventId entry = id.
Proof.
  intros Hget Hid.
  assert (Ht : Str.truthy id = true) by (destruct id; [contradiction | reflexivity]).
  assert (Hs : searchRsvps (mkSearchOptions (Some id) None None None) this =
               sort_by e_updatedAt
                 (filter (fun entry => String.eqb (e_eventId entry) id)
                         (JsMap.values (rsvpEntries this)))).
  { unfold searchRsvps. cbn [so_eventId so_playerName so_status so_startDate].
    now rewrite Ht. }
  rewrite Hs. split; [|split].
  - unfold getEventRsvps, rethrowing, bind, gets, throw, ret, JsMap.has.
    now rewrite Hget.
  - apply sort_by_sorted.
  - intros entry. rewrite sort_by_In, filter_In. now rewrite String.eqb_eq.
Qed.

Lemma getEventRsvps_is_search_witness :
  getEventRsvps "1" Sample.fullGame =
  (inr [mkRsvpEntry "1" Sample.ann "Yes" 1001 None;
        mkRsvpEntry "1" Sample.bob "Yes" 1002 None], Sample.fullGame).
Proof.
  exact (proj1 (getEventRsvps_is_search "1" Sample.fullGame Sample.game eq_refl
                  ltac:(discriminate))).
Defined.

Lemma batchItem_success (clock : nat -> Date) (results res : list RsvpEntry)
    (u : BatchRsvpUpdate) (s s' : RsvpService) :
  batchItem clock results u s = (inr res, s') ->
  exists entry,
    res = results ++ [entry] /\
    e_eventId entry = bu_eventId u /\
    player_id (e_player entry) = bu_playerId u /\
    e_status entry = bu_status u /\
    e_updatedAt entry = clock (List.length results) /\
    e_notes entry = None.
Proof.
  unfold batchItem, bind, gets, throw, ret.
  destruct (JsMap.get (bu_eventId u) (events s)) as [event|]; [|discriminate].
  destruct (getPlayerById (bu_playerId u) s) as [player|] eqn:Hp; [|discriminate].
  destruct (updateRsvp _ _ _ _ _ s) as [[err|entry] s1] eqn:Hu; [discriminate|].
  intros [= <- <-]. exists entry.
  apply updateRsvp_success in Hu as (ev & _ & _ & _ & _ & He & _). subst entry.
  apply getPlayerById_Some in Hp. now repeat split.
Qed.

Lemma batch_loop_success (clock : nat -> Date) (updates : list BatchRsvpUpdate)
    (acc res : list RsvpEntry) (s s' : RsvpService) :
  forOf updates (batchItem clock) acc s = (inr res, s') ->
  exists new,
    res = acc ++ new /\
    Forall2 (fun u entry =>
               e_eventId entry = bu_eventId u /\
               player_id (e_player entry) = bu_playerId u /\
               e_status entry = bu_status u /\
               e_notes entry = None) updates new.
Proof.
  revert acc s. induction updates as [|u updates IH]; intros acc s; simpl.
  - unfold ret. intros [= <- <-]. exists []. split; [now rewrite app_nil_r | constructor].
  - unfold bind. destruct (batchItem clock acc u s) as [[err|acc'] s1] eqn:Hitem;
      [discriminate|].
    intros Hrest. apply batchItem_success in Hitem as (entry & -> & H1 & H2 & H3 & _ & H5).
    apply IH in Hrest as (new & -> & Hall).
    exists (entry :: new). split; [now rewrite <- app_assoc|].
    constructor; [now repeat split | exact Hall].
Qed.

(** X16. A [batchUpdateRsvps] that succeeds returns one entry per update,
    in order, each for the update's event, player id and status. The notes
    of an update are never stored: every entry written by a batch has no
    notes, whatever the update carried. *)
Theorem batchUpdateRsvps_results (clock : nat -> Date)
    (updates : list BatchRsvpUpdate) (this this' : RsvpService)
    (results : list RsvpEntry) :
  batchUpdateRsvps clock updates this = (inr results, this') ->
  List.length results = List.length updates /\
  Forall2 (fun u entry =>
             e_eventId entry = bu_eventId u /\
             player_id (e_player entry) = bu_playerId u /\
             e_status entry = bu_status u /\
             e_notes entry = None) updates results.
Proof.
  intros H. apply batchUpdateRsvps_ok in H.
  apply batch_loop_success in H as (new & -> & Hall). simpl.
  split; [symmetry; eapply Forall2_length; eauto | exact Hall].
Qed.

Lemma batchUpdateRsvps_results_witness :
  Forall2 (fun u entry =>
             e_eventId entry = bu_eventId u /\
             player_id (e_player entry) = bu_playerId u /\
             e_status entry = bu_status u /\
             e_notes entry = None)
    [mkBatchRsvpUpdate "1" "a" "No" (Some "injured"%string)]
    [mkRsvpEntry "1" Sample.ann "No" 2000 None].
Proof.
  exact (proj2 (batchUpdateRsvps_results (fun _ => 2000)
                  [mkBatchRsvpUpdate "1" "a" "No" (Some "injured"%string)]
                  Sample.fullGame _ _ eq_refl)).
Defined.

(** ** Players *)

Lemma removePlayer_unfold (playerId : string) (this : RsvpService) :
  removePlayer playerId this =
  match getPlayerById playerId this with
  | None => (inl (ValidationError "Player not found"), this)
  | Some _ =>
      (inr tt,
       with_rsvpEntries
         (without (doomed (fun entry => String.eqb (player_id (e_player entry)) playerId)
                          (rsvpEntries this))) this)
  end.
Proof.
  unfold removePlayer, rethrowing, bind, gets, throw.
  destruct (getPlayerById playerId this); [|reflexivity].
  unfold JsMap.entries.
  now rewrite (delete_loop (fun entry => String.eqb (player_id (e_player entry)) playerId)).
Qed.

(** X17. [removePlayer(P)] of a player found in some entry succeeds and
    removes every entry whose player id is P and no other, so that the
    player is unknown afterwards; events, waitlist (the player's own
    waitlist entries included) and reminders are left as they were.
    [removePlayer] of a player without entries fails with 'Player not
    found' and changes nothing. *)
Theorem removePlayer_cascade (playerId : string) (this : RsvpService) :
  (forall player,
     getPlayerById playerId this = Some player ->
     let this' := snd (removePlayer playerId this) in
     fst (removePlayer playerId this) = inr tt /\
     getPlayerById playerId this' = None /\
     (forall entry, In entry (JsMap.values (rsvpEntries this')) ->
                    player_id (e_player entry) <> playerId) /\
     (JsMap.wf (rsvpEntries this) ->
      rsvpEntries this' =
      filter (fun kv => negb (String.eqb (player_id (e_player (snd kv))) playerId))
             (rsvpEntries this)) /\
     removePlayer playerId this' = (inl (ValidationError "Player not found"), this') /\
     events this' = events this /\
     waitlist this' = waitlist this /\
     reminders this' = reminders this) /\
  (getPlayerById playerId this = None ->
   removePlayer playerId this = (inl (ValidationError "Player not found"), this)).
Proof.
  split.
  - intros player Hp this'. subst this'. rewrite removePlayer_unfold, Hp.
    cbn [fst snd].
    set (p := fun entry => String.eqb (player_id (e_player entry)) playerId).
    set (s' := with_rsvpEntries (without (doomed p (rsvpEntries this))) this).
    assert (Hclean : forall entry, In entry (JsMap.values (rsvpEntries s')) ->
                                   player_id (e_player entry) <> playerId).
    { intros entry Hin. apply without_doomed_clean in Hin.
      now apply String.eqb_neq in Hin. }
    assert (Hnone : getPlayerById playerId s' = None)
      by (now apply getPlayerById_None).
    repeat split; try assumption.
    + intros Hwf. now apply without_doomed_filter.
    + now rewrite removePlayer_unfold, Hnone.
  - intros Hnone. now rewrite removePlayer_unfold, Hnone.
Qed.

Lemma removePlayer_cascade_witness :
  JsMap.keys (rsvpEntries (snd (removePlayer "a" Sample.fullGame))) = ["1-b"%string] /\
  removePlayer "c" Sample.fullGame =
    (inl (ValidationError "Player not found"), Sample.fullGame).
Proof.
  destruct (removePlayer_cascade "a" Sample.fullGame) as [Hknown _].
  destruct (Hknown Sample.ann eq_refl) as (_ & _ & _ & H4 & _).
  destruct (removePlayer_cascade "c" Sample.fullGame) as [_ Hunknown].
  split; [|now apply Hunknown].
  rewrite H4; [reflexivity|].
  unfold JsMap.wf. vm_compute. repeat constructor; simpl; intuition discriminate.
Defined.

Lemma find_rewritten (playerId : string) (g : RsvpEntry -> RsvpEntry)
    (m : JsMap.t RsvpEntry) :
  (forall e, player_id (e_player (g e)) = playerId) ->
  find (fun e => String.eqb (player_id (e_player e)) playerId)
       (JsMap.values
          (map (rewritten (fun e => String.eqb (player_id (e_player e)) playerId) g) m)) =
  match find (fun e => String.eqb (player_id (e_player e)) playerId) (JsMap.values m) with
  | Some e => Some (g e)
  | None => None
  end.
Proof.
  intros Hg. unfold JsMap.values, rewritten.
  induction m as [|[k e] m IH]; cbn [map find fst snd]; [reflexivity|].
  destruct (String.eqb (player_id (e_player e)) playerId) eqn:E; cbn [snd].
  - now rewrite Hg, String.eqb_refl.
  - rewrite E. exact IH.
Qed.

(** X18. After a successful [updatePlayer(P, update)] the player found
    under id P is the merge of the player found before and the update: the
    id is P still, a name or email the update supplies replaces the old
    one, and the merged player passes validation. With working storage a
    player without entries is refused with 'Player not found'. Whenever
    [updatePlayer] throws a ValidationError it has changed nothing: both
    checks precede the first write. (A failure of [saveData], thrown as
    RsvpError after the entries are rewritten, is not part of the
    model.) *)
Theorem updatePlayer_then_lookup (playerId : string) (update : PlayerUpdate)
    (this : RsvpService) :
  JsMap.wf (rsvpEntries this) ->
  (forall this',
     updatePlayer playerId update this = (inr tt, this') ->
     exists player,
       getPlayerById playerId this = Some player /\
       getPlayerById playerId this' = Some (mergePlayer player update) /\
       player_id (mergePlayer player update) = playerId /\
       RsvpValidator.validatePlayer (mergePlayer player update) = inr tt) /\
  (getPlayerById playerId this = None ->
   updatePlayer playerId update this = (inl (ValidationError "Player not found"), this)) /\
  (forall m this',
     updatePlayer playerId update this = (inl (ValidationError m), this') ->
     this' = this).
Proof.
  intros Hwf. rewrite (updatePlayer_unfold _ _ _ Hwf). split; [|split].
  - intros this'.
    destruct (getPlayerById playerId this) as [player|] eqn:Hp; [|discriminate].
    destruct (RsvpValidator.validatePlayer _) as [e|[]] eqn:Hv; [discriminate|].
    intros [= <-]. exists player. split; [reflexivity|].
    pose proof (getPlayerById_Some _ _ _ Hp) as Hid.
    split; [|split; [exact Hid | exact Hv]].
    unfold getPlayerById in *. unfold with_rsvpEntries. cbn [rsvpEntries].
    rewrite find_rewritten by (intros; exact Hid).
    destruct (find _ (JsMap.values (rsvpEntries this))) as [e0|]; [|discriminate].
    injection Hp as <-. reflexivity.
  - intros Hnone. now rewrite Hnone.
  - intros m this'.
    destruct (getPlayerById playerId this) as [player|]; [|now intros [= _ <-]].
    destruct (RsvpValidator.validatePlayer _) as [e'|[]]; [now intros [= _ <-]|discriminate].
Qed.

Lemma updatePlayer_then_lookup_witness :
  getPlayerById "a"
    (snd (updatePlayer "a" (mkPlayerUpdate (Some "Anna"%string) None) Sample.fullGame)) =
  Some (mkPlayer "a" "Anna" "ann@example.com") /\
  updatePlayer "a" (mkPlayerUpdate None (Some "nowhere"%string)) Sample.fullGame =
  (inl (ValidationError "Valid email is required"), Sample.fullGame).
Proof.
  assert (Hwf : JsMap.wf (rsvpEntries Sample.fullGame)).
  { unfold JsMap.wf. vm_compute. repeat constructor; simpl; intuition discriminate. }
  destruct (updatePlayer_then_lookup "a" (mkPlayerUpdate (Some "Anna"%string) None)
              Sample.fullGame Hwf) as (Hok & _ & _).
  destruct (Hok _ eq_refl) as (player & H1 & H2 & _).
  injection H1 as <-. split; [exact H2 | reflexivity].
Defined.

(** ** Waitlist *)

(** X19. [addToWaitlist(eventId, player)] refuses an unknown event with
    'Event not found' and, for a stored event, refuses the call whenever an
    RSVP entry is stored under the key eventId + "-" + player.id, whatever
    the status of that entry and whichever event and player it names. If
    the event is stored and that key is free it appends one entry, joined at
    the time of the call and not notified, to the end of the event's queue
    (creating the queue if there was none), without validating the player
    and without looking for the player in the queue. The other queues, the
    events, the RSVP entries and the reminders are unchanged. *)
Theorem addToWaitlist_appends (now : Date) (id : string) (p : Player)
    (this : RsvpService) :
  (JsMap.get id (events this) = None ->
   addToWaitlist now id p this = (inl (ValidationError "Event not found"), this)) /\
  (forall event existing,
     JsMap.get id (events this) = Some event ->
     JsMap.get (rsvpKey id (player_id p)) (rsvpEntries this) = Some existing ->
     addToWaitlist now id p this =
     (inl (ValidationError "Player already has an RSVP for this event"), this)) /\
  (forall event,
     JsMap.get id (events this) = Some event ->
     JsMap.get (rsvpKey id (player_id p)) (rsvpEntries this) = None ->
     let entry := mkWaitlistEntry id p now None in
     let this' := snd (addToWaitlist now id p this) in
     fst (addToWaitlist now id p this) = inr entry /\
     JsMap.get id (waitlist this') =
       Some (match JsMap.get id (waitlist this) with
             | Some queue => queue
             | None => []
             end ++ [entry]) /\
     (forall id', id' <> id ->
                  JsMap.get id' (waitlist this') = JsMap.get id' (waitlist this)) /\
     events this' = events this /\
     rsvpEntries this' = rsvpEntries this /\
     reminders this' = reminders this).
Proof.
  unfold addToWaitlist, rethrowing, bind, gets, throw, ret, modify.
  split; [|split].
  - intros Hnone. now rewrite Hnone.
  - intros event existing Hev Hex. now rewrite Hev, Hex.
  - intros event Hev Hnone. rewrite Hev, Hnone.
    cbn [fst snd]. unfold with_waitlist.
    cbn [waitlist events rsvpEntries reminders].
    unfold JsMap.has.
    destruct (JsMap.get id (waitlist this)) as [queue|] eqn:Hq.
    + rewrite Hq. repeat split.
      * apply JsMapFacts.get_set_same.
      * intros id' Hid'. now apply JsMapFacts.get_set_other.
    + rewrite JsMapFacts.get_set_same. repeat split.
      * apply JsMapFacts.get_set_same.
      * intros id' Hid'. now rewrite !JsMapFacts.get_set_other.
Qed.

(** The third player joins the queue and a confirmed one is refused. With
    colliding keys player "b-c", who has no entry for event "a", is refused
    as well, because of the entry of event "a-b" and player "c". *)
Lemma addToWaitlist_appends_witness :
  JsMap.get "1" (waitlist (snd (addToWaitlist 1003 "1" Sample.cy Sample.fullGame))) =
    Some [mkWaitlistEntry "1" Sample.cy 1003 None] /\
  addToWaitlist 1003 "1" Sample.ann Sample.fullGame =
    (inl (ValidationError "Player already has an RSVP for this event"), Sample.fullGame) /\
  addToWaitlist 1003 "a" Clash.beck Clash.carlInLeague =
    (inl (ValidationError "Player already has an RSVP for this event"),
     Clash.carlInLeague).
Proof.
  destruct (addToWaitlist_appends 1003 "1" Sample.cy Sample.fullGame) as (_ & _ & Hok).
  destruct (Hok Sample.game eq_refl eq_refl) as (_ & H2 & _).
  destruct (addToWaitlist_appends 1003 "1" Sample.ann Sample.fullGame) as (_ & Hdup & _).
  destruct (addToWaitlist_appends 1003 "a" Clash.beck Clash.carlInLeague)
    as (_ & Hclash & _).
  split; [exact H2|]. split.
  - apply (Hdup Sample.game (mkRsvpEntry "1" Sample.ann "Yes" 1001 None)); reflexivity.
  - apply (Hclash Clash.cup (mkRsvpEntry "a-b" Clash.carl "Yes" 1001 None)); reflexivity.
Defined.

Lemma stamped_length (clock : nat -> Date) (l : list WaitlistEntry) (a : nat) :
  List.length (map (fun ie => stamp (clock (fst ie)) (snd ie))
                   (combine (seq a (List.length l)) l)) = List.length l.
Proof.
  rewrite length_map, length_combine, length_seq. apply Nat.min_id.
Qed.

Lemma stamped_map {B} (f : WaitlistEntry -> B) (clock : nat -> Date)
    (l : list WaitlistEntry) (a : nat) :
  (forall t w, f (stamp t w) = f w) ->
  map f (map (fun ie => stamp (clock (fst ie)) (snd ie))
             (combine (seq a (List.length l)) l)) = map f l.
Proof.
  intros Hf. revert a. induction l as [|w l IH]; intros a; simpl; [reflexivity|].
  now rewrite Hf, IH.
Qed.

Lemma stamped_notified (clock : nat -> Date) (l : list WaitlistEntry) (a : nat) :
  Forall (fun w => notifiedAt w <> None)
         (map (fun ie => stamp (clock (fst ie)) (snd ie))
              (combine (seq a (List.length l)) l)).
Proof.
  revert a. induction l as [|w l IH]; intros a; simpl; constructor.
  - discriminate.
  - apply IH.
Qed.

(** X20. [notifyWaitlist] is advisory. With [available] = maxPlayers minus
    the number of 'Yes' entries of all events: if [available <= 0], or the
    event has no queue, it returns no player and changes nothing; otherwise
    it returns the players of the first [available] entries of the queue in
    queue order, already notified ones included, stamps those entries as
    notified and leaves the queue with the same players in the same order
    and the entries behind them untouched. It never removes a waitlist
    entry and never touches events, RSVP entries or reminders. *)
Theorem notifyWaitlist_advisory (clock : nat -> Date) (id : string)
    (this : RsvpService) (event : Event) :
  JsMap.get id (events this) = Some event ->
  let available := maxPlayers event - yesTotal this in
  (available <= 0 -> notifyWaitlist clock id this = (inr [], this)) /\
  (0 < available -> JsMap.get id (waitlist this) = None ->
   notifyWaitlist clock id this = (inr [], this)) /\
  (forall queue,
     0 < available -> JsMap.get id (waitlist this) = Some queue ->
     let n := Z.to_nat available in
     exists queue',
       notifyWaitlist clock id this =
         (inr (map wl_player (firstn n queue)),
          with_waitlist (JsMap.set id queue') this) /\
       List.length queue' = List.length queue /\
       map wl_player queue' = map wl_player queue /\
       map joinedAt queue' = map joinedAt queue /\
       skipn n queue' = skipn n queue /\
       Forall (fun w => notifiedAt w <> None) (firstn n queue')).
Proof.
  intros Hev available.
  unfold notifyWaitlist, rethrowing, bind, gets, throw, ret, modify.
  rewrite Hev, confirmed_length. fold available.
  split; [|split].
  - intros Hle. destruct (Z.leb_spec available 0); [reflexivity | lia].
  - intros Hpos Hq. destruct (Z.leb_spec available 0); [lia|]. now rewrite Hq.
  - intros queue Hpos Hq. destruct (Z.leb_spec available 0); [lia|]. rewrite Hq.
    set (n := Z.to_nat available).
    set (head := firstn n queue).
    set (stamped := map (fun ie => stamp (clock (fst ie)) (snd ie))
                        (combine (seq 0 (List.length head)) head)).
    assert (Hlen : List.length stamped = List.length head) by apply stamped_length.
    assert (Hn : List.length head = Nat.min n (List.length queue))
      by apply length_firstn.
    exists (stamped ++ skipn n queue). split; [reflexivity|].
    split; [|split; [|split; [|split]]].
    + rewrite length_app, Hlen. unfold head.
      rewrite <- (firstn_skipn n queue) at 3. now rewrite length_app.
    + rewrite map_app. unfold stamped. rewrite stamped_map by reflexivity.
      unfold head. now rewrite <- map_app, firstn_skipn.
    + rewrite map_app. unfold stamped. rewrite stamped_map by reflexivity.
      unfold head. now rewrite <- map_app, firstn_skipn.
    + destruct (Nat.le_gt_cases n (List.length queue)) as [Hle|Hgt].
      * rewrite skipn_app. rewrite Hlen, Hn, Nat.min_l by exact Hle.
        rewrite Nat.sub_diag. cbn [skipn].
        rewrite skipn_all2 by (rewrite Hlen, Hn; lia). reflexivity.
      * rewrite (skipn_all2 queue) by lia. rewrite app_nil_r.
        apply skipn_all2. rewrite Hlen, Hn. lia.
    + destruct (Nat.le_gt_cases n (List.length queue)) as [Hle|Hgt].
      * rewrite firstn_app. rewrite Hlen, Hn, Nat.min_l by exact Hle.
        rewrite Nat.sub_diag. cbn [firstn]. rewrite app_nil_r.
        rewrite firstn_all2 by (rewrite Hlen, Hn; lia). apply stamped_notified.
      * rewrite (skipn_all2 queue) by lia. rewrite app_nil_r.
        rewrite firstn_all2 by (rewrite Hlen, Hn; lia). apply stamped_notified.
Qed.

(** Ann is confirmed for an event of two, Cy and Bob wait: one place is
    free, Cy is notified, and notified again by the next call. *)
Lemma notifyWaitlist_advisory_witness :
  notifyWaitlist (fun _ => 2000) "1" Waiting.store =
    (inr [Sample.cy], snd (notifyWaitlist (fun _ => 2000) "1" Waiting.store)) /\
  fst (notifyWaitlist (fun _ => 3000) "1"
         (snd (notifyWaitlist (fun _ => 2000) "1" Waiting.store))) =
    inr [Sample.cy].
Proof.
  destruct (notifyWaitlist_advisory (fun _ => 2000) "1" Waiting.store Sample.game eq_refl)
    as (_ & _ & H).
  destruct (H [mkWaitlistEntry "1" Sample.cy 1002 None;
               mkWaitlistEntry "1" Sample.bob 1003 None])
    as (queue' & Hrun & _); [vm_compute; reflexivity | reflexivity |].
  split; [rewrite Hrun; reflexivity | reflexivity].
Defined.

(** ** Reminders *)

Lemma reminder_loop (now : Date) (todo done : JsMap.t EventReminder)
    (acc : list Event) (this : RsvpService) :
  JsMap.wf (done ++ todo) ->
  reminders this = done ++ todo ->
  forOf todo (fun eventsToRemind '(eventId, reminder) =>
    if dateLe (nextSendAt reminder) now then
      found <- gets (fun this => JsMap.get eventId (events this)) ;;
      match found with
      | Some event =>
          modify (with_reminders (JsMap.set eventId
            (mkEventReminder (rem_eventId reminder) now
               (now + reminderInterval reminder * day_ms)
               (reminderInterval reminder)))) ;;;
          ret (eventsToRemind ++ [event])
      | None => ret eventsToRemind
      end
    else ret eventsToRemind) acc this =
  (inr (acc ++ flat_map (collected now (events this)) todo),
   with_reminders (fun _ => done ++ map (advanced now (events this)) todo) this).
Proof.
  revert done acc this.
  induction todo as [|[k r] rest IH]; intros done acc this Hwf Hm; simpl.
  - unfold ret, with_reminders. rewrite <- Hm, !app_nil_r. now destruct this.
  - assert (Hni : ~ In k (JsMap.keys done)).
    { unfold JsMap.wf, JsMap.keys in Hwf. rewrite map_app in Hwf. simpl in Hwf.
      apply NoDup_remove_2 in Hwf. intros I. apply Hwf. apply in_or_app. now left. }
    unfold bind at 1. unfold collected at 1, advanced at 1, dueEvent. cbn [fst snd].
    destruct (dateLe (nextSendAt r) now).
    + unfold bind, gets, modify, ret.
      destruct (JsMap.get k (events this)) as [event|] eqn:Hev.
      * rewrite (IH (done ++ [(k, mkEventReminder (rem_eventId r) now
                                    (now + reminderInterval r * day_ms)
                                    (reminderInterval r))])).
        -- unfold with_reminders; cbn [events reminders].
           now rewrite <- !app_assoc.
        -- unfold JsMap.wf, JsMap.keys in *. rewrite <- app_assoc. simpl.
           rewrite map_app in *. exact Hwf.
        -- unfold with_reminders; cbn [reminders].
           rewrite Hm, set_middle by exact Hni. now rewrite <- app_assoc.
      * rewrite (IH (done ++ [(k, r)])).
        -- now rewrite <- app_assoc.
        -- now rewrite <- app_assoc.
        -- now rewrite <- app_assoc.
    + unfold ret. rewrite (IH (done ++ [(k, r)])).
      * now rewrite <- app_assoc.
      * now rewrite <- app_assoc.
      * now rewrite <- app_assoc.
Qed.

Lemma sendReminders_unfold (now : Date) (this : RsvpService) :
  JsMap.wf (reminders this) ->
  sendReminders now this =
  (inr (flat_map (collected now (events this)) (reminders this)),
   with_reminders (map (advanced now (events this))) this).
Proof.
  intros Hwf. unfold sendReminders, wrapping. unfold bind at 1, gets at 1.
  unfold JsMap.entries.
  now rewrite (reminder_loop now (reminders this) [] [] this Hwf eq_refl).
Qed.

Lemma keys_advanced (now : Date) (evs : JsMap.t Event) (m : JsMap.t EventReminder) :
  JsMap.keys (map (advanced now evs) m) = JsMap.keys m.
Proof.
  unfold JsMap.keys. rewrite map_map. apply map_ext.
  intros kv. unfold advanced. now destruct (dueEvent now evs kv).
Qed.

Lemma get_map_advanced (now : Date) (evs : JsMap.t Event) (id : string)
    (m : JsMap.t EventReminder) :
  JsMap.get id (map (advanced now evs) m) =
  match JsMap.get id m with
  | Some r => Some (snd (advanced now evs (id, r)))
  | None => None
  end.
Proof.
  induction m as [|[k r] m IH]; simpl; [reflexivity|].
  assert (Hk : fst (advanced now evs (k, r)) = k).
  { unfold advanced. now destruct (dueEvent now evs (k, r)). }
  destruct (advanced now evs (k, r)) as [k' r'] eqn:Ha. cbn [fst] in Hk. subst k'.
  destruct (String.eqb_spec id k) as [->|_]; [|exact IH].
  now rewrite Ha.
Qed.

Lemma dateLe_true (a b : Date) :
  dateLe a b = true <-> validDate a = true /\ validDate b = true /\ a <= b.
Proof.
  unfold dateLe. rewrite !andb_true_iff, Z.leb_le. tauto.
Qed.

Lemma dateLt_true (a b : Date) :
  dateLt a b = true <-> validDate a = true /\ validDate b = true /\ a < b.
Proof.
  unfold dateLt. rewrite !andb_true_iff, Z.ltb_lt. tauto.
Qed.

(** X21. With working storage [sendReminders] returns, in the order of
    the reminders, the stored event of every reminder that is due: its
    nextSendAt is a valid date not after now. A reminder whose nextSendAt
    is an Invalid Date is never due, and a due reminder whose event is no
    longer stored is passed over and stays as it is. Every reminder it
    collects an event for gets lastSentAt = now and
    nextSendAt = new Date(now + interval days); no reminder is added or
    removed, and events, RSVP entries and waitlist are unchanged. *)
Theorem sendReminders_collects (now : Date) (this : RsvpService) :
  JsMap.wf (reminders this) ->
  exists sent this',
    sendReminders now this = (inr sent, this') /\
    sent = flat_map (collected now (events this)) (reminders this) /\
    (forall event,
       In event sent <->
       exists id r, In (id, r) (reminders this) /\
                    validDate (nextSendAt r) = true /\
                    validDate now = true /\
                    nextSendAt r <= now /\
                    JsMap.get id (events this) = Some event) /\
    (forall id r,
       JsMap.get id (reminders this) = Some r ->
       JsMap.get id (reminders this') =
       Some (if dateLe (nextSendAt r) now && JsMap.has id (events this)
             then mkEventReminder (rem_eventId r) now
                    (now + reminderInterval r * day_ms) (reminderInterval r)
             else r)) /\
    JsMap.keys (reminders this') = JsMap.keys (reminders this) /\
    events this' = events this /\
    rsvpEntries this' = rsvpEntries this /\
    waitlist this' = waitlist this.
Proof.
  intros Hwf. rewrite (sendReminders_unfold now this Hwf).
  eexists. eexists. split; [reflexivity|]. split; [reflexivity|].
  unfold with_reminders. cbn [events rsvpEntries waitlist reminders].
  split; [|split; [|split; [apply keys_advanced | now repeat split]]].
  - intros event. rewrite in_flat_map. split.
    + intros ([id r] & Hin & Hc). exists id, r. split; [exact Hin|].
      unfold collected, dueEvent in Hc. cbn [fst snd] in Hc.
      destruct (dateLe (nextSendAt r) now) eqn:Hdue; [|contradiction].
      apply dateLe_true in Hdue.
      destruct (JsMap.get id (events this)) as [ev|]; [|contradiction].
      destruct Hc as [<-|[]]. tauto.
    + intros (id & r & Hin & Hv & Hn & Hdue & Hev). exists (id, r).
      split; [exact Hin|].
      unfold collected, dueEvent. cbn [fst snd].
      rewrite (proj2 (dateLe_true _ _)) by tauto. rewrite Hev. now left.
  - intros id r Hget. rewrite get_map_advanced, Hget. f_equal.
    unfold advanced, dueEvent, JsMap.has. cbn [fst snd].
    destruct (dateLe (nextSendAt r) now); [|reflexivity].
    now destruct (JsMap.get id (events this)).
Qed.

Lemma sendReminders_collects_witness :
  exists this',
    sendReminders Waiting.later Waiting.store = (inr [Sample.game], this') /\
    JsMap.get "1" (reminders this') =
      Some (mkEventReminder "1" Waiting.later (Waiting.later + day_ms) 1).
Proof.
  destruct (sendReminders_collects Waiting.later Waiting.store)
    as (sent & this' & Hrun & Hsent & _ & Hrem & _).
  - unfold JsMap.wf. vm_compute. repeat constructor. simpl. tauto.
  - exists this'. split.
    + rewrite Hrun, Hsent. reflexivity.
    + rewrite (Hrem "1" (mkEventReminder "1" 1004 (1004 + day_ms) 1) eq_refl).
      reflexivity.
Defined.

Lemma quiet_flat_map (now : Date) (evs : JsMap.t Event) (m : JsMap.t EventReminder) :
  (forall kv, In kv m -> dueEvent now evs (advanced now evs kv) = None) ->
  flat_map (collected now evs) (map (advanced now evs) m) = [].
Proof.
  induction m as [|kv m IH]; intros H; cbn [map flat_map]; [reflexivity|].
  unfold collected at 1. rewrite H by now left. cbn [app].
  apply IH. intros kv' Hin. apply H. now right.
Qed.

(** X22. With positive intervals [sendReminders] sends once per due time:
    a second call at the same time returns no event and changes nothing. *)
Theorem sendReminders_twice (now : Date) (this : RsvpService) :
  JsMap.wf (reminders this) ->
  (forall id r, In (id, r) (reminders this) -> 0 < reminderInterval r) ->
  sendReminders now (snd (sendReminders now this)) =
  (inr [], snd (sendReminders now this)).
Proof.
  intros Hwf Hpos. rewrite (sendReminders_unfold now this Hwf). cbn [snd].
  set (s1 := with_reminders (map (advanced now (events this))) this).
  assert (Hwf1 : JsMap.wf (reminders s1)).
  { unfold JsMap.wf, s1, with_reminders. cbn [reminders]. now rewrite keys_advanced. }
  rewrite (sendReminders_unfold now s1 Hwf1).
  assert (Hquiet : forall kv, In kv (reminders this) ->
            dueEvent now (events this) (advanced now (events this) kv) = None).
  { intros [id r] Hin. unfold advanced.
    destruct (dueEvent now (events this) (id, r)) eqn:Hd; [|exact Hd].
    unfold dueEvent. cbn [fst snd nextSendAt]. specialize (Hpos id r Hin).
    destruct (dateLe (now + reminderInterval r * day_ms) now) eqn:Hdue;
      [|reflexivity].
    apply dateLe_true in Hdue. unfold day_ms in *. nia. }
  assert (Hev : events s1 = events this) by reflexivity.
  assert (Hrem : reminders s1 = map (advanced now (events this)) (reminders this))
    by reflexivity.
  rewrite Hev, Hrem. f_equal.
  - f_equal. now apply quiet_flat_map.
  - clear Hev Hrem Hwf1. unfold with_reminders. subst s1. unfold with_reminders.
    cbn [rsvpEntries events waitlist reminders].
    f_equal. rewrite map_map. apply map_ext_in. intros kv Hin.
    unfold advanced at 1. now rewrite Hquiet.
Qed.

Lemma sendReminders_twice_witness :
  sendReminders Waiting.later (snd (sendReminders Waiting.later Waiting.store)) =
  (inr [], snd (sendReminders Waiting.later Waiting.store)).
Proof.
  apply sendReminders_twice.
  - unfold JsMap.wf. vm_compute. repeat constructor. simpl. tauto.
  - intros id r [H|[]]. injection H as <- <-. reflexivity.
Defined.

(** ** Cleanup *)

Lemma bind_ok {A B} (c : M A) (k : A -> M B) (s s' : RsvpService) (a : A) :
  c s = (inr a, s') -> bind c k s = k a s'.
Proof. intros H. unfold bind. now rewrite H. Qed.

Lemma bind_gets {A B} (f : RsvpService -> A) (k : A -> M B) (s : RsvpService) :
  bind (gets f) k s = k (f s) s.
Proof. reflexivity. Qed.

(** A loop whose turns never throw and keep [Q] between the accumulator and
    the state runs to its end and keeps [Q]. *)
Lemma forOf_total {A B} (Q : B -> RsvpService -> Prop) (body : B -> A -> M B)
    (xs : list A) :
  (forall acc x s, In x xs -> Q acc s ->
     exists acc' s', body acc x s = (inr acc', s') /\ Q acc' s') ->
  forall acc s, Q acc s ->
    exists acc' s', forOf xs body acc s = (inr acc', s') /\ Q acc' s'.
Proof.
  induction xs as [|x xs IH]; intros Hbody acc s Hq; simpl.
  - exists acc, s. now split.
  - unfold bind. destruct (Hbody acc x s (or_introl eq_refl) Hq) as (acc1 & s1 & -> & H1).
    apply IH; [|exact H1]. intros acc0 y s0 Hy. apply Hbody. now right.
Qed.

(** X23. Whatever the options and the store, the two loops of
    [cleanupData] run to their end without throwing: with working storage
    the call returns its two counts, neither of them negative. It never
    touches the waitlist or the reminders. Unless [includeRSVPs] is set it
    leaves every RSVP entry in place, those of the events it deletes
    included, and reports 0 RSVPs; with [archive] set it deletes no event,
    keeps the event keys and reports 0 events. *)
Theorem cleanupData_frame (now : Date) (options : CleanupOptions)
    (this : RsvpService) :
  exists eventsCleaned rsvpsCleaned this',
    cleanupData now options this = (inr (eventsCleaned, rsvpsCleaned), this') /\
    0 <= eventsCleaned /\ 0 <= rsvpsCleaned /\
    waitlist this' = waitlist this /\
    reminders this' = reminders this /\
    (flag (co_includeRSVPs options) = false ->
     rsvpEntries this' = rsvpEntries this /\ rsvpsCleaned = 0) /\
    (flag (co_archive options) = true ->
     JsMap.keys (events this') = JsMap.keys (events this) /\ eventsCleaned = 0).
Proof.
  set (Q := fun (counts : Z * Z) (s : RsvpService) =>
         0 <= fst counts /\ 0 <= snd counts /\
         waitlist s = waitlist this /\ reminders s = reminders this /\
         (flag (co_includeRSVPs options) = false ->
          rsvpEntries s = rsvpEntries this /\ snd counts = 0) /\
         (flag (co_archive options) = true ->
          JsMap.keys (events s) = JsMap.keys (events this) /\ fst counts = 0)).
  unfold cleanupData, wrapping. unfold bind at 1, gets at 1.
  destruct (forOf_total Q
              (cleanupEvent options (now - or_default (co_maxAge options) 30 * day_ms))
              (JsMap.entries (events this))) with (acc := (0, 0)) (s := this)
    as ([ec rc] & this' & Hrun & Hq).
  - subst Q. cbv beta.
    intros [ec rc] [k e] s Hin (Q1 & Q2 & Q3 & Q4 & Q5 & Q6). unfold cleanupEvent.
    cbn [fst snd] in *.
    destruct (dateLt (event_date e) _);
      [|eexists; eexists; split; [reflexivity|]; cbn [fst snd]; tauto].
    set (Q' := fun (n : Z) (s1 : RsvpService) =>
           0 <= n /\ waitlist s1 = waitlist this /\ reminders s1 = reminders this /\
           (flag (co_archive options) = true ->
            JsMap.keys (events s1) = JsMap.keys (events this))).
    assert (Hinner : forall n s1, Q' n s1 ->
              exists n' s2,
                forOf (JsMap.entries (rsvpEntries s1))
                  (fun cleaned '(key, entry) =>
                     if String.eqb (e_eventId entry) k
                     then modify (with_rsvpEntries (JsMap.delete key)) ;;; ret (cleaned + 1)
                     else ret cleaned) n s1 = (inr n', s2) /\ Q' n' s2).
    { intros n s1 H1. apply (forOf_total Q'); [|exact H1].
      intros acc [key entry] s2 _ (A1 & A2 & A3 & A4).
      destruct (String.eqb (e_eventId entry) k); unfold bind, modify, ret;
        eexists; eexists; (split; [reflexivity|]); repeat split; auto; lia. }
    subst Q'. cbv beta in Hinner.
    destruct (flag (co_archive options)) eqn:Ha.
    + destruct (Q6 eq_refl) as [Hkeys Hec].
      assert (Hk : JsMap.keys (events (with_events (JsMap.set k (archive e)) s)) =
                   JsMap.keys (events this)).
      { unfold with_events. cbn [events].
        rewrite JsMapFacts.keys_set_In; [exact Hkeys|].
        rewrite Hkeys. unfold JsMap.keys, JsMap.entries in *.
        apply in_map_iff. now exists (k, e). }
      erewrite bind_ok by reflexivity.
      destruct (flag (co_includeRSVPs options)) eqn:Hi.
      * rewrite bind_gets.
        destruct (Hinner rc (with_events (JsMap.set k (archive e)) s))
          as (n' & s2 & Hrun & (B1 & B2 & B3 & B4)); [now repeat split|].
        erewrite bind_ok by exact Hrun.
        unfold ret. eexists; eexists; split; [reflexivity|].
        cbn [fst snd]. intuition (try lia; try congruence).
      * unfold ret. eexists; eexists; split; [reflexivity|].
        cbn [fst snd]. intuition (try lia; try congruence).
    + erewrite bind_ok by reflexivity.
      destruct (flag (co_includeRSVPs options)) eqn:Hi.
      * rewrite bind_gets.
        destruct (Hinner rc (with_events (JsMap.delete k) s))
          as (n' & s2 & Hrun & (B1 & B2 & B3 & B4));
          [repeat split; auto; discriminate|].
        erewrite bind_ok by exact Hrun.
        unfold ret. eexists; eexists; split; [reflexivity|].
        cbn [fst snd]. intuition (try lia; try congruence).
      * unfold ret. eexists; eexists; split; [reflexivity|].
        cbn [fst snd]. intuition (try lia; try congruence).
  - unfold Q. cbn [fst snd]. intuition lia.
  - rewrite Hrun. exists ec, rc, this'. split; [reflexivity|].
    unfold Q in Hq. cbn [fst snd] in Hq. tauto.
Qed.

Lemma without_doomed_filter_any {V} (p : V -> bool) (m : JsMap.t V) :
  JsMap.wf m ->
  without (doomed p m) m = filter (fun kv => negb (p (snd kv))) m.
Proof.
  intros Hwf. unfold without. apply filter_ext_in. intros [k e] Hin. cbn [fst snd].
  f_equal. destruct (p e) eqn:Hp.
  - apply existsb_exists. exists k. split; [|apply String.eqb_refl].
    unfold doomed, JsMap.keys. apply in_map_iff. exists (k, e).
    split; [reflexivity|]. apply filter_In. now split.
  - apply not_true_is_false. intros H.
    apply existsb_exists in H as (k' & Hk' & Heq).
    apply String.eqb_eq in Heq. subst k'.
    unfold doomed, JsMap.keys in Hk'.
    apply in_map_iff in Hk' as ([k' e'] & Hfst & Hin'). cbn [fst] in Hfst. subst k'.
    apply filter_In in Hin' as [Hin' Hp']. cbn [snd] in Hp'.
    apply (JsMapFacts.In_get _ _ _ Hwf) in Hin.
    apply (JsMapFacts.In_get _ _ _ Hwf) in Hin'.
    congruence.
Qed.

(** The inner loop of [cleanupData]: the entries of event [k] are deleted
    and counted. *)
Lemma purge_entries_loop (k : string) (snapshot : JsMap.t RsvpEntry) (n : Z)
    (s : RsvpService) :
  forOf snapshot (fun cleaned '(key, entry) =>
    if String.eqb (e_eventId entry) k
    then modify (with_rsvpEntries (JsMap.delete key)) ;;; ret (cleaned + 1)
    else ret cleaned) n s =
  (inr (n + Z.of_nat (List.length
                        (filter (fun kv => String.eqb (e_eventId (snd kv)) k) snapshot))),
   with_rsvpEntries
     (without (doomed (fun entry => String.eqb (e_eventId entry) k) snapshot)) s).
Proof.
  revert n s. induction snapshot as [|[key e] rest IH]; intros n s; simpl.
  - unfold ret, with_rsvpEntries, doomed. simpl. rewrite without_nil, Z.add_0_r.
    now destruct s.
  - unfold bind at 1, doomed. cbn [filter snd].
    destruct (String.eqb (e_eventId e) k) eqn:Hp.
    + unfold bind, modify, ret. rewrite IH. unfold with_rsvpEntries. cbn [rsvpEntries events waitlist reminders map fst JsMap.keys].
      rewrite without_delete. f_equal. f_equal. cbn [List.length]. lia.
    + unfold ret. rewrite IH. reflexivity.
Qed.

Lemma survivors_step (k : string) (removed : list string) (m : JsMap.t RsvpEntry) :
  survivors removed
    (filter (fun kv => negb (String.eqb (e_eventId (snd kv)) k)) m) =
  survivors (k :: removed) m.
Proof.
  unfold survivors. rewrite filter_filter. apply filter_ext. intros kv.
  cbn [existsb]. now rewrite negb_orb.
Qed.

Lemma survivors_length (removed : list string) (m : JsMap.t RsvpEntry) :
  (List.length (survivors removed m) <= List.length m)%nat.
Proof. apply filter_length_le. Qed.

(** The loop of [cleanupData] when [archive] is not set. *)
Lemma purge_loop (options : CleanupOptions) (cutoff : Date) (todo : JsMap.t Event)
    (ec rc : Z) (s : RsvpService) :
  flag (co_archive options) = false ->
  JsMap.wf (rsvpEntries s) ->
  let removed := doomed (fun e => dateLt (event_date e) cutoff) todo in
  let kept := if flag (co_includeRSVPs options)
              then survivors removed (rsvpEntries s) else rsvpEntries s in
  forOf todo (cleanupEvent options cutoff) (ec, rc) s =
  (inr (ec + Z.of_nat (List.length removed),
        rc + (Z.of_nat (List.length (rsvpEntries s)) - Z.of_nat (List.length kept))),
   with_events (without removed) (with_rsvpEntries (fun _ => kept) s)).
Proof.
  intros Ha. revert ec rc s.
  induction todo as [|[k e] rest IH]; intros ec rc s Hwf; cbn zeta.
  - unfold doomed. cbn [forOf filter JsMap.keys map List.length].
    unfold ret, with_events, with_rsvpEntries, survivors.
    cbn [existsb negb rsvpEntries events waitlist reminders].
    rewrite without_nil, filter_all.
    destruct (flag (co_includeRSVPs options)); destruct s; cbn; repeat f_equal; lia.
  - cbn [forOf]. unfold bind at 1, cleanupEvent at 1, doomed. cbn [filter snd].
    destruct (dateLt (event_date e) cutoff) eqn:Hold.
    + rewrite Ha. erewrite bind_ok by reflexivity.
      cbn [map fst JsMap.keys List.length].
      destruct (flag (co_includeRSVPs options)) eqn:Hi.
      * rewrite bind_gets. unfold JsMap.entries.
        erewrite bind_ok by apply purge_entries_loop.
        unfold ret. unfold with_rsvpEntries, with_events.
        cbn [rsvpEntries events waitlist reminders].
        rewrite (without_doomed_filter _ _ Hwf).
        specialize (IH (ec + 1)
                       (rc + Z.of_nat (List.length
                          (filter (fun kv => String.eqb (e_eventId (snd kv)) k)
                                  (rsvpEntries s))))
                       (mkRsvpService
                          (filter (fun kv => negb (String.eqb (e_eventId (snd kv)) k))
                                  (rsvpEntries s))
                          (JsMap.delete k (events s)) (waitlist s) (reminders s))).
        cbn beta iota zeta in IH.
        unfold with_rsvpEntries, with_events in IH.
        cbn [rsvpEntries events waitlist reminders] in IH.
        rewrite IH by (now apply JsMapFacts.wf_filter).
        rewrite survivors_step, without_delete.
        pose proof (filter_length (fun kv => String.eqb (e_eventId (snd kv)) k)
                      (rsvpEntries s)) as Hlen.
        unfold doomed, JsMap.keys. f_equal. f_equal. f_equal; lia.
      * unfold ret.
        specialize (IH (ec + 1) rc (with_events (JsMap.delete k) s)).
        cbn beta iota zeta in IH.
        unfold with_rsvpEntries, with_events in *.
        cbn [rsvpEntries events waitlist reminders] in *.
        rewrite IH by exact Hwf. rewrite without_delete.
        unfold doomed, JsMap.keys. f_equal. f_equal. f_equal; lia.
    + unfold ret. specialize (IH ec rc s Hwf). cbn zeta in IH. exact IH.
Qed.

Lemma doomed_length {V} (p : V -> bool) (m : JsMap.t V) :
  Z.of_nat (List.length (doomed p m)) =
  Z.of_nat (List.length m) -
  Z.of_nat (List.length (filter (fun kv => negb (p (snd kv))) m)).
Proof.
  unfold doomed, JsMap.keys. rewrite length_map.
  pose proof (filter_length (fun kv => p (snd kv)) m). lia.
Qed.

(** X24. Without [archive], [cleanupData] deletes exactly the events dated
    before the cutoff, new Date(now minus maxAge days), with 30 days if
    maxAge is absent or 0, and reports their number. With [includeRSVPs]
    it also deletes exactly the RSVP entries whose eventId is the key of a
    deleted event and reports their number; without it no entry is deleted
    and 0 is reported. When the cutoff is an Invalid Date (maxAge out of
    range) no event is before it: nothing is deleted and both counts are
    0. *)
Theorem cleanupData_deletes (now : Date) (options : CleanupOptions)
    (this : RsvpService) :
  flag (co_archive options) = false ->
  JsMap.wf (events this) ->
  JsMap.wf (rsvpEntries this) ->
  let cutoff := now - or_default (co_maxAge options) 30 * day_ms in
  let removed := doomed (fun e => dateLt (event_date e) cutoff) (events this) in
  let this' := snd (cleanupData now options this) in
  events this' =
    filter (fun kv => negb (dateLt (event_date (snd kv)) cutoff)) (events this) /\
  rsvpEntries this' =
    (if flag (co_includeRSVPs options)
     then survivors removed (rsvpEntries this)
     else rsvpEntries this) /\
  fst (cleanupData now options this) =
    inr (Z.of_nat (List.length (events this)) - Z.of_nat (List.length (events this')),
         Z.of_nat (List.length (rsvpEntries this)) -
         Z.of_nat (List.length (rsvpEntries this'))) /\
  (validDate cutoff = false ->
   events this' = events this /\ rsvpEntries this' = rsvpEntries this /\
   fst (cleanupData now options this) = inr (0, 0)).
Proof.
  intros Ha Hwe Hwr cutoff removed this'.
  assert (Hrun : cleanupData now options this =
                 forOf (events this) (cleanupEvent options cutoff) (0, 0) this).
  { unfold cleanupData, wrapping. unfold bind at 1, gets at 1.
    fold cutoff. unfold JsMap.entries.
    rewrite (purge_loop options cutoff (events this) 0 0 this Ha Hwr).
    reflexivity. }
  assert (Hmain :
    events this' =
      filter (fun kv => negb (dateLt (event_date (snd kv)) cutoff)) (events this) /\
    rsvpEntries this' =
      (if flag (co_includeRSVPs options)
       then survivors removed (rsvpEntries this)
       else rsvpEntries this) /\
    fst (cleanupData now options this) =
      inr (Z.of_nat (List.length (events this)) - Z.of_nat (List.length (events this')),
           Z.of_nat (List.length (rsvpEntries this)) -
           Z.of_nat (List.length (rsvpEntries this')))).
  { subst this'. rewrite Hrun.
    rewrite (purge_loop options cutoff (events this) 0 0 this Ha Hwr).
    cbn zeta. cbn [fst snd].
    unfold with_events, with_rsvpEntries. cbn [events rsvpEntries].
    subst removed. rewrite !(without_doomed_filter_any _ _ Hwe).
    split; [reflexivity|]. split; [reflexivity|].
    rewrite doomed_length. repeat f_equal; lia. }
  destruct Hmain as (H1 & H2 & H3).
  split; [exact H1|]. split; [exact H2|]. split; [exact H3|].
  intros Hinv.
  assert (Hnone : forall d, dateLt d cutoff = false).
  { intros d. unfold dateLt. rewrite Hinv. now rewrite andb_false_r. }
  assert (He : events this' = events this).
  { rewrite H1. rewrite <- (filter_all (events this)) at 2.
    apply filter_ext. intros kv. now rewrite Hnone. }
  assert (Hnil : removed = []).
  { subst removed. unfold doomed.
    replace (filter (fun kv => dateLt (event_date (snd kv)) cutoff) (events this))
      with (@nil (string * Event)); [reflexivity|].
    symmetry. generalize (events this) as m. clear - Hnone.
    induction m as [|kv m IH]; cbn [filter]; [reflexivity|].
    now rewrite Hnone. }
  assert (Hr : rsvpEntries this' = rsvpEntries this).
  { rewrite H2, Hnil. destruct (flag (co_includeRSVPs options)); [|reflexivity].
    unfold survivors. cbn [existsb negb]. apply filter_all. }
  split; [exact He|]. split; [exact Hr|].
  rewrite H3, He, Hr. repeat f_equal; lia.
Qed.

(** The event of day one is older than the cutoff and goes with its two
    entries; the later event and its entry stay. With a [maxAge] of minus
    a thousand million days the cutoff is an Invalid Date and nothing is
    cleaned. *)
Lemma cleanupData_deletes_witness :
  JsMap.keys (events (snd (cleanupData Archive.now Archive.purge Archive.store))) =
    ["2"%string] /\
  JsMap.keys (rsvpEntries (snd (cleanupData Archive.now Archive.purge Archive.store))) =
    ["2-c"%string] /\
  fst (cleanupData Archive.now Archive.purge Archive.store) = inr (1, 2) /\
  fst (cleanupData Archive.now farAhead Archive.store) = inr (0, 0).
Proof.
  assert (We : JsMap.wf (events Archive.store)).
  { unfold JsMap.wf. vm_compute. repeat constructor; simpl; intuition discriminate. }
  assert (Wr : JsMap.wf (rsvpEntries Archive.store)).
  { unfold JsMap.wf. vm_compute. repeat constructor; simpl; intuition discriminate. }
  destruct (cleanupData_deletes Archive.now Archive.purge Archive.store eq_refl We Wr)
    as (H1 & H2 & H3 & _).
  destruct (cleanupData_deletes Archive.now farAhead Archive.store eq_refl We Wr)
    as (_ & _ & _ & H4).
  split; [rewrite H1; reflexivity|]. split; [rewrite H2; reflexivity|].
  split; [rewrite H3, H1, H2; reflexivity|].
  apply H4. reflexivity.
Defined.

(** ** What every reachable store looks like *)

Lemma validateEvent_at_date (now : Date) (ev : Event) :
  RsvpValidator.validateEvent now ev = inr tt ->
  RsvpValidator.validateEvent (event_date ev) ev = inr tt.
Proof.
  unfold RsvpValidator.validateEvent. rewrite Z.ltb_irrefl. intros H.
  repeat match type of H with
         | (if ?c then _ else _) = _ => destruct c; [discriminate H|]
         end.
  reflexivity.
Qed.

Lemma tidy_same (s s' : RsvpService) :
  events s' = events s -> rsvpEntries s' = rsvpEntries s -> tidy s -> tidy s'.
Proof.
  intros He Hr. unfold tidy, eventsValid, entriesValid. now rewrite He, Hr.
Qed.

Lemma tidy_entries_filter (f : string * RsvpEntry -> bool) (s : RsvpService) :
  tidy s -> tidy (with_rsvpEntries (filter f) s).
Proof.
  intros (W1 & W2 & V1 & V2).
  unfold tidy, eventsValid, entriesValid, with_rsvpEntries, JsMap.entries in *;
    cbn [events rsvpEntries].
  split; [exact W1|]. split; [now apply JsMapFacts.wf_filter|].
  split; [exact V1|].
  intros key entry H. apply filter_In in H as [H _]. now apply V2.
Qed.

Lemma tidy_events_filter (f : string * Event -> bool) (s : RsvpService) :
  tidy s -> tidy (with_events (filter f) s).
Proof.
  intros (W1 & W2 & V1 & V2).
  unfold tidy, eventsValid, entriesValid, with_events, JsMap.entries in *;
    cbn [events rsvpEntries].
  split; [now apply JsMapFacts.wf_filter|]. split; [exact W2|].
  split; [|exact V2].
  intros key event H. apply filter_In in H as [H _]. now apply V1.
Qed.

Lemma tidy_events_set (k : string) (ev : Event) (s : RsvpService) :
  event_id ev = k ->
  RsvpValidator.validateEvent (event_date ev) ev = inr tt ->
  tidy s -> tidy (with_events (JsMap.set k ev) s).
Proof.
  intros Hid Hv (W1 & W2 & V1 & V2).
  unfold tidy, eventsValid, entriesValid, with_events, JsMap.entries in *;
    cbn [events rsvpEntries].
  split; [now apply JsMapFacts.wf_set|]. split; [exact W2|].
  split; [|exact V2].
  intros key event H. apply JsMapFacts.In_set in H as [[-> ->]|H]; auto.
Qed.

Lemma tidy_entries_set (k : string) (entry : RsvpEntry) (s : RsvpService) :
  k = rsvpKey (e_eventId entry) (player_id (e_player entry)) ->
  RsvpValidator.validatePlayer (e_player entry) = inr tt ->
  RsvpValidator.validateRsvpStatus (e_status entry) = inr tt ->
  tidy s -> tidy (with_rsvpEntries (JsMap.set k entry) s).
Proof.
  intros Hk Hp Hs (W1 & W2 & V1 & V2).
  unfold tidy, eventsValid, entriesValid, with_rsvpEntries, JsMap.entries in *;
    cbn [events rsvpEntries].
  split; [exact W1|]. split; [now apply JsMapFacts.wf_set|].
  split; [exact V1|].
  intros key e H. apply JsMapFacts.In_set in H as [[-> ->]|H]; auto.
Qed.

Lemma updateRsvp_tidy (now : Date) (id : string) (p : Player) (st : RsvpStatus)
    (nt : option string) (s : RsvpService) :
  tidy s -> tidy (snd (updateRsvp now id p st nt s)).
Proof.
  intros Hinv. rewrite updateRsvp_unfold.
  destruct (JsMap.get id (events s)) as [event|]; [|exact Hinv].
  destruct (RsvpValidator.validatePlayer p) as [e|[]] eqn:Hp; [exact Hinv|].
  destruct (RsvpValidator.validateRsvpStatus st) as [e|[]] eqn:Hs; [exact Hinv|].
  destruct (_ && _); [exact Hinv|].
  cbn [snd]. now apply tidy_entries_set.
Qed.

Lemma cleanupEvent_tidy (options : CleanupOptions) (cutoff : Date)
    (s0 s : RsvpService) (counts : Z * Z) (item : string * Event) :
  In item (JsMap.entries (events s0)) ->
  tidy s0 -> tidy s ->
  tidy (snd (cleanupEvent options cutoff counts item s)).
Proof.
  intros Hin H0 Hs. destruct counts as [ec rc], item as [k e].
  unfold cleanupEvent.
  destruct (dateLt (event_date e) cutoff); [|exact Hs].
  assert (Hfirst : tidy (snd (
              (if flag (co_archive options)
               then modify (with_events (JsMap.set k (archive e))) ;;; ret ec
               else modify (with_events (JsMap.delete k)) ;;; ret (ec + 1)) s))).
  { destruct (flag (co_archive options)); unfold bind, modify, ret; cbn [snd].
    - destruct H0 as (_ & _ & V1 & _). destruct (V1 _ _ Hin) as [Hid Hv].
      apply tidy_events_set; [exact Hid | exact Hv | exact Hs].
    - now apply tidy_events_filter. }
  unfold bind at 1.
  destruct ((if flag (co_archive options)
             then modify (with_events (JsMap.set k (archive e))) ;;; ret ec
             else modify (with_events (JsMap.delete k)) ;;; ret (ec + 1)) s)
    as [[err|ec'] s1]; cbn [snd] in Hfirst; [exact Hfirst|].
  destruct (flag (co_includeRSVPs options)); [|exact Hfirst].
  unfold bind at 1, gets at 1. unfold bind at 1.
  assert (Hinner : tidy (snd (
            forOf (JsMap.entries (rsvpEntries s1))
              (fun cleaned '(key, entry) =>
                 if String.eqb (e_eventId entry) k
                 then modify (with_rsvpEntries (JsMap.delete key)) ;;; ret (cleaned + 1)
                 else ret cleaned) rc s1))).
  { apply forOf_preserves; [|exact Hfirst].
    intros acc [key entry] s2 H2.
    destruct (String.eqb (e_eventId entry) k); [|exact H2].
    unfold bind, modify, ret. cbn [snd]. now apply tidy_entries_filter. }
  destruct (forOf (JsMap.entries (rsvpEntries s1)) _ rc s1) as [[err|rc'] s2];
    exact Hinner.
Qed.

(** Every public operation, whether it returns or throws, leaves a tidy
    store tidy. *)
Lemma perform_tidy (op : Op) (s : RsvpService) : tidy s -> tidy (perform op s).
Proof.
  intros Hinv.
  destruct op as [now event | now id update | id | now id p st nt | clock updates
                 | id playerId | playerId update | playerId | now id p | clock id
                 | now now' id interval | now | now options];
    cbn [perform].
  - rewrite createEvent_unfold.
    destruct (RsvpValidator.validateEvent now event) as [e|[]] eqn:Hv; [exact Hinv|].
    cbn [snd]. apply tidy_events_set; [reflexivity | | exact Hinv].
    now apply validateEvent_at_date in Hv.
  - rewrite updateEvent_unfold.
    destruct (JsMap.get id (events s)) as [event|] eqn:Hget; [|exact Hinv].
    destruct (RsvpValidator.validateEvent now _) as [e|[]] eqn:Hv; [exact Hinv|].
    cbn [snd]. apply tidy_events_set; [ | | exact Hinv].
    + destruct Hinv as (_ & _ & V1 & _). change (event_id event = id).
      apply V1. now apply JsMapFacts.get_In.
    + now apply validateEvent_at_date in Hv.
  - rewrite deleteEvent_unfold. destruct (JsMap.has id (events s)); cbn [snd].
    + apply tidy_events_filter. now apply tidy_entries_filter.
    + exact Hinv.
  - now apply updateRsvp_tidy.
  - unfold batchUpdateRsvps. rewrite rethrowing_snd.
    apply (forOf_preserves tidy); [|exact Hinv].
    intros acc u s1 H1. unfold batchItem, bind, gets, throw, ret.
    destruct (JsMap.get (bu_eventId u) (events s1)) as [found|]; [|exact H1].
    destruct (getPlayerById (bu_playerId u) s1) as [player|]; [|exact H1].
    pose proof (updateRsvp_tidy (clock (List.length acc)) (bu_eventId u) player
                  (bu_status u) None s1 H1) as H.
    destruct (updateRsvp _ _ _ _ _ s1) as [[err|entry] s']; exact H.
  - unfold cancelRsvp. rewrite rethrowing_snd. unfold bind, gets, throw, ret, modify.
    destruct (JsMap.has _ _); cbn [negb snd]; [|exact Hinv].
    now apply tidy_entries_filter.
  - unfold updatePlayer. rewrite rethrowing_snd. unfold bind at 1, gets at 1.
    destruct (getPlayerById playerId s) as [player|] eqn:Hwho; [|exact Hinv].
    unfold bind at 1, lift at 1.
    destruct (RsvpValidator.validatePlayer _) as [e|[]] eqn:Hv; [exact Hinv|].
    unfold bind at 1, gets at 1.
    apply (forOf_preserves_In tidy); [|exact Hinv].
    intros acc [key entry] s1 Hin H1.
    destruct (String.eqb_spec (player_id (e_player entry)) playerId) as [Hid|_];
      [|exact H1].
    unfold modify. cbn [snd].
    destruct Hinv as (_ & _ & _ & V2). destruct (V2 _ _ Hin) as (Hk & _ & Hs).
    apply tidy_entries_set; cbn [withPlayer e_eventId e_player e_status];
      [|exact Hv | exact Hs | exact H1].
    unfold mergePlayer; cbn [player_id].
    rewrite (getPlayerById_Some _ _ _ Hwho), <- Hid. exact Hk.
  - unfold removePlayer. rewrite rethrowing_snd. unfold bind at 1, gets at 1.
    destruct (getPlayerById playerId s); [|exact Hinv].
    unfold bind at 1, gets at 1.
    apply (forOf_preserves tidy); [|exact Hinv].
    intros acc [key entry] s1 H1.
    destruct (String.eqb _ _); [|exact H1].
    unfold modify. cbn [snd]. now apply tidy_entries_filter.
  - destruct (addToWaitlist_frame now id p s) as [He Hr]. eapply tidy_same; eauto.
  - destruct (notifyWaitlist_frame clock id s) as [He Hr]. eapply tidy_same; eauto.
  - destruct (setupReminders_frame now now' id interval s) as [He Hr].
    eapply tidy_same; eauto.
  - destruct (sendReminders_frame now s) as [He Hr]. eapply tidy_same; eauto.
  - unfold cleanupData. rewrite wrapping_snd. unfold bind, gets.
    apply (forOf_preserves_In tidy); [|exact Hinv].
    intros acc x s1 Hin H1. now apply (cleanupEvent_tidy _ _ s).
Qed.

Lemma reachable_tidy (s : RsvpService) : reachable anyOp s -> tidy s.
Proof.
  induction 1 as [|s op Hs IH Hok].
  - split; [constructor|]. split; [constructor|].
    split; intros key x [].
  - now apply perform_tidy.
Qed.

Lemma count_all_statuses (l : list RsvpEntry) :
  (forall entry, In entry l ->
     RsvpValidator.validateRsvpStatus (e_status entry) = inr tt) ->
  count_where (fun entry => String.eqb (e_status entry) "Yes") l +
  count_where (fun entry => String.eqb (e_status entry) "No") l +
  count_where (fun entry => String.eqb (e_status entry) "Maybe") l
  = Z.of_nat (List.length l).
Proof.
  unfold count_where. induction l as [|e l IH]; intros Hall;
    cbn [filter List.length]; [reflexivity|].
  assert (Hl : forall entry, In entry l ->
            RsvpValidator.validateRsvpStatus (e_status entry) = inr tt)
    by (intros entry Hin; apply Hall; now right).
  specialize (IH Hl).
  pose proof (Hall e (or_introl eq_refl)) as He.
  apply validateRsvpStatus_ok in He.
  destruct (String.eqb_spec (e_status e) "Yes") as [Hy|Hy];
    destruct (String.eqb_spec (e_status e) "No") as [Hn|Hn];
    destruct (String.eqb_spec (e_status e) "Maybe") as [Hm|Hm];
    try congruence; cbn [List.length]; try lia.
  destruct He as [He | [He | He]]; contradiction.
Qed.

Lemma arrived_at (ops : list Op) : reachable anyOp (run ops newService).
Proof. apply reachable_run. constructor. Qed.

(** X25. In every state reachable from the empty store by public
    operations, returning or throwing, both maps have no duplicate key;
    every stored event sits under its own id and passes every check of
    [validateEvent] except the one on the date (it is valid as of its own
    date); every stored RSVP entry sits under the key
    eventId + "-" + player.id, holds a player that passes [validatePlayer]
    and has status 'Yes', 'No' or 'Maybe'. *)
Theorem reachable_store_valid (this : RsvpService) :
  reachable anyOp this ->
  JsMap.wf (events this) /\ JsMap.wf (rsvpEntries this) /\
  (forall key event,
     In (key, event) (JsMap.entries (events this)) ->
     event_id event = key /\
     RsvpValidator.validateEvent (event_date event) event = inr tt) /\
  (forall key entry,
     In (key, entry) (JsMap.entries (rsvpEntries this)) ->
     key = rsvpKey (e_eventId entry) (player_id (e_player entry)) /\
     RsvpValidator.validatePlayer (e_player entry) = inr tt /\
     (e_status entry = "Yes" \/ e_status entry = "No" \/ e_status entry = "Maybe")).
Proof.
  intros Hr. destruct (reachable_tidy this Hr) as (W1 & W2 & V1 & V2).
  split; [exact W1|]. split; [exact W2|]. split; [exact V1|].
  intros key entry Hin. destruct (V2 key entry Hin) as (Hk & Hp & Hs).
  split; [exact Hk|]. split; [exact Hp|]. now apply validateRsvpStatus_ok.
Qed.

(** The store of two events and three entries is reachable, so its
    entries sit under their composite keys. *)
Lemma reachable_store_valid_witness :
  reachable anyOp Archive.store /\
  JsMap.wf (rsvpEntries Archive.store) /\
  forall key entry,
    In (key, entry) (JsMap.entries (rsvpEntries Archive.store)) ->
    key = rsvpKey (e_eventId entry) (player_id (e_player entry)).
Proof.
  assert (Hr : reachable anyOp Archive.store).
  { unfold Archive.store, Sample.fullGame. apply reachable_run, arrived_at. }
  split; [exact Hr|].
  destruct (reachable_store_valid Archive.store Hr) as (_ & W2 & _ & V2).
  split; [exact W2|].
  intros key entry Hin. now apply V2.
Defined.

(** X26. In every state reachable from the empty store by public
    operations, the counts of [getRsvpStats] add up,
    confirmed + declined + maybe = total, and responseRate is 100
    whenever there is an entry at all. *)
Theorem getRsvpStats_reachable (this : RsvpService) :
  reachable anyOp this ->
  let s := getRsvpStats this in
  confirmed s + declined s + maybe s = total s /\
  (0 < total s -> (responseRate s == 100)%Q).
Proof.
  intros Hr. destruct (reachable_tidy this Hr) as (_ & _ & _ & V2).
  unfold getRsvpStats; cbn [total confirmed declined maybe responseRate].
  set (entries := JsMap.values (rsvpEntries this)).
  assert (Hsum : count_where (fun entry => String.eqb (e_status entry) "Yes") entries +
                 count_where (fun entry => String.eqb (e_status entry) "No") entries +
                 count_where (fun entry => String.eqb (e_status entry) "Maybe") entries
                 = Z.of_nat (List.length entries)).
  { apply count_all_statuses. intros entry Hin.
    unfold entries, JsMap.values in Hin. apply in_map_iff in Hin as ([k e] & <- & Hin).
    now apply (V2 k e). }
  split; [exact Hsum|].
  intros Ht. rewrite Hsum.
  destruct (Z.ltb_spec 0 (Z.of_nat (List.length entries))) as [_|Hle]; [|lia].
  rewrite (Float64Facts.rate_full _ Ht). vm_compute. reflexivity.
Qed.

(** Three entries, one of them 'Maybe': the counts add up to 3 and the
    response rate is 100. *)
Lemma getRsvpStats_reachable_witness :
  reachable anyOp Archive.store /\
  total (getRsvpStats Archive.store) = 3 /\
  confirmed (getRsvpStats Archive.store) + declined (getRsvpStats Archive.store)
    + maybe (getRsvpStats Archive.store) = 3 /\
  (responseRate (getRsvpStats Archive.store) == 100)%Q.
Proof.
  assert (Hr : reachable anyOp Archive.store).
  { unfold Archive.store, Sample.fullGame. apply reachable_run, arrived_at. }
  destruct (getRsvpStats_reachable Archive.store Hr) as [Hsum Hrate].
  split; [exact Hr|]. split; [reflexivity|]. split.
  - rewrite Hsum. reflexivity.
  - apply Hrate. reflexivity.
Defined.

(** ** Entries and their events *)

Lemma has_set_mono {V} (k k' : string) (v : V) (m : JsMap.t V) :
  JsMap.has k m = true -> JsMap.has k (JsMap.set k' v m) = true.
Proof.
  rewrite !has_In, keys_set. intros H.
  destruct (JsMap.has k' m); [exact H|]. apply in_or_app. now left.
Qed.

Lemma has_delete_other {V} (k k' : string) (m : JsMap.t V) :
  k' <> k -> JsMap.has k' (JsMap.delete k m) = JsMap.has k' m.
Proof. intros H. unfold JsMap.has. now rewrite get_delete_other. Qed.

Lemma refer_mono (s s' : RsvpService) :
  (forall k, JsMap.has k (events s) = true -> JsMap.has k (events s') = true) ->
  incl (JsMap.values (rsvpEntries s')) (JsMap.values (rsvpEntries s)) ->
  entriesRefer s -> entriesRefer s'.
Proof. intros He Hr H entry Hin. apply He, H, Hr, Hin. Qed.

Lemma values_filter_incl {V} (f : string * V -> bool) (m : JsMap.t V) :
  incl (JsMap.values (filter f m)) (JsMap.values m).
Proof.
  unfold JsMap.values. intros v Hin.
  apply in_map_iff in Hin as (kv & <- & Hin). apply filter_In in Hin as [Hin _].
  now apply in_map.
Qed.

Lemma refer_entries_filter (f : string * RsvpEntry -> bool) (s : RsvpService) :
  entriesRefer s -> entriesRefer (with_rsvpEntries (filter f) s).
Proof.
  apply refer_mono; unfold with_rsvpEntries; cbn [events rsvpEntries]; [tauto|].
  apply values_filter_incl.
Qed.

Lemma refer_events_set (k : string) (ev : Event) (s : RsvpService) :
  entriesRefer s -> entriesRefer (with_events (JsMap.set k ev) s).
Proof.
  apply refer_mono; unfold with_events; cbn [events rsvpEntries].
  - intros k'. apply has_set_mono.
  - apply incl_refl.
Qed.

Lemma refer_entries_set (k : string) (entry : RsvpEntry) (s : RsvpService) :
  JsMap.has (e_eventId entry) (events s) = true ->
  entriesRefer s -> entriesRefer (with_rsvpEntries (JsMap.set k entry) s).
Proof.
  intros Hev H e Hin. unfold with_rsvpEntries in *; cbn [events rsvpEntries] in *.
  unfold JsMap.values in Hin. apply in_map_iff in Hin as ([k' e'] & <- & Hin).
  cbn [snd]. apply JsMapFacts.In_set in Hin as [[-> ->]|Hin]; [exact Hev|].
  apply H. unfold JsMap.values. change e' with (snd (k', e')). now apply in_map.
Qed.

(** Deleting an event together with every entry that names it. *)
Lemma refer_cascade (k : string) (s : RsvpService) :
  entriesRefer s ->
  entriesRefer
    (with_events (JsMap.delete k)
       (with_rsvpEntries
          (without (doomed (fun entry => String.eqb (e_eventId entry) k)
                           (rsvpEntries s))) s)).
Proof.
  intros H entry Hin. unfold with_events, with_rsvpEntries in *;
    cbn [events rsvpEntries] in *.
  pose proof (without_doomed_clean _ _ _ Hin) as Hne. cbn beta in Hne.
  apply String.eqb_neq in Hne. rewrite has_delete_other by exact Hne.
  apply H. revert Hin. apply values_filter_incl.
Qed.

Lemma updateRsvp_refers (now : Date) (id : string) (p : Player) (st : RsvpStatus)
    (nt : option string) (s : RsvpService) :
  entriesRefer s -> entriesRefer (snd (updateRsvp now id p st nt s)).
Proof.
  intros Hinv. rewrite updateRsvp_unfold.
  destruct (JsMap.get id (events s)) as [event|] eqn:Hget; [|exact Hinv].
  destruct (RsvpValidator.validatePlayer p) as [e|[]]; [exact Hinv|].
  destruct (RsvpValidator.validateRsvpStatus st) as [e|[]]; [exact Hinv|].
  destruct (_ && _); [exact Hinv|].
  cbn [snd]. apply refer_entries_set; [|exact Hinv].
  cbn [e_eventId]. unfold JsMap.has. now rewrite Hget.
Qed.

Lemma cleanupEvent_refers (options : CleanupOptions) (cutoff : Date)
    (s : RsvpService) (counts : Z * Z) (item : string * Event) :
  flag (co_archive options) = true \/ flag (co_includeRSVPs options) = true ->
  entriesRefer s ->
  entriesRefer (snd (cleanupEvent options cutoff counts item s)).
Proof.
  intros Hok Hs. destruct counts as [ec rc], item as [k e].
  unfold cleanupEvent.
  destruct (dateLt (event_date e) cutoff); [|exact Hs].
  destruct (flag (co_archive options)) eqn:Ha.
  - erewrite bind_ok by reflexivity.
    destruct (flag (co_includeRSVPs options)); [|now apply refer_events_set].
    rewrite bind_gets. unfold JsMap.entries.
    erewrite bind_ok by apply purge_entries_loop.
    unfold ret. cbn [snd]. unfold without.
    now apply refer_entries_filter, refer_events_set.
  - destruct Hok as [Hok|Hi]; [discriminate Hok|]. rewrite Hi.
    erewrite bind_ok by reflexivity.
    rewrite bind_gets. unfold JsMap.entries.
    erewrite bind_ok by apply purge_entries_loop.
    unfold ret. cbn [snd].
    now apply (refer_cascade k) in Hs.
Qed.

Lemma perform_refers (op : Op) (s : RsvpService) :
  cleansEntries s op -> entriesRefer s -> entriesRefer (perform op s).
Proof.
  intros Hok Hinv.
  destruct op as [now event | now id update | id | now id p st nt | clock updates
                 | id playerId | playerId update | playerId | now id p | clock id
                 | now now' id interval | now | now options];
    cbn [perform cleansEntries] in *.
  - rewrite createEvent_unfold.
    destruct (RsvpValidator.validateEvent now event) as [e|[]]; [exact Hinv|].
    cbn [snd]. now apply refer_events_set.
  - rewrite updateEvent_unfold.
    destruct (JsMap.get id (events s)) as [event|]; [|exact Hinv].
    destruct (RsvpValidator.validateEvent now _) as [e|[]]; [exact Hinv|].
    cbn [snd]. now apply refer_events_set.
  - rewrite deleteEvent_unfold. destruct (JsMap.has id (events s)); cbn [snd].
    + now apply refer_cascade.
    + exact Hinv.
  - now apply updateRsvp_refers.
  - unfold batchUpdateRsvps. rewrite rethrowing_snd.
    apply (forOf_preserves entriesRefer); [|exact Hinv].
    intros acc u s1 H1. unfold batchItem, bind, gets, throw, ret.
    destruct (JsMap.get (bu_eventId u) (events s1)) as [found|]; [|exact H1].
    destruct (getPlayerById (bu_playerId u) s1) as [player|]; [|exact H1].
    pose proof (updateRsvp_refers (clock (List.length acc)) (bu_eventId u) player
                  (bu_status u) None s1 H1) as H.
    destruct (updateRsvp _ _ _ _ _ s1) as [[err|entry] s']; exact H.
  - unfold cancelRsvp. rewrite rethrowing_snd. unfold bind, gets, throw, ret, modify.
    destruct (JsMap.has _ _); cbn [negb snd]; [|exact Hinv].
    now apply refer_entries_filter.
  - unfold updatePlayer. rewrite rethrowing_snd. unfold bind at 1, gets at 1.
    destruct (getPlayerById playerId s) as [player|]; [|exact Hinv].
    unfold bind at 1, lift at 1.
    destruct (RsvpValidator.validatePlayer _) as [e|[]]; [exact Hinv|].
    unfold bind at 1, gets at 1.
    apply (forOf_preserves_In
             (fun s1 => events s1 = events s /\ entriesRefer s1)); [|now split].
    intros acc [key entry] s1 Hin [He H1].
    destruct (String.eqb (player_id (e_player entry)) playerId); [|now split].
    unfold modify. cbn [snd]. split; [exact He|].
    apply refer_entries_set; [|exact H1].
    cbn [withPlayer e_eventId]. rewrite He. apply Hinv.
    unfold JsMap.values. change entry with (snd (key, entry)). now apply in_map.
  - unfold removePlayer. rewrite rethrowing_snd. unfold bind at 1, gets at 1.
    destruct (getPlayerById playerId s); [|exact Hinv].
    unfold bind at 1, gets at 1.
    apply (forOf_preserves entriesRefer); [|exact Hinv].
    intros acc [key entry] s1 H1.
    destruct (String.eqb _ _); [|exact H1].
    unfold modify. cbn [snd]. now apply refer_entries_filter.
  - destruct (addToWaitlist_frame now id p s) as [He Hr].
    unfold entriesRefer. now rewrite He, Hr.
  - destruct (notifyWaitlist_frame clock id s) as [He Hr].
    unfold entriesRefer. now rewrite He, Hr.
  - destruct (setupReminders_frame now now' id interval s) as [He Hr].
    unfold entriesRefer. now rewrite He, Hr.
  - destruct (sendReminders_frame now s) as [He Hr].
    unfold entriesRefer. now rewrite He, Hr.
  - unfold cleanupData. rewrite wrapping_snd. unfold bind at 1, gets at 1.
    apply (forOf_preserves entriesRefer); [|exact Hinv].
    intros acc x s1 H1. now apply cleanupEvent_refers.
Qed.

(** X27. As long as no [cleanupData] call deletes events while keeping
    their entries (each one archives or has [includeRSVPs] set), every
    stored RSVP entry belongs to a stored event, in every state reachable
    from the empty store by public operations. The side condition is
    needed: [cleanupData({maxAge: 1})] leaves the entries of the events it
    deletes behind. *)
Theorem entries_refer_to_events :
  (forall this, reachable cleansEntries this -> entriesRefer this) /\
  (exists this, reachable anyOp this /\ ~ entriesRefer this).
Proof.
  split.
  - induction 1 as [|s op Hs IH Hok].
    + intros entry [].
    + now apply perform_refers.
  - exists (run [CleanupData Archive.now deleteOld] Archive.store). split.
    + unfold Archive.store, Sample.fullGame. apply reachable_run, reachable_run, arrived_at.
    + intros H.
      specialize (H (mkRsvpEntry "1" Sample.ann "Yes" 1001 None)).
      assert (Hin : In (mkRsvpEntry "1" Sample.ann "Yes" 1001 None)
                (JsMap.values (rsvpEntries
                   (run [CleanupData Archive.now deleteOld] Archive.store))))
        by (vm_compute; tauto).
      apply H in Hin. vm_compute in Hin. discriminate Hin.
Qed.

(** Cleaning with [includeRSVPs] keeps the sample store consistent: the
    entries of the deleted first event are gone with it. *)
Lemma entries_refer_to_events_witness :
  entriesRefer (perform (CleanupData Archive.now Archive.purge) Archive.store).
Proof.
  destruct entries_refer_to_events as [Hinv _]. apply Hinv.
  apply reachable_step; [|right; reflexivity].
  change Archive.store with
    (perform (UpdateRsvp 1005 "2" Sample.cy "Maybe" None)
       (perform (CreateEvent 1000 Archive.final)
          (perform (UpdateRsvp 1002 "1" Sample.bob "Yes" None)
             (perform (UpdateRsvp 1001 "1" Sample.ann "Yes" None)
                (perform (CreateEvent 1000 Sample.game) newService))))).
  do 5 (apply reachable_step; [|exact I]). apply reachable_new.
Defined.

(** ** What a round trip through the data file keeps *)

Lemma reload_fresh (m acc : JsMap.t Js.value) :
  NoDup (JsMap.keys acc ++ JsMap.keys m) ->
  fold_left (fun acc kv => JsMap.set (fst kv) (Js.reparsed (snd kv)) acc) m acc =
  acc ++ FileStorage.mapValues Js.reparsed m.
Proof.
  revert acc. induction m as [|[k v] m IH]; intros acc Hnd; cbn [fold_left].
  - cbn. now rewrite app_nil_r.
  - cbn [fst snd JsMap.keys map] in *.
    assert (Hfresh : ~ In k (JsMap.keys acc)).
    { apply NoDup_remove_2 in Hnd. intros H. apply Hnd. apply in_or_app. now left. }
    rewrite (JsMapFacts.keys_set_fresh _ _ _ Hfresh).
    rewrite IH.
    + rewrite <- app_assoc. reflexivity.
    + unfold JsMap.keys. rewrite map_app, <- app_assoc. exact Hnd.
Qed.

Lemma reload_wf (m : JsMap.t Js.value) :
  JsMap.wf m ->
  fold_left (fun acc kv => JsMap.set (fst kv) (Js.reparsed (snd kv)) acc) m JsMap.empty =
  FileStorage.mapValues Js.reparsed m.
Proof. intros Hwf. now rewrite reload_fresh. Qed.

Lemma keys_mapValues {V W} (f : V -> W) (m : JsMap.t V) :
  JsMap.keys (FileStorage.mapValues f m) = JsMap.keys m.
Proof. unfold JsMap.keys, FileStorage.mapValues. now rewrite map_map. Qed.

Lemma reparsed_entry_prop (entry : RsvpEntry) (k : string) :
  k <> "updatedAt"%string ->
  Js.prop k (Js.reparsed (FileStorage.ofRsvpEntry entry)) =
  Js.prop k (FileStorage.ofRsvpEntry entry).
Proof.
  intros Hk. unfold Js.reparsed, Js.toJSON, FileStorage.ofRsvpEntry, FileStorage.ofPlayer.
  destruct (e_notes entry); cbn -[String.eqb Js.validTime Js.toISOString];
    repeat match goal with
           | |- context [String.eqb k ?s] => destruct (String.eqb_spec k s)
           end; try reflexivity; contradiction.
Qed.

Lemma reparsed_event_prop (e : Event) (k : string) :
  k <> "date"%string ->
  Js.prop k (Js.reparsed (FileStorage.ofEvent e)) = Js.prop k (FileStorage.ofEvent e).
Proof.
  intros Hk. unfold Js.reparsed, Js.toJSON, FileStorage.ofEvent.
  destruct (archived e); cbn -[String.eqb Js.validTime Js.toISOString];
    repeat match goal with
           | |- context [String.eqb k ?s] => destruct (String.eqb_spec k s)
           end; try reflexivity; contradiction.
Qed.

(** X28. For a snapshot whose four maps have no duplicate key, [save] to
    an absent file followed by [load] succeeds and returns each collection
    with the same keys in the same order. Every RSVP entry comes back
    under its key with every property but [updatedAt] as it was (an absent
    [notes] stays absent), and every event with every property but
    [date] as it was. *)
Theorem save_then_load_keeps (data : StorageData) :
  JsMap.wf (sd_rsvpEntries data) -> JsMap.wf (sd_events data) ->
  JsMap.wf (sd_waitlist data) -> JsMap.wf (sd_reminders data) ->
  exists loaded,
    FileStorage.save_then_load data = inr loaded /\
    JsMap.keys (FileStorage.c_rsvpEntries loaded) = JsMap.keys (sd_rsvpEntries data) /\
    JsMap.keys (FileStorage.c_events loaded) = JsMap.keys (sd_events data) /\
    JsMap.keys (FileStorage.c_waitlist loaded) = JsMap.keys (sd_waitlist data) /\
    JsMap.keys (FileStorage.c_reminders loaded) = JsMap.keys (sd_reminders data) /\
    (forall key entry,
       JsMap.get key (sd_rsvpEntries data) = Some entry ->
       exists v,
         JsMap.get key (FileStorage.c_rsvpEntries loaded) = Some v /\
         forall k, k <> "updatedAt"%string ->
                   Js.prop k v = Js.prop k (FileStorage.ofRsvpEntry entry)) /\
    (forall key e,
       JsMap.get key (sd_events data) = Some e ->
       exists v,
         JsMap.get key (FileStorage.c_events loaded) = Some v /\
         forall k, k <> "date"%string ->
                   Js.prop k v = Js.prop k (FileStorage.ofEvent e)).
Proof.
  intros Wr We Ww Wm.
  pose proof (FileStorageFacts.save_then_load_eq data) as Heq. cbv zeta in Heq.
  unfold FileStorage.ofStorageData in Heq.
  cbn [FileStorage.c_rsvpEntries FileStorage.c_events FileStorage.c_waitlist
       FileStorage.c_reminders] in Heq.
  rewrite !reload_wf in Heq by (now apply wf_mapValues).
  eexists. split; [exact Heq|].
  cbn [FileStorage.c_rsvpEntries FileStorage.c_events FileStorage.c_waitlist
       FileStorage.c_reminders].
  rewrite !keys_mapValues.
  repeat (split; [reflexivity|]). split.
  - intros key entry Hget. eexists. split.
    + rewrite !get_mapValues, Hget. reflexivity.
    + intros k Hk. now apply reparsed_entry_prop.
  - intros key e Hget. eexists. split.
    + rewrite !get_mapValues, Hget. reflexivity.
    + intros k Hk. now apply reparsed_event_prop.
Qed.

(** The snapshot of one event: it is read back under key "1" with its
    name. *)
Lemma save_then_load_keeps_witness :
  exists loaded v,
    FileStorage.save_then_load Sample.oneEvent = inr loaded /\
    JsMap.keys (FileStorage.c_events loaded) = ["1"%string] /\
    JsMap.get "1" (FileStorage.c_events loaded) = Some v /\
    Js.prop "name" v = Js.Str "Game".
Proof.
  destruct (save_then_load_keeps Sample.oneEvent)
    as (loaded & Hload & _ & Hkeys & _ & _ & _ & Hev).
  - constructor.
  - unfold JsMap.wf. vm_compute. repeat constructor. simpl. tauto.
  - constructor.
  - constructor.
  - destruct (Hev "1"%string Sample.game eq_refl) as (v & Hget & Hprop).
    exists loaded, v. split; [exact Hload|]. split; [exact Hkeys|].
    split; [exact Hget|]. rewrite Hprop by discriminate. reflexivity.
Defined.

(** ** Setting up a reminder *)

(** X29. With working storage, [setupReminders] for an event that is not
    stored throws 'Event not found' and changes nothing. For a stored event
    it stores, under the event id, a reminder last sent now and next due at
    new Date(now + interval days), replacing any earlier reminder of that
    event and leaving every other reminder, the events, the RSVP entries
    and the waitlist as they were. If that due time is a valid date, a
    following [sendReminders] at or after it returns the event; if it is
    an Invalid Date (the interval is out of range) the reminder is never
    due: every later [sendReminders] leaves it as it is. *)
Theorem setupReminders_stores (now now' : Date) (id : string) (interval : Z)
    (this : RsvpService) :
  JsMap.wf (reminders this) ->
  (JsMap.get id (events this) = None ->
   setupReminders now now' id interval this =
   (inl (ValidationError "Event not found"), this)) /\
  (forall event,
     JsMap.get id (events this) = Some event ->
     exists this',
       setupReminders now now' id interval this = (inr tt, this') /\
       JsMap.get id (reminders this') =
         Some (mkEventReminder id now (now' + interval * day_ms) interval) /\
       (forall id', id' <> id ->
          JsMap.get id' (reminders this') = JsMap.get id' (reminders this)) /\
       events this' = events this /\
       rsvpEntries this' = rsvpEntries this /\
       waitlist this' = waitlist this /\
       (forall later,
          validDate (now' + interval * day_ms) = true ->
          validDate later = true ->
          now' + interval * day_ms <= later ->
          exists sent, fst (sendReminders later this') = inr sent /\ In event sent) /\
       (forall later,
          validDate (now' + interval * day_ms) = false ->
          JsMap.get id (reminders (snd (sendReminders later this'))) =
          Some (mkEventReminder id now (now' + interval * day_ms) interval))).
Proof.
  intros Hwf. split.
  - intros Hget. unfold setupReminders, rethrowing, bind, gets, throw.
    now rewrite Hget.
  - intros event Hget. eexists. split.
    { unfold setupReminders, rethrowing, bind, gets, throw, modify.
      rewrite Hget. reflexivity. }
    unfold with_reminders. cbn [events rsvpEntries waitlist reminders].
    split; [apply JsMapFacts.get_set_same|].
    split; [intros id' Hne; now apply JsMapFacts.get_set_other|].
    do 3 (split; [reflexivity|]).
    split.
    + intros later Hv Hl Hdue. eexists. split.
      * rewrite sendReminders_unfold; [reflexivity|].
        cbn [reminders]. now apply JsMapFacts.wf_set.
      * cbn [events reminders]. apply in_flat_map.
        exists (id, mkEventReminder id now (now' + interval * day_ms) interval).
        split.
        -- apply JsMapFacts.get_In, JsMapFacts.get_set_same.
        -- unfold collected, dueEvent. cbn [fst snd nextSendAt].
           rewrite (proj2 (dateLe_true _ _)) by tauto.
           rewrite Hget. now left.
    + intros later Hinv.
      rewrite sendReminders_unfold by (cbn [reminders]; now apply JsMapFacts.wf_set).
      cbn [snd]. unfold with_reminders. cbn [events reminders].
      rewrite get_map_advanced, JsMapFacts.get_set_same.
      unfold advanced, dueEvent, dateLe. cbn [fst snd nextSendAt].
      rewrite Hinv. reflexivity.
Qed.

(** A daily reminder for the game, set up at time 1004, is collected one
    day later. A reminder set up with an interval of minus a thousand
    million days has an Invalid Date as its due time and is left alone. *)
Lemma setupReminders_stores_witness :
  (exists this',
     setupReminders 1004 1004 "1" 1 Sample.fullGame = (inr tt, this') /\
     JsMap.get "1" (reminders this') =
       Some (mkEventReminder "1" 1004 (1004 + day_ms) 1) /\
     exists sent,
       fst (sendReminders (1004 + day_ms) this') = inr sent /\ In Sample.game sent) /\
  (exists this',
     setupReminders 1004 1004 "1" (-1000000000) Sample.fullGame = (inr tt, this') /\
     JsMap.get "1" (reminders (snd (sendReminders (1004 + day_ms) this'))) =
       Some (mkEventReminder "1" 1004 (1004 + -1000000000 * day_ms) (-1000000000))).
Proof.
  split.
  - destruct (setupReminders_stores 1004 1004 "1" 1 Sample.fullGame)
      as [_ Hok]; [constructor|].
    destruct (Hok Sample.game eq_refl)
      as (this' & Hrun & Hget & _ & _ & _ & _ & Hsend & _).
    exists this'. split; [exact Hrun|]. split; [exact Hget|].
    apply Hsend; [reflexivity | reflexivity | lia].
  - destruct (setupReminders_stores 1004 1004 "1" (-1000000000) Sample.fullGame)
      as [_ Hok]; [constructor|].
    destruct (Hok Sample.game eq_refl)
      as (this' & Hrun & _ & _ & _ & _ & _ & _ & Hnever).
    exists this'. split; [exact Hrun|]. apply Hnever. reflexivity.
Defined.
